(** * FASTA utilities: N-run scanner and contig reordering

  A shallow embedding of [checkforNs.py] and [reordercontigs.py].

  Text is modelled as [string] (characters are code points below 256),
  Python [int]s that only count are [nat], the wrap width is a [Z],
  dictionaries are [gmap]s keyed by strings, the [used] set is a [gset].
  Files are the text they hold; reading one yields its lines the way
  Python's text mode does (universal newlines). *)

From stdpp Require Import gmap strings list fin_maps pretty.
From Stdlib Require Import Ascii String ZArith Lia.

Local Open Scope string_scope.
Local Open Scope list_scope.
Local Open Scope nat_scope.

(** ** Python string primitives *)

Module Py.

(** Outcome of a Python computation: a value, [sys.exit(code)], or an
    uncaught exception. *)
Inductive exn := IndexError | ZeroDivisionError | KeyError.

Inductive result (A : Type) : Type :=
| Ok (a : A)
| Exit (code : Z)
| Raise (e : exn).
Arguments Ok {A} a.
Arguments Exit {A} code.
Arguments Raise {A} e.

Definition bind {A B} (r : result A) (k : A → result B) : result B :=
  match r with
  | Ok a => k a
  | Exit c => Exit c
  | Raise e => Raise e
  end.

Definition LF : ascii := ascii_of_nat 10.
Definition CR : ascii := ascii_of_nat 13.
Definition GT : ascii := ascii_of_nat 62.   (* '>' *)
Definition HASH : ascii := ascii_of_nat 35. (* '#' *)
Definition chN : ascii := ascii_of_nat 78.  (* 'N' *)
Definition NL : string := String LF EmptyString.

(** [str.isspace] on one character, for code points below 256. *)
Definition isspace (c : ascii) : bool :=
  let n := nat_of_ascii c in
  ((9 <=? n) && (n <=? 13)) || ((28 <=? n) && (n <=? 32))
  || (n =? 133) || (n =? 160).

(** every character of [s] is whitespace ([s] may be empty) *)
Fixpoint all_space (s : string) : bool :=
  match s with
  | EmptyString => true
  | String c s' => isspace c && all_space s'
  end.

(** [s.lstrip(chars)], with the stripped characters given as a test. *)
Fixpoint lstrip_by (p : ascii → bool) (s : string) : string :=
  match s with
  | String c s' => if p c then lstrip_by p s' else s
  | EmptyString => EmptyString
  end.

(** [s.rstrip(chars)]. *)
Fixpoint rstrip_by (p : ascii → bool) (s : string) : string :=
  match s with
  | EmptyString => EmptyString
  | String c s' =>
      match rstrip_by p s' with
      | EmptyString => if p c then EmptyString else String c EmptyString
      | r => String c r
      end
  end.

Definition rstrip (s : string) : string := rstrip_by isspace s.
Definition strip (s : string) : string := lstrip_by isspace (rstrip_by isspace s).

(** [s.split()]: the maximal runs of non-whitespace characters. *)
Fixpoint split_go (tok : string) (s : string) : list string :=
  match s with
  | EmptyString => match tok with EmptyString => [] | _ => [tok] end
  | String c s' =>
      if isspace c
      then match tok with
           | EmptyString => split_go EmptyString s'
           | _ => tok :: split_go EmptyString s'
           end
      else split_go (tok +:+ String c EmptyString) s'
  end.

Definition split (s : string) : list string := split_go EmptyString s.

(** [l[0]] on a list. *)
Definition index0 {A} (l : list A) : result A :=
  match l with
  | x :: _ => Ok x
  | [] => Raise IndexError
  end.

(** [s.startswith(c)] for a one-character prefix. *)
Definition startswith (c : ascii) (s : string) : bool :=
  match s with
  | String a _ => Ascii.eqb a c
  | EmptyString => false
  end.

(** [s[1:]]. *)
Definition tail1 (s : string) : string :=
  match s with
  | String _ s' => s'
  | EmptyString => EmptyString
  end.

(** [''.join(parts)]. *)
Definition join (parts : list string) : string :=
  foldr String.append EmptyString parts.
Global Arguments join : simpl never.

(** [s.count(c)] for a one-character needle. *)
Fixpoint count (c : ascii) (s : string) : nat :=
  match s with
  | EmptyString => 0
  | String a s' => (if Ascii.eqb a c then 1 else 0) + count c s'
  end.

(** [range(0, stop, step)] for [step > 0]; [fuel] bounds the number of
    elements and [stop] itself is always enough. *)
Fixpoint range_from (fuel i stop step : nat) : list nat :=
  match fuel with
  | 0 => []
  | S f => if i <? stop then i :: range_from f (i + step) stop step else []
  end.

Definition range0 (stop step : nat) : list nat := range_from stop 0 stop step.

(** [s[i:i+w]]. *)
Definition slice (i w : nat) (s : string) : string := String.substring i w s.

(** every character of [s] passes the test [q] *)
Fixpoint sforall (q : ascii → bool) (s : string) : bool :=
  match s with
  | EmptyString => true
  | String c s' => q c && sforall q s'
  end.

(** [s] holds no line end, and [s] holds no record marker *)
Definition no_eol (s : string) : bool :=
  sforall (λ c, negb (Ascii.eqb c LF || Ascii.eqb c CR)) s.

Definition no_marker (s : string) : bool :=
  sforall (λ c, negb (Ascii.eqb c GT)) s.

(** [s[:n]] and [s[n:]], the two halves of a slice. *)
Fixpoint stake (n : nat) (s : string) : string :=
  match n, s with
  | S n', String c s' => String c (stake n' s')
  | _, _ => EmptyString
  end.

Fixpoint sdrop (n : nat) (s : string) : string :=
  match n, s with
  | S n', String _ s' => sdrop n' s'
  | _, _ => s
  end.

(** Iterating over a file opened in text mode: the text is cut after
    every line end; ["\r"], ["\r\n"] and ["\n"] all end a line and are
    delivered as ["\n"]; a last line without line end is delivered as
    it is. [cr] records that the previous character was ["\r"]. *)
Fixpoint readlines_go (cr : bool) (cur : string) (s : string) : list string :=
  match s with
  | EmptyString => match cur with EmptyString => [] | _ => [cur] end
  | String c s' =>
      if Ascii.eqb c LF then
        if cr then readlines_go false EmptyString s'
        else (cur +:+ String LF EmptyString) :: readlines_go false EmptyString s'
      else if Ascii.eqb c CR then
        (cur +:+ String LF EmptyString) :: readlines_go true EmptyString s'
      else readlines_go false (cur +:+ String c EmptyString) s'
  end.

Definition readlines (text : string) : list string :=
  readlines_go false EmptyString text.

End Py.

(** ** Binary64 division and fixed-point formatting

  [a / b] on Python integers is the quotient rounded to the nearest
  binary64 number, ties to even; [f"{x:.6f}"] is the decimal with six
  places nearest to the exact value of [x], ties to even. A finite
  positive binary64 value is kept as [mant * 2^(-expo)]. The sequence
  lengths of the scanner lie far inside the normal range, so neither
  overflow nor subnormal numbers are modelled. *)

Module Float.
Import Py.
Local Open Scope Z_scope.

Record dyadic := Dyadic { mant : Z; expo : Z }.

(** nearest integer to [n / d], ties to even, for [0 <= n], [0 < d] *)
Definition round_half_even (n d : Z) : Z :=
  let q := n / d in
  let r := n mod d in
  if 2 * r <? d then q
  else if d <? 2 * r then q + 1
  else if Z.even q then q else q + 1.

(** [a / b] for Python integers [0 <= a], [0 <= b]. The exponent is
    chosen so that the scaled quotient has 53 significant bits. *)
Definition truediv (a b : nat) : result dyadic :=
  let a := Z.of_nat a in
  let b := Z.of_nat b in
  if b =? 0 then Raise ZeroDivisionError
  else if a =? 0 then Ok (Dyadic 0 0)
  else
    let k := Z.log2 b - Z.log2 a in
    let e := if a * 2 ^ (52 + k) <? 2 ^ 52 * b then 53 + k else 52 + k in
    Ok (Dyadic (if 0 <=? e then round_half_even (a * 2 ^ e) b
                else round_half_even a (b * 2 ^ (- e)))
               e).

(** [f"{x:.6f}"] as the number of millionths that is printed. *)
Definition format_6f (x : dyadic) : Z :=
  if 0 <=? expo x then round_half_even (mant x * 10 ^ 6) (2 ^ expo x)
  else round_half_even (mant x * 2 ^ (- expo x) * 10 ^ 6) 1.

End Float.

(** ** checkforNs.py *)

Module Scanner.
Import Py.

(** A match object of [re.finditer]: [(m.start(), m.end())]. *)
Definition span : Type := nat * nat.

(** [re.finditer(r"N+", seq)]: the leftmost, longest, non-overlapping
    matches, found in one pass. [open] is the start of the match being
    extended, [pos] the index of the next character. *)
Definition close (open : option nat) (pos : nat) : list span :=
  match open with
  | Some st => [(st, pos)]
  | None => []
  end.

Fixpoint finditer_from (pos : nat) (open : option nat) (s : string) : list span :=
  match s with
  | EmptyString => close open pos
  | String c s' =>
      if Ascii.eqb c chN
      then finditer_from (S pos) (Some (default pos open)) s'
      else (close open pos ++ finditer_from (S pos) None s')
  end.

Definition finditer_Nplus (seq : string) : list span := finditer_from 0 None seq.

(** Truthiness of [name] in [if name:]. *)
Definition truthy (name : option string) : bool :=
  match name with
  | Some (String _ _) => true
  | _ => false
  end.

Definition yield_record (name : option string) (seq_lines : list string)
  : list (string * string) :=
  match name with
  | Some n => if truthy name then [(n, join seq_lines)] else []
  | None => []
  end.

Section Parser.
(** [str.upper]; the Unicode case table lies outside the program. *)
Variable upper : string → string.

(** [parse_fasta(fp)], a generator: the records it yields, and the
    exception that ends it early if there is one. *)
Fixpoint parse_lines (name : option string) (seq_lines : list string)
    (lines : list string) : list (string * string) * option exn :=
  match lines with
  | [] => (yield_record name seq_lines, None)
  | line :: rest =>
      let line := rstrip line in
      match line with
      | EmptyString => parse_lines name seq_lines rest
      | _ =>
          if startswith GT line then
            match index0 (split (tail1 line)) with
            | Ok name' =>
                let '(ys, e) := parse_lines (Some name') [] rest in
                ((yield_record name seq_lines ++ ys), e)
            | Exit _ => (yield_record name seq_lines, None)
            | Raise e => (yield_record name seq_lines, Some e)
            end
          else parse_lines name (seq_lines ++ [upper line]) rest
      end
  end.

Definition parse_fasta (text : string) : list (string * string) * option exn :=
  parse_lines None [] (readlines text).
End Parser.

(** One data row of the tabular report. [frac_N] is the printed number
    of millionths; [n_run_positions] holds the pairs [(s, e)] that are
    printed as ["s-e"]. *)
Record tsv_row := TsvRow {
  contig : string;
  contig_len : nat;
  total_Ns : nat;
  frac_N : Z;
  n_N_runs : nat;
  n_run_positions : list (nat * nat)
}.

(** One line of the interval report; the name column is
    [f"{name}_Nrun_{s}_{e}"], kept as its three parts. *)
Record bed_row := BedRow {
  chrom : string;
  bed_start : nat;
  bed_end : nat;
  bed_name : string * nat * nat;
  N_len : nat
}.

(** The body of the [for name, seq in parse_fasta(fh)] loop. *)
Definition scan_record (name seq : string)
  : result (option tsv_row * list bed_row) :=
  let seqlen := String.length seq in
  let total := count chN seq in
  if total =? 0 then Ok (None, [])
  else
    bind (Float.truediv total seqlen) (λ frac,
      let ms := finditer_Nplus seq in
      let runs := map (λ m : span, (m.1 + 1, m.2)) ms in
      let bed := map (λ m : span,
                   BedRow name m.1 m.2 (name, m.1 + 1, m.2) (m.2 - m.1)) ms in
      Ok (Some (TsvRow name seqlen total (Float.format_6f frac)
                  (List.length runs) runs), bed)).

(** The loop over the records: the rows written to the two reports and
    the exception that stopped the loop, if any. *)
Fixpoint scan_records (recs : list (string * string))
  : list tsv_row * list bed_row * option exn :=
  match recs with
  | [] => ([], [], None)
  | (name, seq) :: rest =>
      match scan_record name seq with
      | Ok (row, bed) =>
          let '(rows, beds, e) := scan_records rest in
          ((option_list row ++ rows), (bed ++ beds), e)
      | Exit _ => ([], [], None)
      | Raise e => ([], [], Some e)
      end
  end.

Definition main (upper : string → string) (text : string)
  : list tsv_row * list bed_row * option exn :=
  let '(recs, perr) := parse_fasta upper text in
  let '(rows, beds, serr) := scan_records recs in
  (rows, beds, match serr with Some e => Some e | None => perr end).

End Scanner.

(** ** reordercontigs.py *)

Module Reorder.
Import Py.

(** [seqs[cur_h] = ''.join(cur_seq_parts)] when [cur_h is not None]. *)
Definition flush (cur_h : option string) (cur_seq_parts : list string)
    (seqs : gmap string string) : gmap string string :=
  match cur_h with
  | Some h => <[h := join cur_seq_parts]> seqs
  | None => seqs
  end.

(** The loop of [parse_fasta(path)] over the lines of the file. *)
Fixpoint parse_lines (headers : list string) (seqs : gmap string string)
    (cur_h : option string) (cur_seq_parts : list string)
    (lines : list string) : list string * gmap string string :=
  match lines with
  | [] => (headers, flush cur_h cur_seq_parts seqs)
  | line :: rest =>
      let line := rstrip_by (Ascii.eqb LF) line in
      match line with
      | EmptyString => parse_lines headers seqs cur_h cur_seq_parts rest
      | _ =>
          if startswith GT line then
            let seqs := flush cur_h cur_seq_parts seqs in
            let cur_h := strip (tail1 line) in
            parse_lines (headers ++ [cur_h]) seqs (Some cur_h) [] rest
          else
            parse_lines headers seqs cur_h
              (cur_seq_parts ++ [strip line]) rest
      end
  end.

Definition parse_fasta (text : string) : list string * gmap string string :=
  parse_lines [] ∅ None [] (readlines text).

(** [wrap and wrap > 0] *)
Definition wrapping (wrap : Z) : bool :=
  negb (wrap =? 0)%Z && (0 <? wrap)%Z.

(** [write_seq(outfh, header, seq, wrap)]: the strings handed to
    [outfh.write], in order. *)
Definition write_seq (header seq : string) (wrap : Z) : list string :=
  (String GT header +:+ NL) ::
  (if wrapping wrap then
     map (λ i, slice i (Z.to_nat wrap) seq +:+ NL)
         (range0 (String.length seq) (Z.to_nat wrap))
   else [seq +:+ NL]).

(** [read_order_list(path)] *)
Fixpoint read_order_lines (order : list string) (lines : list string) : list string :=
  match lines with
  | [] => order
  | ln :: rest =>
      let s := strip ln in
      match s with
      | EmptyString => read_order_lines order rest
      | _ =>
          if startswith HASH s then read_order_lines order rest
          else
            let s := if startswith GT s then strip (tail1 s) else s in
            read_order_lines (order ++ [s]) rest
      end
  end.

Definition read_order_list (text : string) : list string :=
  read_order_lines [] (readlines text).

(** The loop that fills [name_to_headers]:
    [name_to_headers.setdefault(first, []).append(h)]. *)
Fixpoint build_index (name_to_headers : gmap string (list string))
    (headers : list string) : result (gmap string (list string)) :=
  match headers with
  | [] => Ok name_to_headers
  | h :: rest =>
      bind (index0 (split h)) (λ first,
        build_index
          (<[first := (default [] (name_to_headers !! first) ++ [h])]>
             name_to_headers)
          rest)
  end.

(** The state of the matching loop. *)
Record engine := Engine {
  ordered_headers : list string;
  used : gset string;
  not_found : list string
}.

(** [for ch in name_to_headers[entry]: if ch not in used: choice = ch; break] *)
Fixpoint pick_unused (used : gset string) (cands : list string) : option string :=
  match cands with
  | [] => None
  | ch :: rest => if decide (ch ∈ used) then pick_unused used rest else Some ch
  end.

Definition truthy (choice : option string) : bool :=
  match choice with
  | Some (String _ _) => true
  | _ => false
  end.

Definition take_header (st : engine) (h : string) : engine :=
  Engine (ordered_headers st ++ [h]) ({[h]} ∪ used st) (not_found st).

Definition miss (st : engine) (entry : string) : engine :=
  Engine (ordered_headers st) (used st) (not_found st ++ [entry]).

(** The body of [for entry in order_list]. *)
Definition match_entry (seqs : gmap string string)
    (name_to_headers : gmap string (list string))
    (st : engine) (entry : string) : engine :=
  if bool_decide (is_Some (seqs !! entry)) && bool_decide (entry ∉ used st)
  then take_header st entry
  else
    match name_to_headers !! entry with
    | Some cands =>
        let choice := pick_unused (used st) cands in
        match choice with
        | Some ch => if truthy choice then take_header st ch else miss st entry
        | None => miss st entry
        end
    | None => miss st entry
    end.

Definition match_all (seqs : gmap string string)
    (name_to_headers : gmap string (list string))
    (order_list : list string) : engine :=
  foldl (match_entry seqs name_to_headers) (Engine [] ∅ []) order_list.

(** [seqs[h]] *)
Definition getitem (seqs : gmap string string) (h : string) : result string :=
  match seqs !! h with
  | Some s => Ok s
  | None => Raise KeyError
  end.

(** The arguments of the successive [write_seq] calls. *)
Fixpoint fetch (seqs : gmap string string) (hs : list string)
  : result (list (string * string)) :=
  match hs with
  | [] => Ok []
  | h :: rest =>
      bind (getitem seqs h) (λ s,
        bind (fetch seqs rest) (λ rs, Ok ((h, s) :: rs)))
  end.

(** What a run leaves behind: the output file, the records written to
    it, and the figures of the summary. *)
Record report := Report {
  output : string;
  written : list (string * string);
  n_ordered : nat;
  appended : nat;
  unmatched : list string
}.

Definition render (wrap : Z) (recs : list (string * string)) : string :=
  join (List.concat (map (λ r : string * string, write_seq r.1 r.2 wrap) recs)).

(** [main()] from the parsed FASTA on, for a given order list. *)
Definition reorder (headers : list string) (seqs : gmap string string)
    (order_list : list string) (wrap : Z) : result report :=
  match headers with
  | [] => Exit 1
  | _ =>
      bind (build_index ∅ headers) (λ name_to_headers,
        let st := match_all seqs name_to_headers order_list in
        let rest := filter (λ h, h ∉ used st) headers in
        bind (fetch seqs (ordered_headers st)) (λ first,
          bind (fetch seqs rest) (λ last,
            Ok (Report (render wrap (first ++ last))
                       (first ++ last)
                       (List.length (ordered_headers st))
                       (List.length rest)
                       (not_found st)))))
  end.

(** The tool on the text of a FASTA file and an order list. *)
Definition run (fasta : string) (order_list : list string) (wrap : Z)
  : result report :=
  let '(headers, seqs) := parse_fasta fasta in
  reorder headers seqs order_list wrap.

(** The tool on the texts of its two input files. *)
Definition main (fasta order : string) (wrap : Z) : result report :=
  run fasta (read_order_list order) wrap.

End Reorder.

(** ** Vocabulary of the properties *)

Module ScannerSpec.
Import Py Scanner.

(** position [p] (0-based) of [s] holds the target character *)
Definition N_at (s : string) (p : nat) : Prop := String.get p s = Some chN.

(** position [p] lies inside the half-open span [r] *)
Definition covers (r : span) (p : nat) : Prop := r.1 ≤ p < r.2.

(** every span ends strictly before each later span starts *)
Fixpoint separated (rs : list span) : Prop :=
  match rs with
  | [] => True
  | r :: rs' => Forall (λ r' : span, r.2 < r'.1) rs' ∧ separated rs'
  end.

(** position [p] (0-based) lies inside the run [r] as the tabular report
    lists it: start counted from 1, end inclusive *)
Definition in_run (r : nat * nat) (p : nat) : Prop := r.1 ≤ p + 1 ≤ r.2.

(** the runs listed in the row of a record; a record without row lists
    none *)
Definition runs_of (row : option tsv_row) : list (nat * nat) :=
  match row with
  | Some r => n_run_positions r
  | None => []
  end.

(** the sum of the lengths of the spans *)
Definition total_length (rs : list span) : nat :=
  foldr (λ (r : span) acc, (r.2 - r.1) + acc) 0 rs.

(** a string of [k] target characters *)
Fixpoint Ns (k : nat) : string :=
  match k with
  | 0 => EmptyString
  | S k' => String chN (Ns k')
  end.

(** the sum of the lengths [e - s + 1] of runs given by their 1-based
    inclusive ends, as the tabular report lists them *)
Definition run_lengths (runs : list (nat * nat)) : nat :=
  foldr (λ (r : nat * nat) acc, (r.2 - r.1 + 1) + acc) 0 runs.

(** the sum of the [N_len] column over lines of the interval report *)
Definition bed_lengths (bed : list bed_row) : nat :=
  foldr (λ (l : bed_row) acc, N_len l + acc) 0 bed.

End ScannerSpec.

Module ReorderSpec.
Import Py Reorder.

(** lines of a wrapped sequence: each holds [w] characters, except the
    last, which holds between one and [w] *)
Fixpoint wrapped (w : nat) (lines : list string) : Prop :=
  match lines with
  | [] => True
  | [l] => 0 < String.length l ≤ w
  | l :: rest => String.length l = w ∧ wrapped w rest
  end.

(** the first whitespace-delimited token of a header, if it has one *)
Definition first_token (h : string) : option string := head (split h).

(** The matching policy in the words of the specification: an entry
    that is a full header not yet consumed resolves to that header;
    otherwise it resolves to the first header, in file order, whose first
    token is the entry and that is not yet consumed; otherwise it is not
    found. *)
Definition resolve (headers : list string) (consumed : gset string)
    (entry : string) : option string :=
  if bool_decide (entry ∈ headers ∧ entry ∉ consumed) then Some entry
  else head (filter (λ h, first_token h = Some entry ∧ h ∉ consumed) headers).

(** one order entry under the policy: the resolved header is appended to
    the ordered headers and marked consumed, an unresolved entry is
    recorded as not found *)
Definition step (headers : list string) (st : engine) (entry : string) : engine :=
  match resolve headers (used st) entry with
  | Some h => Engine (ordered_headers st ++ [h]) ({[h]} ∪ used st) (not_found st)
  | None => Engine (ordered_headers st) (used st) (not_found st ++ [entry])
  end.

(** The records of a FASTA text in the words of the specification
    (section 4.1), as a list in file order, to be compared with
    [parse_fasta]. A line that starts with the marker begins a record whose header is
    the remainder of the line, trimmed; the non-marker lines that follow,
    trimmed, are concatenated into its sequence until the next marker or
    the end of the input; blank lines are skipped, and so are lines
    before the first marker. [cur] is the record being read. *)
Definition flush_record (cur : option (string * list string))
  : list (string * string) :=
  match cur with
  | Some (h, parts) => [(h, join parts)]
  | None => []
  end.

Fixpoint records_go (cur : option (string * list string)) (lines : list string)
  : list (string * string) :=
  match lines with
  | [] => flush_record cur
  | line :: rest =>
      let line := rstrip_by (Ascii.eqb LF) line in
      match line with
      | EmptyString => records_go cur rest
      | _ =>
          if startswith GT line
          then flush_record cur ++ records_go (Some (strip (tail1 line), [])) rest
          else records_go
                 (match cur with
                  | Some (h, parts) => Some (h, parts ++ [strip line])
                  | None => None
                  end) rest
      end
  end.

Definition fasta_records (text : string) : list (string * string) :=
  records_go None (readlines text).

(** the mapping keyed by header that a list of records leaves behind:
    of two records with the same header the later one wins *)
Definition store (m : gmap string string) (recs : list (string * string))
  : gmap string string :=
  foldl (λ m (r : string * string), <[r.1 := r.2]> m) m recs.

(** the state of the policy after a whole order list *)
Definition final (headers order_list : list string) : engine :=
  foldl (step headers) (Engine [] ∅ []) order_list.

(** the order of the output: the resolved headers, then the headers not
    consumed, in file order *)
Definition output_order (headers order_list : list string) : list string :=
  ordered_headers (final headers order_list)
  ++ filter (λ h, h ∉ used (final headers order_list)) headers.

(** what holds of the state all along: the consumed set is the set of
    the resolved headers, which are input headers and pairwise distinct *)
Definition consistent (headers : list string) (st : engine) : Prop :=
  NoDup (ordered_headers st)
  ∧ (∀ h, h ∈ used st ↔ h ∈ ordered_headers st)
  ∧ (∀ h, h ∈ ordered_headers st → h ∈ headers).

(** the records a run has written; a run that stops before the output
    is opened has written none *)
Definition records_written (r : result report) : list (string * string) :=
  match r with
  | Ok rep => written rep
  | _ => []
  end.

(** the sequence lines of a record at a given width, without their line
    ends, and the lines of a whole record *)
Definition seq_lines (wrap : Z) (seq : string) : list string :=
  if wrapping wrap then
    map (λ i, slice i (Z.to_nat wrap) seq)
        (range0 (String.length seq) (Z.to_nat wrap))
  else [seq].

Definition record_lines (wrap : Z) (r : string * string) : list string :=
  String GT r.1 :: seq_lines wrap r.2.

(** a record that can be written and read back: the header is trimmed
    and holds no line end, the sequence holds neither a line end nor the
    record marker *)
Definition readable (r : string * string) : Prop :=
  no_eol r.1 = true ∧ strip r.1 = r.1 ∧ no_eol r.2 = true ∧ no_marker r.2 = true.

End ReorderSpec.

(** ** Inputs used as examples *)

Module Examples.
Import Py Scanner.

(** The first example of the specification: [c1] has one run "5-7" of
    three among nine characters, [c2] is one run "1-4". *)
Definition example_fasta : string :=
  ">c1" +:+ NL +:+ "ACGTNNNAC" +:+ NL +:+ ">c2" +:+ NL +:+ "NNNN".

Definition example_row_c1 : tsv_row := TsvRow "c1" 9 3 333333 1 [(5, 7)].
Definition example_row_c2 : tsv_row := TsvRow "c2" 4 4 1000000 1 [(1, 4)].

(** A marker line without identifier between two records. *)
Definition bare_marker_fasta : string :=
  ">c1" +:+ NL +:+ "ACGTNNNAC" +:+ NL +:+ "> " +:+ NL +:+ "NNNN" +:+ NL.

(** The second example of the specification: headers [c1, c2, c3]. *)
Definition three_contigs : string :=
  ">c1" +:+ NL +:+ "ACGT" +:+ NL +:+ ">c2 second" +:+ NL +:+ "GGNN" +:+ NL
  +:+ "TT" +:+ NL +:+ ">c3" +:+ NL +:+ "CA" +:+ NL.

Definition three_headers : list string := ["c1"; "c2 second"; "c3"].

Definition three_seqs : gmap string string :=
  <["c3" := "CA"]> (<["c2 second" := "GGNNTT"]> (<["c1" := "ACGT"]> ∅)).

Definition three_index : gmap string (list string) :=
  <["c3" := ["c3"]]> (<["c2" := ["c2 second"]]> (<["c1" := ["c1"]]> ∅)).

(** A record whose marker line carries no header. *)
Definition empty_header_fasta : string := ">" +:+ NL +:+ "ACGT" +:+ NL.

(** Two records under one header. *)
Definition twice_a_fasta : string :=
  ">a" +:+ NL +:+ "AC" +:+ NL +:+ ">a" +:+ NL +:+ "GT" +:+ NL.

(** The records of [three_contigs] in the order asked for by the order
    list [c2, c1], and what that run leaves behind at width 4. *)
Definition three_reordered : list (string * string) :=
  [("c2 second", "GGNNTT"); ("c1", "ACGT"); ("c3", "CA")].

Definition three_report : Reorder.report :=
  Reorder.Report (Reorder.render 4 three_reordered) three_reordered 2 1 [].

(** A sequence line that turns into a marker line once it is trimmed. *)
Definition marker_in_sequence_fasta : string :=
  ">a" +:+ NL +:+ " >b" +:+ NL +:+ ">c" +:+ NL.

(** A sequence line with a blank inside. *)
Definition spaced_sequence_fasta : string := ">a" +:+ NL +:+ "A C" +:+ NL.

End Examples.

(** ** Further vocabulary *)

Module ExtraSpec.
Import Py Scanner Reorder ScannerSpec ReorderSpec.

(** [s] holds no whitespace *)
Definition no_space (s : string) : bool := sforall (λ c, negb (isspace c)) s.

(** a line of the scanner's input that is a marker without identifier:
    trimmed on the right it starts with '>' and only whitespace follows *)
Definition bare_marker (line : string) : bool :=
  match rstrip line with
  | String c r => Ascii.eqb c GT && all_space r
  | EmptyString => false
  end.

(** a line of the scanner's input that is a marker line *)
Definition marker_line (line : string) : bool := startswith GT (rstrip line).

(** the record has at least one target character *)
Definition has_N (r : string * string) : Prop := count chN r.2 ≠ 0.

(** the text of a file with the given lines, each ended by a line end *)
Definition text_of_lines (bodies : list string) : string :=
  join (map (λ b, b +:+ NL) bodies).

(** an order entry as one writes it on a line of its own: not empty,
    trimmed, without line end, and starting neither with '#' nor '>' *)
Definition plain_entry (e : string) : Prop :=
  e ≠ EmptyString ∧ strip e = e ∧ no_eol e = true
  ∧ startswith HASH e = false ∧ startswith GT e = false.

(** a line that the reader of the order list passes over: blank, or a
    comment *)
Definition skipped_line (c : string) : Prop :=
  strip c = EmptyString ∨ startswith HASH (strip c) = true.

(** the sequence of the last record under header [h], if there is one *)
Definition last_sequence (h : string) (recs : list (string * string))
  : option string :=
  last (map snd (filter (λ r : string * string, r.1 = h) recs)).

(** a line of the reorder tool's FASTA input that is a marker line *)
Definition header_line (line : string) : bool :=
  startswith GT (rstrip_by (Ascii.eqb LF) line).

(** the name of a record: the first token of its header *)
Definition name_of (h : string) : string := default EmptyString (first_token h).

End ExtraSpec.

(** ** checkforNs.py, the text of the two reports *)

Module ScannerText.
Import Py Scanner.

Definition TAB : ascii := ascii_of_nat 9.
Definition tab : string := String TAB EmptyString.

(** [f"{n}"] for an integer that is not negative *)
Definition str_nat (n : nat) : string := pretty n.

(** [sep.join(parts)] *)
Fixpoint join_with (sep : string) (parts : list string) : string :=
  match parts with
  | [] => EmptyString
  | [x] => x
  | x :: rest => x +:+ sep +:+ join_with sep rest
  end.

(** [f"{frac:.6f}"], from the number of millionths that is printed: the
    integer part, the point, and six decimals *)
Definition decimal (u : Z) (k : Z) : string :=
  String (pretty_N_char (Z.to_N ((u / 10 ^ k) mod 10))) EmptyString.

Definition str_6f (u : Z) : string :=
  pretty (Z.to_N (u / 10 ^ 6)) +:+ "."
  +:+ decimal u 5 +:+ decimal u 4 +:+ decimal u 3
  +:+ decimal u 2 +:+ decimal u 1 +:+ decimal u 0.

(** the first lines of the two reports, without their line ends *)
Definition tsv_head : string :=
  "contig" +:+ tab +:+ "contig_len" +:+ tab +:+ "total_Ns" +:+ tab
  +:+ "frac_N" +:+ tab +:+ "n_N_runs" +:+ tab +:+ "n_run_positions".

Definition bed_head : string :=
  "#chrom" +:+ tab +:+ "start" +:+ tab +:+ "end" +:+ tab +:+ "name"
  +:+ tab +:+ "N_len".

(** [f"{s}-{e}"] *)
Definition str_run (r : nat * nat) : string := str_nat r.1 +:+ "-" +:+ str_nat r.2.

(** the data row of the tabular report, without its line end:
    [f"{name}\t{seqlen}\t{total_Ns}\t{frac:.6f}\t{len(runs)}\t{';'.join(runs)}"] *)
Definition tsv_body (row : tsv_row) : string :=
  contig row +:+ tab +:+ str_nat (contig_len row) +:+ tab
  +:+ str_nat (total_Ns row) +:+ tab +:+ str_6f (frac_N row) +:+ tab
  +:+ str_nat (n_N_runs row) +:+ tab
  +:+ join_with ";" (map str_run (n_run_positions row)).

(** [f"{name}_Nrun_{s}_{e}"] *)
Definition str_name (n : string * nat * nat) : string :=
  n.1.1 +:+ "_Nrun_" +:+ str_nat n.1.2 +:+ "_" +:+ str_nat n.2.

(** the line of the interval report, without its line end *)
Definition bed_body (b : bed_row) : string :=
  chrom b +:+ tab +:+ str_nat (bed_start b) +:+ tab +:+ str_nat (bed_end b)
  +:+ tab +:+ str_name (bed_name b) +:+ tab +:+ str_nat (N_len b).

(** what the [write] calls leave in the two files *)
Definition tsv_text (rows : list tsv_row) : string :=
  join (map (λ b, b +:+ NL) (tsv_head :: map tsv_body rows)).

Definition bed_text (beds : list bed_row) : string :=
  join (map (λ b, b +:+ NL) (bed_head :: map bed_body beds)).

(** the scanner on the text of a FASTA: the texts of the two reports
    and the exception that ended the run, if any *)
Definition reports (upper : string → string) (text : string)
  : string * string * option exn :=
  let '(rows, beds, e) := main upper text in
  (tsv_text rows, bed_text beds, e).

End ScannerText.

(** * Properties *)

(** ** Strings *)

Module PyFacts.
Import Py.

Lemma append_cons c (s t : string) : String c s +:+ t = String c (s +:+ t).
Proof. reflexivity. Qed.

Lemma append_nil_l (t : string) : EmptyString +:+ t = t.
Proof. reflexivity. Qed.

Lemma append_nil_r (s : string) : s +:+ EmptyString = s.
Proof. induction s as [|c s IH]; [done|]. by rewrite append_cons, IH. Qed.

Lemma append_assoc (s t u : string) : (s +:+ t) +:+ u = s +:+ (t +:+ u).
Proof. induction s as [|c s IH]; [done|]. by rewrite !append_cons, IH. Qed.

Lemma length_append (s t : string) :
  String.length (s +:+ t) = String.length s + String.length t.
Proof.
  induction s as [|c s IH]; [done|]. rewrite append_cons. simpl. by rewrite IH.
Qed.

Lemma substring_stake_sdrop (s : string) :
  ∀ i w, String.substring i w s = stake w (sdrop i s).
Proof.
  induction s as [|c s IH]; intros i w.
  - destruct i, w; reflexivity.
  - destruct i as [|i]; simpl.
    + destruct w as [|w]; simpl; [done|]. f_equal. apply (IH 0 w).
    + apply IH.
Qed.

Lemma stake_sdrop (s : string) : ∀ n, stake n s +:+ sdrop n s = s.
Proof.
  induction s as [|c s IH]; intros [|n]; simpl; try done.
  by rewrite append_cons, IH.
Qed.

Lemma stake_all (s : string) : ∀ n, String.length s ≤ n → stake n s = s.
Proof.
  induction s as [|c s IH]; intros [|n] Hn; cbn in *; try done; [lia|].
  f_equal. apply IH. lia.
Qed.

Lemma length_stake (s : string) :
  ∀ n, String.length (stake n s) = n `min` String.length s.
Proof.
  induction s as [|c s IH]; intros [|n]; cbn; try done. by f_equal.
Qed.

Lemma length_sdrop (s : string) :
  ∀ n, String.length (sdrop n s) = String.length s - n.
Proof.
  induction s as [|c s IH]; intros [|n]; simpl; try done.
Qed.

Lemma sdrop_all (s : string) : ∀ n, String.length s ≤ n → sdrop n s = EmptyString.
Proof.
  induction s as [|c s IH]; intros [|n] Hn; simpl in *; try done; [lia|].
  apply IH. lia.
Qed.

Lemma sdrop_add (s : string) : ∀ i w, sdrop (i + w) s = sdrop w (sdrop i s).
Proof.
  induction s as [|c s IH]; intros i w.
  - destruct i, w; reflexivity.
  - destruct i as [|i]; simpl; [done|]. apply IH.
Qed.

Lemma join_cons (l : string) (ls : list string) : join (l :: ls) = l +:+ join ls.
Proof. reflexivity. Qed.

Lemma join_app (xs ys : list string) : join (xs ++ ys) = join xs +:+ join ys.
Proof.
  induction xs as [|x xs IH]; [done|].
  change ((x :: xs) ++ ys) with (x :: (xs ++ ys)).
  by rewrite !join_cons, IH, append_assoc.
Qed.

Lemma sforall_impl (q1 q2 : ascii → bool) (s : string) :
  (∀ c, q1 c = true → q2 c = true) → sforall q1 s = true → sforall q2 s = true.
Proof.
  intros Hq. induction s as [|c s IH]; simpl; [done|].
  intros [Hc Hs]%andb_true_iff. by rewrite (Hq c Hc), IH.
Qed.

Lemma sforall_append q (s t : string) :
  sforall q (s +:+ t) = sforall q s && sforall q t.
Proof.
  induction s as [|c s IH]; [done|]. rewrite append_cons. simpl.
  by rewrite IH, andb_assoc.
Qed.

Lemma sforall_lstrip q p (s : string) :
  sforall q s = true → sforall q (lstrip_by p s) = true.
Proof.
  induction s as [|c s IH]; simpl; [done|].
  intros [Hc Hs]%andb_true_iff. destruct (p c); [by apply IH|].
  simpl. by rewrite Hc, Hs.
Qed.

Lemma sforall_rstrip q p (s : string) :
  sforall q s = true → sforall q (rstrip_by p s) = true.
Proof.
  induction s as [|c s IH]; simpl; [done|].
  intros [Hc Hs]%andb_true_iff. specialize (IH Hs).
  destruct (rstrip_by p s) as [|c' r].
  - destruct (p c); simpl; [done|]. by rewrite Hc.
  - simpl in *. by rewrite Hc, IH.
Qed.

Lemma sforall_strip q (s : string) :
  sforall q s = true → sforall q (strip s) = true.
Proof. intros H. unfold strip. by apply sforall_lstrip, sforall_rstrip. Qed.

Lemma sforall_tail1 q (s : string) :
  sforall q s = true → sforall q (tail1 s) = true.
Proof. destruct s; simpl; [done|]. by intros [_ ?]%andb_true_iff. Qed.

Lemma sforall_stake q (s : string) :
  ∀ n, sforall q s = true → sforall q (stake n s) = true.
Proof.
  induction s as [|c s IH]; intros [|n]; simpl; try done.
  intros [Hc Hs]%andb_true_iff. by rewrite Hc, IH.
Qed.

Lemma sforall_sdrop q (s : string) :
  ∀ n, sforall q s = true → sforall q (sdrop n s) = true.
Proof.
  induction s as [|c s IH]; intros [|n]; simpl; try done.
  intros [Hc Hs]%andb_true_iff. by apply IH.
Qed.

Lemma sforall_slice q (s : string) i w :
  sforall q s = true → sforall q (slice i w s) = true.
Proof.
  intros H. unfold slice. rewrite substring_stake_sdrop.
  by apply sforall_stake, sforall_sdrop.
Qed.

Lemma sforall_join q (parts : list string) :
  Forall (λ s, sforall q s = true) parts → sforall q (join parts) = true.
Proof.
  induction 1 as [|x xs Hx _ IH]; [done|].
  by rewrite join_cons, sforall_append, Hx, IH.
Qed.

(** *** Stripping *)

Lemma rstrip_by_snoc p (s : string) c :
  p c = true → rstrip_by p (s +:+ String c EmptyString) = rstrip_by p s.
Proof.
  intros Hc. induction s as [|a s IH].
  - rewrite append_nil_l. simpl. by rewrite Hc.
  - rewrite append_cons. simpl. by rewrite IH.
Qed.

Lemma rstrip_by_id p (s : string) :
  sforall (λ c, negb (p c)) s = true → rstrip_by p s = s.
Proof.
  induction s as [|c s IH]; simpl; [done|].
  intros [Hc Hs]%andb_true_iff. rewrite (IH Hs).
  destruct s; [|done]. by apply negb_true_iff in Hc as ->.
Qed.

Lemma rstrip_by_idemp p (s : string) :
  rstrip_by p (rstrip_by p s) = rstrip_by p s.
Proof.
  induction s as [|c s IH]; simpl; [done|].
  destruct (rstrip_by p s) as [|c' r] eqn:Hr.
  - destruct (p c) eqn:Hc; simpl; [done|]. by rewrite Hc.
  - change (rstrip_by p (String c (String c' r)))
      with (match rstrip_by p (String c' r) with
            | EmptyString => if p c then EmptyString else String c EmptyString
            | r0 => String c r0
            end).
    by rewrite IH.
Qed.

Lemma rstrip_lstrip p (s : string) :
  rstrip_by p s = s → rstrip_by p (lstrip_by p s) = lstrip_by p s.
Proof.
  induction s as [|c s IH]; simpl; [done|].
  destruct (p c) eqn:Hc.
  - destruct (rstrip_by p s) as [|c' r] eqn:Hr.
    + intros [=].
    + intros [= <-]. by apply IH.
  - intros H. simpl. rewrite Hc. exact H.
Qed.

Lemma lstrip_by_idemp p (s : string) :
  lstrip_by p (lstrip_by p s) = lstrip_by p s.
Proof.
  induction s as [|c s IH]; simpl; [done|].
  destruct (p c) eqn:Hc; [done|]. simpl. by rewrite Hc.
Qed.

Lemma strip_idemp (s : string) : strip (strip s) = strip s.
Proof.
  unfold strip.
  rewrite (rstrip_lstrip isspace (rstrip_by isspace s)) by apply rstrip_by_idemp.
  apply lstrip_by_idemp.
Qed.

(** *** Lines *)

Lemma readlines_go_line (b : string) :
  ∀ cur rest, no_eol b = true →
    readlines_go false cur (b +:+ String LF rest)
    = (cur +:+ b +:+ NL) :: readlines_go false EmptyString rest.
Proof.
  induction b as [|c b IH]; intros cur rest Hb.
  - rewrite append_nil_l. simpl. by rewrite append_nil_l.
  - simpl in Hb. apply andb_true_iff in Hb as [Hc Hb].
    apply negb_true_iff, orb_false_iff in Hc as [Hlf Hcr].
    rewrite append_cons. simpl. rewrite Hlf, Hcr, IH by done.
    by rewrite !append_assoc.
Qed.

Lemma readlines_join (bodies : list string) :
  Forall (λ b, no_eol b = true) bodies →
  readlines (join (map (λ b, b +:+ NL) bodies)) = map (λ b, b +:+ NL) bodies.
Proof.
  unfold readlines. induction 1 as [|b bs Hb _ IH]; [done|].
  simpl. rewrite join_cons. unfold NL at 1. rewrite append_assoc, append_cons.
  rewrite append_nil_l, readlines_go_line by done.
  rewrite append_nil_l. by rewrite IH.
Qed.

Lemma rstrip_line_end (b : string) :
  no_eol b = true → rstrip_by (Ascii.eqb LF) (b +:+ NL) = b.
Proof.
  intros Hb. unfold NL. rewrite rstrip_by_snoc by done.
  apply rstrip_by_id. revert Hb. apply sforall_impl. intros c Hc.
  apply negb_true_iff, orb_false_iff in Hc as [Hlf _].
  by rewrite Ascii.eqb_sym, Hlf.
Qed.

Lemma readlines_go_clean (s : string) :
  ∀ cr cur, no_eol cur = true →
    Forall (λ l, no_eol (rstrip_by (Ascii.eqb LF) l) = true) (readlines_go cr cur s).
Proof.
  assert (Hend : ∀ cur, no_eol cur = true →
            no_eol (rstrip_by (Ascii.eqb LF) (cur +:+ String LF EmptyString)) = true).
  { intros cur Hcur. rewrite rstrip_by_snoc by done. by apply sforall_rstrip. }
  induction s as [|c s IH]; intros cr cur Hcur; simpl.
  - destruct cur; [done|]. constructor; [|done]. by apply sforall_rstrip.
  - destruct (Ascii.eqb c LF) eqn:Hlf.
    + destruct cr; [by apply IH|]. constructor; [by apply Hend|by apply IH].
    + destruct (Ascii.eqb c CR) eqn:Hcr.
      * constructor; [by apply Hend|by apply IH].
      * apply IH. unfold no_eol. rewrite sforall_append. simpl.
        fold (no_eol cur). by rewrite Hcur, Hlf, Hcr.
Qed.

Lemma no_eol_marker (h : string) :
  no_eol h = true → no_eol (String GT h) = true.
Proof. unfold no_eol. simpl. by intros ->. Qed.

Lemma no_marker_startswith (s : string) :
  no_marker s = true → startswith GT s = false.
Proof.
  destruct s as [|c s]; simpl; [done|].
  intros [Hc _]%andb_true_iff. by apply negb_true_iff in Hc.
Qed.

End PyFacts.

(** ** The N-run scanner *)

Module ScannerProofs.
Import Py Scanner ScannerSpec Examples.

Lemma get_cons_pos c s p q :
  q < p → String.get (p - q) (String c s) = String.get (p - S q) s.
Proof.
  intros Hlt. replace (p - q) with (S (p - S q)) by lia. reflexivity.
Qed.

Lemma N_at_nil p : ¬ N_at EmptyString p.
Proof. unfold N_at. destruct p; discriminate. Qed.

Lemma finditer_from_inv s :
  ∀ pos o, (∀ st, o = Some st → st < pos) →
    Forall (λ r : span, default pos o ≤ r.1 ∧ r.1 < r.2
                        ∧ r.2 ≤ pos + String.length s)
           (finditer_from pos o s)
    ∧ separated (finditer_from pos o s)
    ∧ ∀ p, Exists (λ r, covers r p) (finditer_from pos o s)
           ↔ (default pos o ≤ p < pos) ∨ (pos ≤ p ∧ N_at s (p - pos)).
Proof.
  induction s as [|c s IH]; intros pos o Ho; simpl.
  - destruct o as [st|]; simpl.
    + specialize (Ho st eq_refl). split; [|split].
      * repeat constructor; simpl; lia.
      * split; constructor.
      * intros p. rewrite Exists_cons, Exists_nil. unfold covers. simpl.
        split; [intros [Hp|[]]; by left|].
        intros [Hp|[_ Hp]]; [by left|by apply N_at_nil in Hp].
    + split; [|split]; [constructor|constructor|].
      intros p. rewrite Exists_nil.
      split; [done|]. intros [Hp|[_ Hp]]; [lia|by apply N_at_nil in Hp].
  - destruct (Ascii.eqb_spec c chN) as [->|Hc].
    + assert (Hlo : default pos o ≤ pos).
      { destruct o as [st|]; simpl; [specialize (Ho st eq_refl)|]; lia. }
      destruct (IH (S pos) (Some (default pos o))) as (Hb & Hs & Hcov).
      { intros st [= <-]. lia. }
      simpl in Hb, Hcov. split; [|split]; [|exact Hs|].
      * eapply Forall_impl; [exact Hb|]. simpl. intros r ?. lia.
      * intros p. rewrite Hcov. unfold N_at.
        destruct (decide (p = pos)) as [->|Hne].
        -- rewrite Nat.sub_diag. simpl. split; intros _; [right|left]; [|lia].
           split; [lia|reflexivity].
        -- split; intros [Hp|[Hp Hn]].
           ++ left. lia.
           ++ right. split; [lia|]. rewrite get_cons_pos by lia. exact Hn.
           ++ left. lia.
           ++ right. split; [lia|]. rewrite get_cons_pos in Hn by lia. exact Hn.
    + destruct (IH (S pos) None) as (Hb & Hs & Hcov); [discriminate|].
      simpl in Hb.
      assert (HnotN : ∀ p, pos ≤ p → N_at (String c s) (p - pos)
                           ↔ S pos ≤ p ∧ N_at s (p - S pos)).
      { intros p Hp. unfold N_at. destruct (decide (p = pos)) as [->|Hne].
        - rewrite Nat.sub_diag. simpl. split; [intros [= ->]; done|lia].
        - rewrite get_cons_pos by lia. split; [intros; split; [lia|done]|tauto]. }
      assert (Hcov' : ∀ p, Exists (λ r, covers r p) (finditer_from (S pos) None s)
                           ↔ pos ≤ p ∧ N_at (String c s) (p - pos)).
      { intros p. rewrite Hcov. simpl. split.
        - intros [Hp|[Hp Hn]]; [lia|]. split; [lia|]. apply HnotN; [lia|done].
        - intros [Hp Hn]. right. by apply HnotN. }
      clear Hcov HnotN.
      destruct o as [st|]; simpl.
      * specialize (Ho st eq_refl). split; [|split].
        -- constructor; [simpl; lia|].
           eapply Forall_impl; [exact Hb|]. simpl. intros r ?. lia.
        -- split; [|exact Hs].
           eapply Forall_impl; [exact Hb|]. simpl. intros r ?. lia.
        -- intros p. rewrite Exists_cons, Hcov'. unfold covers at 1. simpl.
           reflexivity.
      * split; [|split]; [|exact Hs|].
        -- eapply Forall_impl; [exact Hb|]. simpl. intros r ?. lia.
        -- intros p. rewrite Hcov'. split; [by right|]. intros [Hp|Hp]; [lia|done].
Qed.

(** The scan is the leftmost-longest matching of [N+]: a character other
    than 'N' is passed over, and a maximal block of [k] 'N's gives one
    match of length [k], after which the scan goes on behind it. *)
Lemma finditer_from_open (k : nat) :
  ∀ pos st rest, startswith chN rest = false →
    finditer_from pos (Some st) (Ns k +:+ rest)
    = (st, pos + k) :: finditer_from (pos + k) None rest.
Proof.
  induction k as [|k IH]; intros pos st rest Hrest; simpl.
  - rewrite Nat.add_0_r. destruct rest as [|c r]; [done|].
    simpl in *. by rewrite Hrest.
  - rewrite IH by done. by rewrite Nat.add_succ_r.
Qed.

Lemma finditer_leftmost_longest (k pos : nat) (c : ascii) (rest : string) :
  startswith chN rest = false →
  (Ascii.eqb c chN = false →
     finditer_from pos None (String c rest) = finditer_from (S pos) None rest)
  ∧ finditer_from pos None (Ns (S k) +:+ rest)
    = (pos, pos + S k) :: finditer_from (pos + S k) None rest.
Proof.
  intros Hrest. split.
  - intros Hc. simpl. by rewrite Hc.
  - simpl. rewrite finditer_from_open by done. by rewrite Nat.add_succ_r.
Qed.

Lemma separated_lookup (rs : list span) :
  separated rs → ∀ i j r1 r2,
    rs !! i = Some r1 → rs !! j = Some r2 → i < j → r1.2 < r2.1.
Proof.
  induction rs as [|r rs IH]; intros Hsep i j r1 r2 Hi Hj Hlt.
  - discriminate.
  - destruct Hsep as [Hall Hsep]. destruct j as [|j]; [lia|].
    destruct i as [|i]; simpl in Hi, Hj.
    + injection Hi as <-. rewrite Forall_forall in Hall.
      apply Hall. by eapply list_elem_of_lookup_2.
    + eapply IH; eauto. lia.
Qed.

Lemma finditer_Nplus_inv (s : string) :
  Forall (λ r : span, r.1 < r.2 ∧ r.2 ≤ String.length s) (finditer_Nplus s)
  ∧ separated (finditer_Nplus s)
  ∧ ∀ p, Exists (λ r, covers r p) (finditer_Nplus s) ↔ N_at s p.
Proof.
  destruct (finditer_from_inv s 0 None) as (Hb & Hs & Hcov); [discriminate|].
  split; [|split]; [|exact Hs|].
  - eapply Forall_impl; [exact Hb|]. simpl. intros r ?. lia.
  - intros p. unfold finditer_Nplus. rewrite Hcov. simpl.
    rewrite Nat.sub_0_r. split; [intros [?|[_ ?]]; [lia|done]|].
    intros ?. right. split; [lia|done].
Qed.

(** The spans matched by the scan cover exactly the positions that hold
    'N': a position inside a span holds 'N'; a position that holds 'N'
    lies in a span, and in only one (one index of the list); of two spans
    the earlier one in the list starts first and ends strictly before the
    later one starts; every span is non-empty and lies within the
    sequence. *)
Lemma finditer_Nplus_cover (s : string) :
  (∀ r p, r ∈ finditer_Nplus s → covers r p → N_at s p)
  ∧ (∀ p, N_at s p →
       ∃ i r, finditer_Nplus s !! i = Some r ∧ covers r p
              ∧ ∀ j r', finditer_Nplus s !! j = Some r' → covers r' p → j = i)
  ∧ (∀ i j r1 r2,
       finditer_Nplus s !! i = Some r1 → finditer_Nplus s !! j = Some r2 →
       i < j → r1.1 < r2.1 ∧ r1.2 < r2.1)
  ∧ (∀ r, r ∈ finditer_Nplus s → r.1 < r.2 ≤ String.length s).
Proof.
  destruct (finditer_Nplus_inv s) as (Hb & Hs & Hcov).
  rewrite Forall_forall in Hb.
  assert (Hord : ∀ i j r1 r2,
    finditer_Nplus s !! i = Some r1 → finditer_Nplus s !! j = Some r2 →
    i < j → r1.1 < r2.1 ∧ r1.2 < r2.1).
  { intros i j r1 r2 Hi Hj Hlt.
    pose proof (separated_lookup _ Hs i j r1 r2 Hi Hj Hlt).
    apply list_elem_of_lookup_2, Hb in Hi. lia. }
  split; [|split; [|split]].
  - intros r p Hr Hc. apply Hcov, Exists_exists. eauto.
  - intros p Hp. apply Hcov, Exists_exists in Hp as (r & Hr & Hc).
    apply list_elem_of_lookup_1 in Hr as [i Hi].
    exists i, r. split; [done|]. split; [done|].
    intros j r' Hj Hc'. unfold covers in *.
    destruct (Nat.lt_trichotomy i j) as [Hlt|[->|Hlt]]; [|done|].
    + pose proof (Hord i j r r' Hi Hj Hlt). lia.
    + pose proof (Hord j i r' r Hj Hi Hlt). lia.
  - exact Hord.
  - intros r Hr. apply Hb in Hr. lia.
Qed.

(** *** Counting *)

Lemma total_length_app (xs ys : list span) :
  total_length (xs ++ ys) = total_length xs + total_length ys.
Proof.
  unfold total_length. induction xs as [|x xs IH]; simpl; [done|].
  rewrite IH. lia.
Qed.

Lemma total_length_finditer_from s :
  ∀ pos o, (∀ st, o = Some st → st < pos) →
    total_length (finditer_from pos o s) = (pos - default pos o) + count chN s.
Proof.
  induction s as [|c s IH]; intros pos o Ho; simpl.
  - destruct o as [st|]; simpl; lia.
  - assert (Hlo : default pos o ≤ pos).
    { destruct o as [st|]; simpl; [specialize (Ho st eq_refl)|]; lia. }
    destruct (Ascii.eqb c chN).
    + rewrite IH by (intros st [= <-]; lia). simpl. lia.
    + rewrite total_length_app, IH by discriminate.
      destruct o as [st|]; simpl; lia.
Qed.

Lemma count_is_total_length (s : string) :
  count chN s = total_length (finditer_Nplus s).
Proof.
  unfold finditer_Nplus. rewrite total_length_finditer_from by discriminate.
  simpl. lia.
Qed.

Lemma count_le_length c (s : string) : count c s ≤ String.length s.
Proof. induction s as [|a s IH]; simpl; [lia|]. destruct (Ascii.eqb a c); lia. Qed.

(** *** Rounding *)

Lemma round_half_even_bound (n d : Z) :
  (0 < d)%Z → (Z.abs (2 * (Float.round_half_even n d * d - n)) ≤ d)%Z.
Proof.
  intros Hd. unfold Float.round_half_even.
  pose proof (Z.div_mod n d ltac:(lia)) as Hdm.
  pose proof (Z.mod_pos_bound n d Hd) as Hr.
  destruct (Z.ltb_spec (2 * (n mod d)) d);
    [|destruct (Z.ltb_spec d (2 * (n mod d))); [|destruct (Z.even (n / d))]];
    nia.
Qed.

Lemma truediv_ok (a b : nat) :
  0 < a ≤ b →
  ∃ x, Float.truediv a b = Ok x
       ∧ (52 ≤ Float.expo x)%Z
       ∧ (Z.abs (2 * (Float.mant x * Z.of_nat b
                      - Z.of_nat a * 2 ^ Float.expo x)) ≤ Z.of_nat b)%Z.
Proof.
  intros Hab. unfold Float.truediv.
  destruct (Z.eqb_spec (Z.of_nat b) 0) as [Hb0|_]; [lia|].
  destruct (Z.eqb_spec (Z.of_nat a) 0) as [Ha0|_]; [lia|].
  set (k := (Z.log2 (Z.of_nat b) - Z.log2 (Z.of_nat a))%Z).
  assert (Hk : (0 ≤ k)%Z).
  { pose proof (Z.log2_le_mono (Z.of_nat a) (Z.of_nat b) ltac:(lia)). lia. }
  set (e := if (Z.of_nat a * 2 ^ (52 + k) <? 2 ^ 52 * Z.of_nat b)%Z
            then (53 + k)%Z else (52 + k)%Z).
  assert (He : (52 ≤ e)%Z) by (subst e; destruct (_ <? _)%Z; lia).
  eexists. split; [reflexivity|]. simpl.
  destruct (Z.leb_spec 0 e); [|lia].
  split; [done|]. apply round_half_even_bound. lia.
Qed.

Lemma format_6f_bound (a b : nat) x :
  0 < a ≤ b → Float.truediv a b = Ok x →
  (Z.abs (Float.format_6f x * Z.of_nat b - 10 ^ 6 * Z.of_nat a) < Z.of_nat b)%Z.
Proof.
  intros Hab Hx. destruct (truediv_ok a b Hab) as (x' & Hx' & He & Hm).
  rewrite Hx in Hx'. injection Hx' as <-.
  unfold Float.format_6f. destruct (Z.leb_spec 0 (Float.expo x)); [|lia].
  assert (Hp : (2 ^ 52 ≤ 2 ^ Float.expo x)%Z)
    by (apply Z.pow_le_mono_r; lia).
  pose proof (round_half_even_bound (Float.mant x * 10 ^ 6) (2 ^ Float.expo x)
                ltac:(lia)) as Hu.
  set (u := Float.round_half_even (Float.mant x * 10 ^ 6) (2 ^ Float.expo x)) in *.
  set (m := Float.mant x) in *. set (P := (2 ^ Float.expo x)%Z) in *.
  change (2 ^ 52)%Z with 4503599627370496%Z in Hp.
  change (10 ^ 6)%Z with 1000000%Z in *.
  nia.
Qed.

(** *** The loop body *)

Lemma scan_record_skip name seq :
  count chN seq = 0 → scan_record name seq = Ok (None, []).
Proof. intros H. unfold scan_record. by rewrite H. Qed.

Lemma scan_record_row name seq :
  0 < count chN seq →
  ∃ x, Float.truediv (count chN seq) (String.length seq) = Ok x
       ∧ scan_record name seq =
         Ok (Some (TsvRow name (String.length seq) (count chN seq)
                     (Float.format_6f x)
                     (List.length (finditer_Nplus seq))
                     (map (λ m : span, (m.1 + 1, m.2)) (finditer_Nplus seq))),
             map (λ m : span, BedRow name m.1 m.2 (name, m.1 + 1, m.2) (m.2 - m.1))
                 (finditer_Nplus seq)).
Proof.
  intros Hpos. pose proof (count_le_length chN seq) as Hle.
  destruct (truediv_ok (count chN seq) (String.length seq)) as (x & Hx & _);
    [lia|].
  exists x. split; [done|]. unfold scan_record.
  destruct (Nat.eqb_spec (count chN seq) 0) as [H0|_]; [lia|].
  rewrite Hx. simpl. by rewrite length_map.
Qed.

Lemma scan_record_never_raises name seq e : scan_record name seq ≠ Raise e.
Proof.
  destruct (Nat.eq_dec (count chN seq) 0) as [H0|Hn].
  - by rewrite scan_record_skip.
  - destruct (scan_record_row name seq) as (x & _ & ->); [lia|done].
Qed.

Lemma run_lengths_shift (ms : list span) :
  Forall (λ r : span, r.1 < r.2) ms →
  run_lengths (map (λ m : span, (m.1 + 1, m.2)) ms) = total_length ms.
Proof.
  induction 1 as [|m ms Hm _ IH]; simpl; [done|]. rewrite IH. lia.
Qed.

Lemma bed_lengths_rows name (ms : list span) :
  bed_lengths
    (map (λ m : span, BedRow name m.1 m.2 (name, m.1 + 1, m.2) (m.2 - m.1)) ms)
  = total_length ms.
Proof. induction ms as [|m ms IH]; simpl; [done|]. by rewrite IH. Qed.

Lemma scan_records_rows recs :
  ∀ rows beds e row, scan_records recs = (rows, beds, e) → row ∈ rows →
    ∃ name seq bed, (name, seq) ∈ recs ∧ scan_record name seq = Ok (Some row, bed).
Proof.
  induction recs as [|[name seq] recs IH]; intros rows beds e row; simpl.
  - intros [= <- _ _] Hin. by apply elem_of_nil in Hin.
  - destruct (scan_record name seq) as [[r bed]| |] eqn:Hrec;
      try (intros [= <- _ _] Hin; by apply elem_of_nil in Hin).
    destruct (scan_records recs) as [[rows' beds'] e'].
    intros [= <- _ _] Hin. apply elem_of_app in Hin as [Hin|Hin].
    + destruct r as [r|]; simpl in Hin; [|by apply elem_of_nil in Hin].
      apply list_elem_of_singleton in Hin as ->.
      exists name, seq, bed. split; [left|done].
    + destruct (IH _ _ _ row eq_refl Hin) as (n & q & b & Hmem & Hq).
      exists n, q, b. split; [by right|done].
Qed.

Lemma parse_lines_exn upper lines :
  ∀ name seq_lines recs e,
    parse_lines upper name seq_lines lines = (recs, Some e) → e = IndexError.
Proof.
  induction lines as [|line lines IH]; intros name sl recs e; simpl.
  - intros [= _ ?]; discriminate.
  - destruct (rstrip line) as [|c l] eqn:Hl; [by apply IH|].
    destruct (startswith GT (String c l)); [|by apply IH].
    destruct (split (tail1 (String c l))) as [|t ts]; simpl.
    + by intros [= _ <-].
    + destruct (parse_lines upper (Some t) [] lines) as [ys e'] eqn:Hp.
      intros [= _ ->]. by eapply IH.
Qed.

Lemma scan_records_never_raise recs :
  ∀ rows beds e, scan_records recs = (rows, beds, e) → e = None.
Proof.
  induction recs as [|[name seq] recs IH]; intros rows beds e; simpl.
  - by intros [= _ _ <-].
  - destruct (scan_record name seq) as [[r bed]| |ex] eqn:Hrec.
    + destruct (scan_records recs) as [[rows' beds'] e'].
      intros [= _ _ <-]. by eapply IH.
    + by intros [= _ _ <-].
    + by apply scan_record_never_raises in Hrec.
Qed.

(** *** The reported runs *)

Lemma finditer_Nplus_none (seq : string) :
  count chN seq = 0 → finditer_Nplus seq = [].
Proof.
  intros H0. destruct (finditer_Nplus_inv seq) as (Hb & _ & _).
  rewrite count_is_total_length in H0.
  destruct (finditer_Nplus seq) as [|m ms]; [done|].
  apply Forall_cons in Hb as [Hm _]. unfold total_length in H0. simpl in H0. lia.
Qed.

Lemma scan_record_runs (name seq : string) :
  ∃ row bed,
    scan_record name seq = Ok (row, bed)
    ∧ runs_of row = map (λ m : span, (m.1 + 1, m.2)) (finditer_Nplus seq)
    ∧ bed = map (λ m : span, BedRow name m.1 m.2 (name, m.1 + 1, m.2) (m.2 - m.1))
                (finditer_Nplus seq).
Proof.
  destruct (Nat.eq_dec (count chN seq) 0) as [H0|Hn].
  - exists None, []. rewrite scan_record_skip by done.
    by rewrite finditer_Nplus_none.
  - destruct (scan_record_row name seq) as (x & _ & ->); [lia|].
    by eexists _, _.
Qed.

Lemma scan_records_outs (recs : list (string * string)) :
  ∃ outs,
    Forall2 (λ (rec : string * string) out, scan_record rec.1 rec.2 = Ok out)
            recs outs
    ∧ scan_records recs
      = (List.concat (map (λ out : option tsv_row * list bed_row,
                             option_list out.1) outs),
         List.concat (map snd outs), None).
Proof.
  induction recs as [|[name seq] recs (outs & Hall & Hs)]; simpl.
  - exists []. by split.
  - destruct (scan_record_runs name seq) as (row & bed & Hrec & _).
    rewrite Hrec, Hs. exists ((row, bed) :: outs). split; [|done].
    by constructor.
Qed.

(** C1. For every record, with its name and its sequence S, the loop
    body completes, and the runs it lists in the record's row (none if
    the record gets no row), as pairs of a start counted from 1 and an
    inclusive end, cover exactly the positions of S that hold 'N': a
    position inside a listed run holds 'N'; a position that holds 'N'
    lies in a listed run, and in only one; of two listed runs the earlier
    one starts first and the later one starts at least two positions
    after the earlier one ends, so that runs neither overlap nor touch
    and are listed by ascending start; every run lies within S. The
    lines of the interval report for the record are the same runs in the
    same order, with the start counted from 0. And the two reports of
    the tool are, in file order, what the loop body gives for each
    parsed record. *)
Theorem C1_runs_cover_exactly :
  (∀ name seq : string,
     ∃ row bed,
       scan_record name seq = Ok (row, bed)
       ∧ (∀ r p, r ∈ runs_of row → in_run r p → N_at seq p)
       ∧ (∀ p, N_at seq p →
            ∃ i r, runs_of row !! i = Some r ∧ in_run r p
                   ∧ ∀ j r', runs_of row !! j = Some r' → in_run r' p → j = i)
       ∧ (∀ i j r1 r2,
            runs_of row !! i = Some r1 → runs_of row !! j = Some r2 →
            i < j → r1.1 < r2.1 ∧ r1.2 + 1 < r2.1)
       ∧ (∀ r, r ∈ runs_of row → 1 ≤ r.1 ≤ r.2 ≤ String.length seq)
       ∧ map (λ b, (bed_start b + 1, bed_end b)) bed = runs_of row
       ∧ Forall (λ b, chrom b = name) bed)
  ∧ (∀ upper text,
       ∃ outs,
         Forall2 (λ (rec : string * string) out, scan_record rec.1 rec.2 = Ok out)
                 (parse_fasta upper text).1 outs
         ∧ (main upper text).1.1
           = List.concat (map (λ out : option tsv_row * list bed_row,
                                 option_list out.1) outs)
         ∧ (main upper text).1.2 = List.concat (map snd outs)).
Proof.
  split.
  - intros name seq.
    destruct (scan_record_runs name seq) as (row & bed & Hrec & Hruns & Hbed).
    exists row, bed. split; [done|]. rewrite Hruns, Hbed. clear Hrec Hruns Hbed.
    destruct (finditer_Nplus_cover seq) as (Hin & Hex & Hord & Hlen).
    assert (Hget : ∀ i r,
      map (λ m : span, (m.1 + 1, m.2)) (finditer_Nplus seq) !! i = Some r →
      ∃ m, finditer_Nplus seq !! i = Some m ∧ r = (m.1 + 1, m.2)).
    { intros i r Hi. rewrite list_lookup_fmap in Hi.
      destruct (finditer_Nplus seq !! i) as [m|]; [|done].
      injection Hi as <-. by exists m. }
    assert (Hcov : ∀ (m : span) p, in_run (m.1 + 1, m.2) p ↔ covers m p).
    { intros m p. unfold in_run, covers. simpl. lia. }
    split; [|split; [|split; [|split; [|split]]]].
    + intros r p (m & -> & Hm)%list_elem_of_fmap Hp.
      apply (Hin m p Hm). by apply Hcov.
    + intros p Hp. destruct (Hex p Hp) as (i & m & Hi & Hc & Huniq).
      exists i, (m.1 + 1, m.2). split; [by rewrite list_lookup_fmap, Hi|].
      split; [by apply Hcov|].
      intros j r' Hj Hc'. destruct (Hget j r' Hj) as (m' & Hj' & ->).
      apply (Huniq j m' Hj'). by apply Hcov.
    + intros i j r1 r2 Hi Hj Hlt.
      destruct (Hget i r1 Hi) as (m1 & Hi' & ->).
      destruct (Hget j r2 Hj) as (m2 & Hj' & ->).
      pose proof (Hord i j m1 m2 Hi' Hj' Hlt). simpl. lia.
    + intros r (m & -> & Hm)%list_elem_of_fmap.
      pose proof (Hlen m Hm). simpl. lia.
    + rewrite List.map_map. by apply map_ext.
    + apply Forall_forall. by intros b (m & -> & _)%list_elem_of_fmap.
  - intros upper text. unfold main.
    destruct (parse_fasta upper text) as [recs perr]. simpl.
    destruct (scan_records_outs recs) as (outs & Hall & ->).
    by exists outs.
Qed.

(** C4. Every row of the tabular report stems from a parsed record
    whose sequence has [contig_len] characters; its [total_Ns] is the
    sum of the lengths of the runs listed in the row, and also the sum
    of the lengths on the record's interval lines; the printed six
    decimals of [frac_N] differ from the exact quotient
    [total_Ns / contig_len] by less than one millionth. *)
Theorem C4_total_and_fraction upper text rows beds e row :
  main upper text = (rows, beds, e) → row ∈ rows →
  ∃ seq bed,
    (contig row, seq) ∈ (parse_fasta upper text).1
    ∧ scan_record (contig row) seq = Ok (Some row, bed)
    ∧ contig_len row = String.length seq
    ∧ total_Ns row = run_lengths (n_run_positions row)
    ∧ total_Ns row = bed_lengths bed
    ∧ (Z.abs (frac_N row * Z.of_nat (contig_len row)
              - 10 ^ 6 * Z.of_nat (total_Ns row))
       < Z.of_nat (contig_len row))%Z.
Proof.
  unfold main. destruct (parse_fasta upper text) as [recs perr].
  destruct (scan_records recs) as [[rows' beds'] serr] eqn:Hscan.
  intros [= <- _ _] Hrow.
  destruct (scan_records_rows _ _ _ _ row Hscan Hrow)
    as (name & seq & bed & Hmem & Hrec).
  destruct (Nat.eq_dec (count chN seq) 0) as [H0|Hn].
  { rewrite scan_record_skip in Hrec by done. discriminate. }
  destruct (scan_record_row name seq) as (x & Hx & Hrow'); [lia|].
  rewrite Hrow' in Hrec. injection Hrec as <- <-. simpl.
  destruct (finditer_Nplus_inv seq) as (Hb & _ & _).
  eexists seq, _. split; [done|]. split; [done|]. split; [done|].
  split; [|split].
  - rewrite run_lengths_shift; [apply count_is_total_length|].
    eapply Forall_impl; [exact Hb|]. simpl. tauto.
  - by rewrite bed_lengths_rows, count_is_total_length.
  - apply format_6f_bound; [|done]. pose proof (count_le_length chN seq). lia.
Qed.

Lemma example_main :
  main id example_fasta
  = ([example_row_c1; example_row_c2],
     [BedRow "c1" 4 7 ("c1", 5, 7) 3; BedRow "c2" 0 4 ("c2", 1, 4) 4],
     None).
Proof. vm_compute. reflexivity. Qed.

Lemma C4_total_and_fraction_witness :
  ∃ seq bed,
    (contig example_row_c1, seq) ∈ (parse_fasta id example_fasta).1
    ∧ scan_record (contig example_row_c1) seq = Ok (Some example_row_c1, bed)
    ∧ contig_len example_row_c1 = String.length seq
    ∧ total_Ns example_row_c1 = run_lengths (n_run_positions example_row_c1)
    ∧ total_Ns example_row_c1 = bed_lengths bed
    ∧ (Z.abs (frac_N example_row_c1 * Z.of_nat (contig_len example_row_c1)
              - 10 ^ 6 * Z.of_nat (total_Ns example_row_c1))
       < Z.of_nat (contig_len example_row_c1))%Z.
Proof.
  apply (C4_total_and_fraction id example_fasta
           [example_row_c1; example_row_c2]
           [BedRow "c1" 4 7 ("c1", 5, 7) 3; BedRow "c2" 0 4 ("c2", 1, 4) 4]
           None example_row_c1).
  - vm_compute. reflexivity.
  - apply list_elem_of_here.
Defined.

(** C5, as stated, fails: no record makes the loop body divide by a
    zero length, and no input makes the scanner stop on a division by
    zero. *)
Lemma C5_zero_division_unreachable :
  ¬ ((∃ name seq, scan_record name seq = Raise ZeroDivisionError)
     ∨ (∃ upper text rows beds,
          main upper text = (rows, beds, Some ZeroDivisionError))).
Proof.
  intros [(name & seq & H)|(upper & text & rows & beds & H)].
  - by apply scan_record_never_raises in H.
  - unfold main in H. destruct (parse_fasta upper text) as [recs perr] eqn:Hp.
    destruct (scan_records recs) as [[rows' beds'] serr] eqn:Hscan.
    apply scan_records_never_raise in Hscan as ->.
    injection H as _ _ ->. by apply parse_lines_exn in Hp.
Qed.

(** C5, amended. The fraction has no check of [contig_len] of its own,
    and dividing by a zero length would raise; but the skip of records
    without 'N' comes first: a record with no 'N' (an empty sequence
    among them) is skipped before the division, and where the division
    is computed [1 <= total_Ns <= contig_len] and it yields a number.
    The loop body raises for no record. *)
Theorem C5_zero_count_skip_precedes_division (name seq : string) :
  (∀ a, Float.truediv a 0 = Raise ZeroDivisionError)
  ∧ (String.length seq = 0 → scan_record name seq = Ok (None, []))
  ∧ (count chN seq = 0 → scan_record name seq = Ok (None, []))
  ∧ (0 < count chN seq →
       count chN seq ≤ String.length seq
       ∧ ∃ x, Float.truediv (count chN seq) (String.length seq) = Ok x)
  ∧ (∀ e, scan_record name seq ≠ Raise e).
Proof.
  split; [done|]. pose proof (count_le_length chN seq) as Hle.
  split; [|split; [|split]].
  - intros H0. apply scan_record_skip. lia.
  - apply scan_record_skip.
  - intros Hpos. split; [done|].
    destruct (scan_record_row name seq Hpos) as (x & Hx & _). eauto.
  - intros e. apply scan_record_never_raises.
Qed.

(** C6. A record whose sequence holds no 'N' leaves no trace in either
    report: the loop body writes nothing for it, and the rows and
    interval lines of a whole scan are those of the scan without it. *)
Theorem C6_zero_N_record_not_reported
    (recs1 recs2 : list (string * string)) (name seq : string) :
  count chN seq = 0 →
  scan_record name seq = Ok (None, [])
  ∧ scan_records (recs1 ++ (name, seq) :: recs2) = scan_records (recs1 ++ recs2).
Proof.
  intros H0. pose proof (scan_record_skip name seq H0) as Hskip.
  split; [done|].
  induction recs1 as [|[n q] recs1 IH]; simpl.
  - rewrite Hskip. by destruct (scan_records recs2) as [[rows beds] e].
  - by rewrite IH.
Qed.

Lemma C6_zero_N_record_not_reported_witness :
  scan_record "c0" "ACGT" = Ok (None, [])
  ∧ scan_records ([("c1", "ACGTNNNAC")] ++ ("c0", "ACGT") :: [("c2", "NNNN")])
    = scan_records ([("c1", "ACGTNNNAC")] ++ [("c2", "NNNN")]).
Proof.
  apply (C6_zero_N_record_not_reported
           [("c1", "ACGTNNNAC")] [("c2", "NNNN")] "c0" "ACGT").
  reflexivity.
Defined.

(** *** The parser on marker lines *)

Lemma rstrip_all_space (ws : string) :
  all_space ws = true → rstrip_by isspace ws = EmptyString.
Proof.
  induction ws as [|c ws IH]; simpl; [done|].
  intros [Hc Hws]%andb_true_iff. by rewrite IH, Hc.
Qed.

Lemma rstrip_bare_marker (ws : string) :
  all_space ws = true → rstrip (String GT ws) = String GT EmptyString.
Proof. intros Hws. unfold rstrip. simpl. by rewrite rstrip_all_space. Qed.

Lemma parse_lines_raised upper lines1 :
  ∀ name seq_lines rest recs e,
    parse_lines upper name seq_lines lines1 = (recs, Some e) →
    parse_lines upper name seq_lines (lines1 ++ rest) = (recs, Some e).
Proof.
  induction lines1 as [|line lines1 IH]; intros name sl rest recs e; simpl.
  - intros [= _ ?]; discriminate.
  - destruct (rstrip line) as [|c l] eqn:Hl; [by apply IH|].
    destruct (startswith GT (String c l)); [|by apply IH].
    destruct (split (tail1 (String c l))) as [|t ts]; simpl; [done|].
    destruct (parse_lines upper (Some t) [] lines1) as [ys e'] eqn:Hp.
    intros [= <- ->]. by rewrite (IH _ _ rest _ _ Hp).
Qed.

Lemma parse_lines_bare_marker upper lines1 :
  ∀ name seq_lines bad rest recs,
    rstrip bad = String GT EmptyString →
    parse_lines upper name seq_lines lines1 = (recs, None) →
    parse_lines upper name seq_lines (lines1 ++ bad :: rest)
    = (recs, Some IndexError).
Proof.
  induction lines1 as [|line lines1 IH]; intros name sl bad rest recs Hbad; simpl.
  - intros [= <-]. by rewrite Hbad.
  - destruct (rstrip line) as [|c l] eqn:Hl; [by apply IH|].
    destruct (startswith GT (String c l)); [|by apply IH].
    destruct (split (tail1 (String c l))) as [|t ts]; simpl; [done|].
    destruct (parse_lines upper (Some t) [] lines1) as [ys e'] eqn:Hp.
    intros [= <- ->]. by rewrite (IH _ _ bad rest _ Hbad Hp).
Qed.

(** C10. When the text holds a line that is '>' followed by whitespace
    only (or by nothing), [line[1:].split()[0]] raises [IndexError]: the
    parser ends with that exception, and so does the scanner. If no
    earlier line raises, the records yielded are those of the lines
    before the marker line; the line is not skipped and the lines after
    it yield nothing. *)
Theorem C10_bare_marker_raises upper text lines1 ws rest :
  readlines text = lines1 ++ String GT ws :: rest →
  all_space ws = true →
  index0 (split (tail1 (rstrip (String GT ws)))) = Raise IndexError
  ∧ (parse_fasta upper text).2 = Some IndexError
  ∧ (main upper text).2 = Some IndexError
  ∧ ∀ recs, parse_lines upper None [] lines1 = (recs, None) →
            parse_fasta upper text = (recs, Some IndexError).
Proof.
  intros Hlines Hws. pose proof (rstrip_bare_marker ws Hws) as Hbad.
  split; [by rewrite Hbad|].
  assert (Hp : (parse_fasta upper text).2 = Some IndexError).
  { unfold parse_fasta. rewrite Hlines.
    destruct (parse_lines upper None [] lines1) as [recs [e|]] eqn:Hp1.
    - rewrite (parse_lines_raised _ _ _ _ _ _ _ Hp1).
      by apply parse_lines_exn in Hp1 as ->.
    - by rewrite (parse_lines_bare_marker _ _ _ _ _ _ _ Hbad Hp1). }
  split; [done|]. split.
  - unfold main. destruct (parse_fasta upper text) as [recs perr].
    simpl in Hp. subst perr.
    destruct (scan_records recs) as [[rows beds] serr] eqn:Hscan.
    by apply scan_records_never_raise in Hscan as ->.
  - intros recs Hp1. unfold parse_fasta. rewrite Hlines.
    by apply parse_lines_bare_marker.
Qed.

Lemma C10_bare_marker_raises_witness :
  index0 (split (tail1 (rstrip (String GT (" " +:+ NL))))) = Raise IndexError
  ∧ (parse_fasta id bare_marker_fasta).2 = Some IndexError
  ∧ (main id bare_marker_fasta).2 = Some IndexError
  ∧ ∀ recs, parse_lines id None [] [">c1" +:+ NL; "ACGTNNNAC" +:+ NL]
            = (recs, None) →
            parse_fasta id bare_marker_fasta = (recs, Some IndexError).
Proof.
  apply (C10_bare_marker_raises id bare_marker_fasta
           [">c1" +:+ NL; "ACGTNNNAC" +:+ NL] (" " +:+ NL) ["NNNN" +:+ NL]).
  - vm_compute. reflexivity.
  - vm_compute. reflexivity.
Defined.

End ScannerProofs.

(** ** The reorder tool *)

Module ReorderProofs.
Import Py PyFacts Reorder ReorderSpec ExtraSpec Examples.

(** *** The sequence writer *)

Lemma range_chunks (seq : string) (w : nat) :
  0 < w → ∀ fuel i, String.length seq - i ≤ fuel →
    join (map (λ i, slice i w seq) (range_from fuel i (String.length seq) w))
    = sdrop i seq
    ∧ wrapped w (map (λ i, slice i w seq)
                     (range_from fuel i (String.length seq) w)).
Proof.
  intros Hw. induction fuel as [|f IH]; intros i Hi; simpl.
  - split; [|done]. rewrite sdrop_all; [done|lia].
  - destruct (Nat.ltb_spec i (String.length seq)) as [Hlt|Hge].
    + destruct (IH (i + w) ltac:(lia)) as [Hj Hwr]. simpl.
      assert (Hlen : String.length (slice i w seq)
                     = w `min` (String.length seq - i)).
      { unfold slice. by rewrite substring_stake_sdrop, length_stake, length_sdrop. }
      split.
      * rewrite join_cons, Hj. unfold slice.
        by rewrite substring_stake_sdrop, sdrop_add, stake_sdrop.
      * destruct (range_from f (i + w) (String.length seq) w) as [|j js] eqn:Hr.
        -- simpl. lia.
        -- split; [|exact Hwr]. rewrite Hlen.
           destruct f as [|f']; [discriminate|]. simpl in Hr.
           destruct (Nat.ltb_spec (i + w) (String.length seq)); [lia|discriminate].
    + split; [|done]. rewrite sdrop_all; [done|lia].
Qed.

(** C9. The writer first emits the header line, '>' and the header;
    then the sequence as lines. For a positive width the lines, put
    together, are the sequence, each holds exactly [wrap] characters
    and only the last may hold fewer (at least one); for a width of
    zero or below the sequence is one line. *)
Theorem C9_write_seq_lines (header seq : string) (wrap : Z) :
  ∃ lines,
    write_seq header seq wrap
    = (String GT header +:+ NL) :: map (λ l, l +:+ NL) lines
    ∧ ((0 < wrap)%Z → join lines = seq ∧ wrapped (Z.to_nat wrap) lines)
    ∧ ((wrap ≤ 0)%Z → lines = [seq]).
Proof.
  unfold write_seq, wrapping.
  destruct (Z.ltb_spec 0 wrap) as [Hpos|Hneg].
  - destruct (Z.eqb_spec wrap 0) as [->|_]; [lia|]. simpl.
    exists (map (λ i, slice i (Z.to_nat wrap) seq)
                (range0 (String.length seq) (Z.to_nat wrap))).
    split; [by rewrite List.map_map|]. split; [|lia]. intros _.
    unfold range0.
    destruct (range_chunks seq (Z.to_nat wrap) ltac:(lia)
                (String.length seq) 0 ltac:(lia)) as [Hj Hwr].
    split; [exact Hj|exact Hwr].
  - rewrite andb_false_r. exists [seq]. split; [done|]. split; [lia|done].
Qed.

Lemma seq_lines_join (wrap : Z) (seq : string) :
  join (seq_lines wrap seq) = seq.
Proof.
  unfold seq_lines, wrapping.
  destruct (Z.ltb_spec 0 wrap) as [Hpos|Hneg].
  - destruct (Z.eqb_spec wrap 0) as [->|_]; [lia|]. simpl. unfold range0.
    by destruct (range_chunks seq (Z.to_nat wrap) ltac:(lia)
                   (String.length seq) 0 ltac:(lia)) as [-> _].
  - rewrite andb_false_r. by rewrite join_cons, append_nil_r.
Qed.

Lemma write_seq_record_lines (header seq : string) (wrap : Z) :
  write_seq header seq wrap = map (λ b, b +:+ NL) (record_lines wrap (header, seq)).
Proof.
  unfold write_seq, record_lines, seq_lines. simpl. f_equal.
  destruct (wrapping wrap); [|done]. by rewrite List.map_map.
Qed.

Lemma render_lines (wrap : Z) (recs : list (string * string)) :
  render wrap recs
  = join (map (λ b, b +:+ NL) (List.concat (map (record_lines wrap) recs))).
Proof.
  unfold render. f_equal. induction recs as [|[h q] recs IH]; [done|].
  cbn [map List.concat fst snd]. by rewrite IH, map_app, write_seq_record_lines.
Qed.


(** *** The parser *)

Lemma store_app m (xs ys : list (string * string)) :
  store m (xs ++ ys) = store (store m xs) ys.
Proof. unfold store. by rewrite foldl_app. Qed.

Lemma store_lookup_notin (recs : list (string * string)) :
  ∀ m h, h ∉ map fst recs → store m recs !! h = m !! h.
Proof.
  induction recs as [|[h0 s0] recs IH]; intros m h Hh; simpl; [done|].
  simpl in Hh. apply not_elem_of_cons in Hh as [Hne Hh].
  rewrite IH by done. by rewrite lookup_insert_ne.
Qed.

Lemma store_is_Some (recs : list (string * string)) :
  ∀ m h, is_Some (store m recs !! h) ↔ is_Some (m !! h) ∨ h ∈ map fst recs.
Proof.
  induction recs as [|[h0 s0] recs IH]; intros m h; simpl.
  - rewrite elem_of_nil. tauto.
  - rewrite IH, elem_of_cons. destruct (decide (h = h0)) as [->|Hne].
    + rewrite lookup_insert_eq. split; [intros _; right; by left|].
      intros _. left. by eexists.
    + rewrite lookup_insert_ne by done. split; [tauto|].
      intros [?|[?|?]]; [tauto|done|tauto].
Qed.

Lemma store_lookup_NoDup (recs : list (string * string)) :
  ∀ m h q, NoDup (map fst recs) → (h, q) ∈ recs → store m recs !! h = Some q.
Proof.
  induction recs as [|[h0 s0] recs IH]; intros m h q Hnd Hin; simpl.
  - by apply elem_of_nil in Hin.
  - simpl in Hnd. apply NoDup_cons in Hnd as [Hh0 Hnd].
    apply elem_of_cons in Hin as [[= -> ->]|Hin].
    + rewrite store_lookup_notin by done. apply lookup_insert_eq.
    + by apply IH.
Qed.

Lemma records_go_head (lines : list string) :
  ∀ h parts, ∃ q rest, records_go (Some (h, parts)) lines = (h, q) :: rest.
Proof.
  induction lines as [|x xs IH]; intros h parts; simpl; [by eexists _, _|].
  destruct (rstrip_by (Ascii.eqb LF) x); [apply IH|].
  destruct (startswith GT _); [by eexists _, _|apply IH].
Qed.

Lemma parse_lines_records (lines : list string) :
  ∀ headers seqs cur_h parts,
    let cur := match cur_h with Some h => Some (h, parts) | None => None end in
    let recs := records_go cur lines in
    parse_lines headers seqs cur_h parts lines
    = (headers ++ map fst (drop (if cur_h is Some _ then 1 else 0) recs),
       store seqs recs).
Proof.
  induction lines as [|line lines IH]; intros headers seqs cur_h parts; simpl.
  - destruct cur_h as [h|]; simpl; by rewrite app_nil_r.
  - destruct (rstrip_by (Ascii.eqb LF) line) as [|c l] eqn:Hl; [apply IH|].
    destruct (startswith GT (String c l)).
    + rewrite IH. simpl. rewrite store_app, <- app_assoc.
      destruct (records_go_head lines (strip l) []) as (q & rest & ->).
      by destruct cur_h.
    + rewrite IH. by destruct cur_h.
Qed.

Lemma parse_fasta_records (text : string) :
  parse_fasta text = (map fst (fasta_records text), store ∅ (fasta_records text)).
Proof. unfold parse_fasta. by rewrite parse_lines_records. Qed.

Lemma parse_fasta_dom (text : string) headers seqs :
  parse_fasta text = (headers, seqs) → ∀ h, is_Some (seqs !! h) ↔ h ∈ headers.
Proof.
  rewrite parse_fasta_records. intros [= <- <-] h.
  rewrite store_is_Some, lookup_empty, is_Some_alt. tauto.
Qed.

(** *** The index of first tokens *)

Lemma split_go_nil (s : string) :
  ∀ tok, split_go tok s = [] → tok = EmptyString ∧ all_space s = true.
Proof.
  induction s as [|c s IH]; intros tok; simpl.
  - by destruct tok.
  - destruct (isspace c); simpl.
    + destruct tok; [|done]. intros H. by apply IH in H as [_ ->].
    + intros H. apply IH in H as [H _]. by destruct tok.
Qed.

Lemma first_token_nonempty (h t : string) :
  first_token h = Some t → h ≠ EmptyString.
Proof. by intros H ->. Qed.

Lemma build_index_lookup (headers : list string) :
  ∀ acc idx, build_index acc headers = Ok idx →
    Forall (λ h, is_Some (first_token h)) headers
    ∧ ∀ t, default [] (idx !! t)
           = default [] (acc !! t) ++ filter (λ h, first_token h = Some t) headers.
Proof.
  induction headers as [|h hs IH]; intros acc idx; simpl.
  - intros [= <-]. split; [done|]. intros t. by rewrite app_nil_r.
  - unfold first_token. destruct (split h) as [|t0 ts] eqn:Hs; simpl; [done|].
    intros Hb. destruct (IH _ _ Hb) as [Hall Hidx]. split.
    + constructor; [|done]. rewrite Hs. by eexists.
    + intros t. rewrite Hidx, filter_cons. simpl. rewrite Hs. simpl.
      destruct (decide (t0 = t)) as [->|Hne].
      * rewrite lookup_insert_eq. simpl.
        rewrite decide_True by done. by rewrite <- app_assoc.
      * rewrite lookup_insert_ne by done.
        rewrite decide_False by congruence. done.
Qed.

Lemma build_index_ok (headers : list string) :
  Forall (λ h, is_Some (first_token h)) headers →
  ∀ acc, ∃ idx, build_index acc headers = Ok idx.
Proof.
  induction 1 as [|h hs [t Ht] _ IH]; intros acc; simpl; [by eexists|].
  unfold first_token in Ht. destruct (split h) as [|t0 ts]; [done|]. simpl.
  apply IH.
Qed.

Lemma build_index_raises (headers : list string) :
  Exists (λ h, first_token h = None) headers →
  ∀ acc, build_index acc headers = Raise IndexError.
Proof.
  induction headers as [|h hs IH]; intros Hex acc; [by apply Exists_nil in Hex|].
  simpl. unfold first_token in *. destruct (split h) as [|t0 ts] eqn:Hs; [done|].
  simpl. apply IH. apply Exists_cons in Hex as [Hh|Hex]; [|done].
  by rewrite Hs in Hh.
Qed.

Lemma lstrip_by_head p (s : string) :
  lstrip_by p s = EmptyString
  ∨ ∃ c r, lstrip_by p s = String c r ∧ p c = false.
Proof.
  induction s as [|c s IH]; simpl; [by left|].
  destruct (p c) eqn:Hc; [done|]. right. eauto.
Qed.

Lemma strip_first_token (x : string) :
  strip x ≠ EmptyString → is_Some (first_token (strip x)).
Proof.
  unfold strip. intros Hne.
  destruct (lstrip_by_head isspace (rstrip_by isspace x)) as [H|(c & r & -> & Hc)];
    [done|].
  unfold first_token, split. simpl. rewrite Hc.
  destruct (split_go _ r) as [|t ts] eqn:Hs; [|simpl; eauto].
  apply split_go_nil in Hs as [Hs _]. cbv in Hs. discriminate Hs.
Qed.

(** *** The matching loop against the policy *)

Lemma pick_unused_filter (U : gset string) (cands : list string) :
  pick_unused U cands = head (filter (λ h, h ∉ U) cands).
Proof.
  induction cands as [|c cs IH]; simpl; [done|]. rewrite filter_cons.
  destruct (decide (c ∈ U)).
  - by rewrite decide_False by tauto.
  - by rewrite decide_True by done.
Qed.

Lemma filter_filter_and {A} (P Q : A → Prop)
    `{!∀ x, Decision (P x)} `{!∀ x, Decision (Q x)} (l : list A) :
  filter Q (filter P l) = filter (λ x, P x ∧ Q x) l.
Proof.
  induction l as [|x l IH]; [done|]. rewrite !filter_cons.
  destruct (decide (P x)); [rewrite filter_cons|];
    destruct (decide (Q x)); rewrite IH;
    by (rewrite decide_True by tauto) || by (rewrite decide_False by tauto).
Qed.

Lemma token_tier {X} (U : gset string) (o : option (list string))
    (entry : string) (headers : list string) (A : string → X) (B : X) :
  default [] o = filter (λ h, first_token h = Some entry) headers →
  match o with
  | Some cands =>
      match pick_unused U cands with
      | Some ch => if truthy (pick_unused U cands) then A ch else B
      | None => B
      end
  | None => B
  end
  = match head (filter (λ h, first_token h = Some entry ∧ h ∉ U) headers) with
    | Some h => A h
    | None => B
    end.
Proof.
  intros Ho. rewrite <- filter_filter_and, <- Ho.
  destruct o as [cands|]; simpl in *; [|done].
  rewrite pick_unused_filter.
  destruct (filter (λ h, h ∉ U) cands) as [|ch chs] eqn:Hf; [done|].
  simpl. assert (Hch : ch ∈ cands).
  { eapply (list_elem_of_filter (λ h, h ∉ U)). rewrite Hf. left. }
  rewrite Ho in Hch. apply list_elem_of_filter in Hch as [Hch _].
  apply first_token_nonempty in Hch. by destruct ch.
Qed.

Lemma match_entry_step (headers : list string) (seqs : gmap string string)
    (idx : gmap string (list string)) (st : engine) (entry : string) :
  (∀ h, is_Some (seqs !! h) ↔ h ∈ headers) →
  build_index ∅ headers = Ok idx →
  match_entry seqs idx st entry = step headers st entry.
Proof.
  intros Hdom Hidx. apply build_index_lookup in Hidx as [_ Hidx].
  specialize (Hidx entry). rewrite lookup_empty in Hidx. simpl in Hidx.
  unfold match_entry, step, resolve.
  destruct (decide (entry ∈ headers ∧ entry ∉ used st)) as [[Hin Hout]|Hno].
  - rewrite (bool_decide_eq_true_2 (is_Some _)) by by apply Hdom.
    rewrite (bool_decide_eq_true_2 (entry ∉ used st)) by done.
    by rewrite (bool_decide_eq_true_2 (_ ∧ _)).
  - rewrite (bool_decide_eq_false_2 (_ ∧ _)) by done.
    replace (bool_decide (is_Some (seqs !! entry)) && bool_decide (entry ∉ used st))
      with false.
    + by apply token_tier.
    + symmetry. apply andb_false_iff.
      destruct (decide (entry ∈ headers)) as [Hin|Hout].
      * right. apply bool_decide_eq_false_2. tauto.
      * left. apply bool_decide_eq_false_2. by rewrite Hdom.
Qed.

Lemma match_all_spec (headers : list string) (seqs : gmap string string)
    (idx : gmap string (list string)) (order_list : list string) :
  (∀ h, is_Some (seqs !! h) ↔ h ∈ headers) →
  build_index ∅ headers = Ok idx →
  match_all seqs idx order_list = foldl (step headers) (Engine [] ∅ []) order_list.
Proof.
  intros Hdom Hidx. unfold match_all. generalize (Engine [] ∅ []).
  induction order_list as [|e es IH]; intros st; simpl; [done|].
  by rewrite (match_entry_step headers), IH.
Qed.

(** *** The policy *)

Lemma resolve_Some (headers : list string) (U : gset string) (e h : string) :
  resolve headers U e = Some h → h ∈ headers ∧ h ∉ U.
Proof.
  unfold resolve. case_bool_decide as Hd.
  - intros [= <-]. tauto.
  - intros Hh. apply head_Some_elem_of, list_elem_of_filter in Hh. tauto.
Qed.

Lemma step_consistent (headers : list string) (st : engine) (e : string) :
  consistent headers st → consistent headers (step headers st e).
Proof.
  intros (Hnd & Hused & Hsub). unfold step.
  destruct (resolve headers (used st) e) as [h|] eqn:Hr; [|done].
  apply resolve_Some in Hr as [Hin Hout]. split; [|split]; simpl.
  - apply NoDup_app. split; [done|]. split; [|apply NoDup_singleton].
    intros x Hx ->%list_elem_of_singleton. by apply Hout, Hused.
  - intros x. rewrite elem_of_union, elem_of_singleton, elem_of_app,
      list_elem_of_singleton, Hused. tauto.
  - intros x [Hx| ->%list_elem_of_singleton]%elem_of_app; [by apply Hsub|done].
Qed.

Lemma foldl_step_consistent (headers order_list : list string) :
  ∀ st, consistent headers st →
        consistent headers (foldl (step headers) st order_list).
Proof.
  induction order_list as [|e es IH]; intros st Hst; simpl; [done|].
  by apply IH, step_consistent.
Qed.

Lemma final_consistent (headers order_list : list string) :
  consistent headers (final headers order_list).
Proof.
  apply foldl_step_consistent. split; [apply NoDup_nil_2|]. simpl.
  split; intros h; [|by intros ?%elem_of_nil].
  rewrite elem_of_nil. split; [|done]. apply not_elem_of_empty.
Qed.

(** *** The run as a whole *)

Lemma fetch_ok (seqs : gmap string string) (hs : list string) :
  (∀ h, h ∈ hs → is_Some (seqs !! h)) →
  ∃ recs, fetch seqs hs = Ok recs ∧ map fst recs = hs
          ∧ Forall (λ r : string * string, seqs !! r.1 = Some r.2) recs.
Proof.
  induction hs as [|h hs IH]; intros Hin; simpl; [by exists []|].
  destruct (Hin h ltac:(left)) as [q Hq]. unfold getitem. rewrite Hq. simpl.
  destruct IH as (recs & -> & Hfst & Hall); [intros; apply Hin; by right|].
  simpl. exists ((h, q) :: recs). split; [done|]. split; [simpl; by f_equal|].
  by constructor.
Qed.

Lemma reorder_ok (headers : list string) (seqs : gmap string string)
    (order_list : list string) (wrap : Z) :
  headers ≠ [] →
  (∀ h, is_Some (seqs !! h) ↔ h ∈ headers) →
  Forall (λ h, is_Some (first_token h)) headers →
  ∃ rep, reorder headers seqs order_list wrap = Ok rep
         ∧ map fst (written rep) = output_order headers order_list
         ∧ Forall (λ r : string * string, seqs !! r.1 = Some r.2) (written rep)
         ∧ output rep = render wrap (written rep)
         ∧ n_ordered rep = List.length (ordered_headers (final headers order_list))
         ∧ appended rep
           = List.length (filter (λ h, h ∉ used (final headers order_list)) headers)
         ∧ unmatched rep = not_found (final headers order_list).
Proof.
  intros Hne Hdom Htok. unfold reorder.
  destruct headers as [|h0 hs] eqn:Hh; [done|]. rewrite <- Hh in *. clear Hne.
  destruct (build_index_ok headers Htok ∅) as [idx Hidx]. rewrite Hidx. simpl.
  rewrite (match_all_spec headers) by done. fold (final headers order_list).
  destruct (final_consistent headers order_list) as (_ & _ & Hsub).
  destruct (fetch_ok seqs (ordered_headers (final headers order_list)))
    as (first & -> & Hf1 & Hf2); [intros h Hin; by apply Hdom, Hsub|].
  destruct (fetch_ok seqs
              (filter (λ h, h ∉ used (final headers order_list)) headers))
    as (last & -> & Hl1 & Hl2).
  { intros h [_ Hin]%list_elem_of_filter. by apply Hdom. }
  simpl. eexists. split; [done|]. simpl. split; [|split; [|done]].
  - unfold output_order. by rewrite map_app, Hf1, Hl1.
  - by apply Forall_app.
Qed.

Lemma records_go_stripped (lines : list string) :
  ∀ cur, (∀ h parts, cur = Some (h, parts) → ∃ x, h = strip x) →
         Forall (λ r : string * string, ∃ x, r.1 = strip x) (records_go cur lines).
Proof.
  induction lines as [|line lines IH]; intros cur Hcur; simpl.
  - destruct cur as [[h parts]|]; [|done]. constructor; [|done]. simpl. eauto.
  - destruct (rstrip_by (Ascii.eqb LF) line) as [|c l]; [by apply IH|].
    destruct (startswith GT (String c l)).
    + apply Forall_app. split.
      * destruct cur as [[h parts]|]; [|done]. constructor; [|done]. simpl. eauto.
      * apply IH. intros h parts [= <- _]. eauto.
    + apply IH. intros h parts Heq. destruct cur as [[h' parts']|]; [|done].
      injection Heq as <- _. eauto.
Qed.

Lemma parsed_headers_tokens (text : string) headers seqs :
  parse_fasta text = (headers, seqs) →
  Forall (λ h, h ≠ EmptyString) headers →
  Forall (λ h, is_Some (first_token h)) headers.
Proof.
  rewrite parse_fasta_records. intros [= <- _] Hne.
  pose proof (records_go_stripped (readlines text) None ltac:(done)) as Hs.
  fold (fasta_records text) in Hs. revert Hne Hs.
  induction (fasta_records text) as [|r rs IH]; simpl; [done|].
  intros [Hh Hne]%Forall_cons [[x Hx] Hs]%Forall_cons.
  constructor; [|by apply IH]. rewrite Hx in *. by apply strip_first_token.
Qed.

Lemma run_ok (text : string) (order_list : list string) (wrap : Z) headers seqs :
  parse_fasta text = (headers, seqs) →
  headers ≠ [] →
  Forall (λ h, h ≠ EmptyString) headers →
  ∃ rep, run text order_list wrap = Ok rep
         ∧ map fst (written rep) = output_order headers order_list
         ∧ Forall (λ r : string * string, seqs !! r.1 = Some r.2) (written rep)
         ∧ output rep = render wrap (written rep)
         ∧ n_ordered rep = List.length (ordered_headers (final headers order_list))
         ∧ appended rep
           = List.length (filter (λ h, h ∉ used (final headers order_list)) headers)
         ∧ unmatched rep = not_found (final headers order_list).
Proof.
  intros Hparse Hne Hnonempty. unfold run. rewrite Hparse.
  apply reorder_ok; [done|by eapply parse_fasta_dom|by eapply parsed_headers_tokens].
Qed.

Lemma run_Ok_inv (text : string) (order_list : list string) (wrap : Z) rep :
  run text order_list wrap = Ok rep →
  (parse_fasta text).1 ≠ []
  ∧ Forall (λ h, is_Some (first_token h)) (parse_fasta text).1.
Proof.
  unfold run. destruct (parse_fasta text) as [headers seqs]. unfold reorder. simpl.
  destruct headers as [|h hs]; [done|].
  destruct (build_index ∅ (h :: hs)) as [idx| |] eqn:Hidx; try done.
  intros _. split; [done|]. by apply build_index_lookup in Hidx as [? _].
Qed.

(** C3. On the headers and the mapping of a parsed FASTA, and with the
    index of first tokens built from them, the body of the matching loop
    is one step of the policy [resolve]: an entry that is a full header
    not yet consumed is chosen itself; otherwise the first header in
    file order with the entry as first token and not yet consumed is
    chosen; otherwise the entry is recorded as not found. A chosen
    header is appended to the ordered headers and marked consumed. The
    loop starts with nothing ordered, consumed or missed, and takes the
    entries of the order list one after the other: the state after one
    more entry is the state after the entries before it, with that entry
    resolved against the headers consumed so far. After any order list
    the ordered headers are pairwise distinct input headers and are
    exactly the consumed ones, so that no header is chosen for two
    entries. *)
Theorem C3_matching_policy (text : string) (headers : list string)
    (seqs : gmap string string) (idx : gmap string (list string)) :
  parse_fasta text = (headers, seqs) →
  build_index ∅ headers = Ok idx →
  (∀ st entry,
     match_entry seqs idx st entry
     = match resolve headers (used st) entry with
       | Some h => Engine (ordered_headers st ++ [h]) ({[h]} ∪ used st) (not_found st)
       | None => Engine (ordered_headers st) (used st) (not_found st ++ [entry])
       end)
  ∧ match_all seqs idx [] = Engine [] ∅ []
  ∧ (∀ order_list entry,
       match_all seqs idx (order_list ++ [entry])
       = let st := match_all seqs idx order_list in
         match resolve headers (used st) entry with
         | Some h => Engine (ordered_headers st ++ [h]) ({[h]} ∪ used st) (not_found st)
         | None => Engine (ordered_headers st) (used st) (not_found st ++ [entry])
         end)
  ∧ (∀ order_list,
       NoDup (ordered_headers (match_all seqs idx order_list))
       ∧ (∀ h, h ∈ used (match_all seqs idx order_list)
               ↔ h ∈ ordered_headers (match_all seqs idx order_list))
       ∧ (∀ h, h ∈ ordered_headers (match_all seqs idx order_list) → h ∈ headers))
  ∧ (∀ order_list wrap rep,
       run text order_list wrap = Ok rep →
       map fst (written rep)
       = ordered_headers (match_all seqs idx order_list)
         ++ filter (λ h, h ∉ used (match_all seqs idx order_list)) headers
       ∧ unmatched rep = not_found (match_all seqs idx order_list)).
Proof.
  intros Hparse Hidx. pose proof (parse_fasta_dom _ _ _ Hparse) as Hdom.
  split; [|split; [|split; [|split]]].
  - intros st entry. by rewrite (match_entry_step headers).
  - done.
  - intros order_list entry. unfold match_all. rewrite foldl_app. cbn [foldl].
    by rewrite (match_entry_step headers).
  - intros order_list. rewrite (match_all_spec headers) by done.
    apply final_consistent.
  - intros order_list wrap rep Hrun.
    destruct (run_Ok_inv _ _ _ _ Hrun) as [Hne Htok].
    rewrite Hparse in Hne, Htok. simpl in Hne, Htok.
    destruct (reorder_ok headers seqs order_list wrap Hne Hdom Htok)
      as (rep' & Hrep & Hfst & _ & _ & _ & _ & Hun).
    unfold run in Hrun. rewrite Hparse, Hrep in Hrun. injection Hrun as <-.
    by rewrite (match_all_spec headers).
Qed.

Lemma C3_matching_policy_witness :
  (∀ st entry,
     match_entry three_seqs three_index st entry
     = match resolve three_headers (used st) entry with
       | Some h => Engine (ordered_headers st ++ [h]) ({[h]} ∪ used st) (not_found st)
       | None => Engine (ordered_headers st) (used st) (not_found st ++ [entry])
       end)
  ∧ match_all three_seqs three_index [] = Engine [] ∅ []
  ∧ (∀ order_list entry,
       match_all three_seqs three_index (order_list ++ [entry])
       = let st := match_all three_seqs three_index order_list in
         match resolve three_headers (used st) entry with
         | Some h => Engine (ordered_headers st ++ [h]) ({[h]} ∪ used st) (not_found st)
         | None => Engine (ordered_headers st) (used st) (not_found st ++ [entry])
         end)
  ∧ (∀ order_list,
       NoDup (ordered_headers (match_all three_seqs three_index order_list))
       ∧ (∀ h, h ∈ used (match_all three_seqs three_index order_list)
               ↔ h ∈ ordered_headers (match_all three_seqs three_index order_list))
       ∧ (∀ h, h ∈ ordered_headers (match_all three_seqs three_index order_list)
               → h ∈ three_headers))
  ∧ (∀ order_list wrap rep,
       run three_contigs order_list wrap = Ok rep →
       map fst (written rep)
       = ordered_headers (match_all three_seqs three_index order_list)
         ++ filter (λ h, h ∉ used (match_all three_seqs three_index order_list))
                   three_headers
       ∧ unmatched rep = not_found (match_all three_seqs three_index order_list)).
Proof.
  apply (C3_matching_policy three_contigs three_headers three_seqs three_index).
  - vm_compute. reflexivity.
  - vm_compute. reflexivity.
Defined.

(** *** No header lost, none written twice *)

Lemma output_order_elem (headers order_list : list string) (h : string) :
  h ∈ output_order headers order_list ↔ h ∈ headers.
Proof.
  destruct (final_consistent headers order_list) as (_ & Hused & Hsub).
  unfold output_order. rewrite elem_of_app, list_elem_of_filter. split.
  - intros [Hh|[_ Hh]]; [by apply Hsub|done].
  - intros Hh. destruct (decide (h ∈ used (final headers order_list))) as [Hu|Hu].
    + left. by apply Hused.
    + by right.
Qed.

Lemma output_order_NoDup (headers order_list : list string) :
  NoDup headers → NoDup (output_order headers order_list).
Proof.
  intros Hnd. destruct (final_consistent headers order_list) as (HndO & Hused & _).
  unfold output_order. apply NoDup_app. split; [done|]. split.
  - intros h Hh [Hout _]%list_elem_of_filter. by apply Hout, Hused.
  - by apply NoDup_filter.
Qed.

(** C2, as stated, fails: the header of a marker line without text is the
    empty string; it is distinct from every other header, yet the run
    stops on [h.split()[0]] before anything is written. *)
Lemma C2_empty_header_counterexample :
  (parse_fasta empty_header_fasta).1 = [EmptyString]
  ∧ NoDup (parse_fasta empty_header_fasta).1
  ∧ run empty_header_fasta [] 60 = Raise IndexError
  ∧ ¬ (∀ h, h ∈ (parse_fasta empty_header_fasta).1 →
            h ∈ map fst (records_written (run empty_header_fasta [] 60))).
Proof.
  split; [by vm_compute|]. split; [vm_compute; apply NoDup_singleton|].
  split; [by vm_compute|]. intros H.
  specialize (H EmptyString). vm_compute in H.
  specialize (H ltac:(left)). by apply elem_of_nil in H.
Qed.

(** C2, amended. For a FASTA whose headers are pairwise distinct and
    none of them empty, and for every order list: without any record the
    tool exits with status 1; otherwise the run completes, and the
    headers of the records written are pairwise distinct and are exactly
    the input headers (a permutation of them), each written with the
    sequence the mapping holds for it. *)
Theorem C2_each_header_written_once (text : string) (order_list : list string)
    (wrap : Z) (headers : list string) (seqs : gmap string string) :
  parse_fasta text = (headers, seqs) →
  NoDup headers →
  Forall (λ h, h ≠ EmptyString) headers →
  (headers = [] ∧ run text order_list wrap = Exit 1)
  ∨ ∃ rep, run text order_list wrap = Ok rep
           ∧ NoDup (map fst (written rep))
           ∧ (∀ h, h ∈ map fst (written rep) ↔ h ∈ headers)
           ∧ map fst (written rep) ≡ₚ headers
           ∧ Forall (λ r : string * string, seqs !! r.1 = Some r.2) (written rep)
           ∧ output rep = render wrap (written rep).
Proof.
  intros Hparse Hnd Hne. destruct (decide (headers = [])) as [->|Hrec].
  - left. split; [done|]. unfold run. by rewrite Hparse.
  - right.
    destruct (run_ok text order_list wrap headers seqs Hparse Hrec Hne)
      as (rep & Hrun & Hfst & Hseq & Hout & _).
    exists rep. split; [done|]. rewrite Hfst.
    pose proof (output_order_NoDup headers order_list Hnd) as HndO.
    split; [done|]. split; [apply output_order_elem|]. split; [|done].
    apply NoDup_Permutation; [done|done|apply output_order_elem].
Qed.

Lemma C2_each_header_written_once_witness :
  (three_headers = [] ∧ run three_contigs ["c2"; "c1"; "c2"; "zz"] 60 = Exit 1)
  ∨ ∃ rep, run three_contigs ["c2"; "c1"; "c2"; "zz"] 60 = Ok rep
           ∧ NoDup (map fst (written rep))
           ∧ (∀ h, h ∈ map fst (written rep) ↔ h ∈ three_headers)
           ∧ map fst (written rep) ≡ₚ three_headers
           ∧ Forall (λ r : string * string, three_seqs !! r.1 = Some r.2)
                    (written rep)
           ∧ output rep = render 60 (written rep).
Proof.
  apply (C2_each_header_written_once three_contigs ["c2"; "c1"; "c2"; "zz"] 60
           three_headers three_seqs).
  - vm_compute. reflexivity.
  - apply (bool_decide_unpack _). vm_compute. exact I.
  - apply (bool_decide_unpack _). vm_compute. exact I.
Defined.

Lemma filter_none {A} (P : A → Prop) `{!∀ x, Decision (P x)} (l : list A) :
  Forall (λ x, ¬ P x) l → filter P l = [].
Proof.
  induction 1 as [|x l Hx _ IH]; [done|].
  by rewrite filter_cons, decide_False.
Qed.

Lemma filter_all {A} (P : A → Prop) `{!∀ x, Decision (P x)} (l : list A) :
  Forall P l → filter P l = l.
Proof.
  induction 1 as [|x l Hx _ IH]; [done|].
  by rewrite filter_cons, decide_True, IH.
Qed.

(** *** The order list of the file itself *)

Lemma foldl_step_own_order (headers : list string) :
  NoDup headers →
  ∀ suf pre st,
    headers = pre ++ suf →
    ordered_headers st = pre →
    (∀ h, h ∈ used st ↔ h ∈ pre) →
    not_found st = [] →
    ordered_headers (foldl (step headers) st suf) = headers
    ∧ not_found (foldl (step headers) st suf) = []
    ∧ ∀ h, h ∈ used (foldl (step headers) st suf) ↔ h ∈ headers.
Proof.
  intros Hnd. induction suf as [|e suf IH]; intros pre st Hh Hord Hused Hnf; simpl.
  - rewrite app_nil_r in Hh. by subst.
  - assert (Hres : resolve headers (used st) e = Some e).
    { unfold resolve. rewrite bool_decide_eq_true_2; [done|]. split.
      - rewrite Hh. apply elem_of_app. right. left.
      - rewrite Hused. rewrite Hh in Hnd. apply NoDup_app in Hnd as (_ & Hdis & _).
        intros Hin. apply (Hdis e Hin). left. }
    assert (Hstep : step headers st e
                    = Engine (ordered_headers st ++ [e]) ({[e]} ∪ used st)
                             (not_found st))
      by (unfold step; by rewrite Hres).
    rewrite Hstep. apply (IH (pre ++ [e])); simpl.
    + by rewrite <- app_assoc.
    + by rewrite Hord.
    + intros h. rewrite elem_of_union, elem_of_singleton, elem_of_app,
        list_elem_of_singleton, Hused. tauto.
    + done.
Qed.

Lemma own_order (headers : list string) :
  NoDup headers →
  output_order headers headers = headers
  ∧ ordered_headers (final headers headers) = headers
  ∧ not_found (final headers headers) = []
  ∧ filter (λ h, h ∉ used (final headers headers)) headers = [].
Proof.
  intros Hnd.
  destruct (foldl_step_own_order headers Hnd headers [] (Engine [] ∅ []))
    as (Hord & Hnf & Hused); try done.
  { intros h. simpl. rewrite elem_of_nil. split; [|done]. apply not_elem_of_empty. }
  fold (final headers headers) in Hord, Hnf, Hused.
  assert (Hnil : filter (λ h, h ∉ used (final headers headers)) headers = []).
  { apply filter_none, Forall_forall. intros h Hh Hout.
    by apply Hout, Hused. }
  unfold output_order. rewrite Hord, Hnil. by rewrite app_nil_r.
Qed.

Lemma same_records (m : gmap string string) (xs ys : list (string * string)) :
  map fst xs = map fst ys →
  Forall (λ r : string * string, m !! r.1 = Some r.2) xs →
  Forall (λ r : string * string, m !! r.1 = Some r.2) ys →
  xs = ys.
Proof.
  revert ys. induction xs as [|[h q] xs IH]; intros [|[h' q'] ys]; simpl; try done.
  intros [= <- Hfst] [Hx Hxs]%Forall_cons [Hy Hys]%Forall_cons. simpl in *.
  f_equal; [|by apply IH]. congruence.
Qed.

(** *** Running the policy on its own output order *)

Lemma step_prefix (headers : list string) (st : engine) (e : string) :
  ordered_headers st `prefix_of` ordered_headers (step headers st e).
Proof.
  unfold step. destruct (resolve headers (used st) e); simpl.
  - by apply prefix_app_r.
  - done.
Qed.

Lemma foldl_step_prefix (headers order_list : list string) :
  ∀ st, ordered_headers st
        `prefix_of` ordered_headers (foldl (step headers) st order_list).
Proof.
  induction order_list as [|e es IH]; intros st; simpl; [done|].
  etrans; [apply (step_prefix headers st e)|apply IH].
Qed.

Lemma reordered_elem (headers : list string) (st : engine) (h : string) :
  consistent headers st →
  h ∈ ordered_headers st ++ filter (λ h, h ∉ used st) headers ↔ h ∈ headers.
Proof.
  intros (_ & Hused & Hsub). rewrite elem_of_app, list_elem_of_filter. split.
  - intros [Hh|[_ Hh]]; [by apply Hsub|done].
  - intros Hh. destruct (decide (h ∈ used st)) as [Hu|Hu].
    + left. by apply Hused.
    + by right.
Qed.

Lemma resolve_reordered (headers : list string) (st : engine) (e : string)
    (suf : list string) :
  consistent headers st →
  let stf := foldl (step headers) (step headers st e) suf in
  resolve (ordered_headers stf ++ filter (λ h, h ∉ used stf) headers) (used st) e
  = resolve headers (used st) e.
Proof.
  intros Hst stf.
  assert (Hstf : consistent headers stf)
    by by apply foldl_step_consistent, step_consistent.
  pose proof (foldl_step_prefix headers suf (step headers st e)) as Hpre.
  fold stf in Hpre. revert Hpre. unfold step at 1, resolve.
  rewrite (bool_decide_ext (e ∈ ordered_headers stf ++ _ ∧ e ∉ used st)
             (e ∈ headers ∧ e ∉ used st))
    by by rewrite reordered_elem.
  case_bool_decide as Hd; [done|].
  set (P := λ h, first_token h = Some e ∧ h ∉ used st).
  destruct (head (filter P headers)) as [c|] eqn:Hhead; simpl.
  - intros [k Hk]. rewrite Hk, <- !app_assoc, !filter_app.
    destruct Hst as (_ & Hused & _).
    rewrite (filter_none P (ordered_headers st)).
    + apply head_Some_elem_of, list_elem_of_filter in Hhead as [Hc _].
      simpl. rewrite filter_cons, decide_True by done. done.
    + apply Forall_forall. intros h Hh [_ Hout]. by apply Hout, Hused.
  - intros _. rewrite filter_none; [done|].
    apply Forall_forall. intros h Hh%reordered_elem HP; [|done].
    apply head_None in Hhead.
    assert (Hin : h ∈ filter P headers) by by apply list_elem_of_filter.
    rewrite Hhead in Hin. by apply elem_of_nil in Hin.
Qed.

Lemma step_ext (headers1 headers2 : list string) (st : engine) (e : string) :
  resolve headers1 (used st) e = resolve headers2 (used st) e →
  step headers1 st e = step headers2 st e.
Proof. unfold step. by intros ->. Qed.

Lemma foldl_step_reordered (headers : list string) (suf : list string) :
  ∀ st, consistent headers st →
    foldl (step (ordered_headers (foldl (step headers) st suf)
                 ++ filter (λ h, h ∉ used (foldl (step headers) st suf)) headers))
          st suf
    = foldl (step headers) st suf.
Proof.
  induction suf as [|e suf IH]; intros st Hst; simpl; [done|].
  set (stf := foldl (step headers) (step headers st e) suf).
  assert (Hstep : step (ordered_headers stf ++ filter (λ h, h ∉ used stf) headers)
                       st e = step headers st e).
  { apply step_ext. subst stf. by apply resolve_reordered. }
  rewrite Hstep. apply IH. by apply step_consistent.
Qed.

Lemma output_order_idem (headers order_list : list string) :
  final (output_order headers order_list) order_list = final headers order_list
  ∧ output_order (output_order headers order_list) order_list
    = output_order headers order_list.
Proof.
  assert (Hinit : consistent headers (Engine [] ∅ [])).
  { split; [apply NoDup_nil_2|]. simpl. split; intros h; [|by intros ?%elem_of_nil].
    rewrite elem_of_nil. split; [|done]. apply not_elem_of_empty. }
  pose proof (foldl_step_reordered headers order_list _ Hinit) as Hf.
  fold (final headers order_list) in Hf.
  assert (Hfin : final (output_order headers order_list) order_list
                 = final headers order_list) by exact Hf.
  split; [done|]. unfold output_order at 1. rewrite Hfin. unfold output_order.
  destruct (final_consistent headers order_list) as (_ & Hused & _).
  rewrite filter_app. f_equal.
  rewrite filter_none, filter_all; [done| |].
  - apply Forall_forall. by intros h [? _]%list_elem_of_filter.
  - apply Forall_forall. intros h Hh Hout. by apply Hout, Hused.
Qed.

(** *** Reading back what was written *)

Lemma store_lookup_elem (recs : list (string * string)) :
  ∀ m h q, store m recs !! h = Some q → m !! h = Some q ∨ (h, q) ∈ recs.
Proof.
  induction recs as [|[h0 q0] recs IH]; intros m h q; simpl; [by left|].
  intros [Hm|Hin]%IH; [|right; by right].
  destruct (decide (h0 = h)) as [->|Hne].
  - rewrite lookup_insert_eq in Hm. injection Hm as ->. right. left.
  - rewrite lookup_insert_ne in Hm by done. by left.
Qed.

Lemma records_go_headers q (lines : list string) :
  Forall (λ l, sforall q (rstrip_by (Ascii.eqb LF) l) = true) lines →
  ∀ cur, (∀ h parts, cur = Some (h, parts) → sforall q h = true) →
         Forall (λ r : string * string, sforall q r.1 = true) (records_go cur lines).
Proof.
  induction 1 as [|line lines Hl _ IH]; intros cur Hcur; simpl.
  - destruct cur as [[h parts]|]; [|done]. constructor; [|done]. simpl. eauto.
  - destruct (rstrip_by (Ascii.eqb LF) line) as [|c l] eqn:Hline; [by apply IH|].
    destruct (startswith GT (String c l)).
    + apply Forall_app. split.
      * destruct cur as [[h parts]|]; [|done]. constructor; [|done]. simpl. eauto.
      * apply IH. intros h parts [= <- _].
        apply sforall_strip, (sforall_tail1 q (String c l)), Hl.
    + apply IH. intros h parts Heq. destruct cur as [[h' parts']|]; [|done].
      injection Heq as <- _. eauto.
Qed.

Lemma records_go_seqs q (lines : list string) :
  Forall (λ l, startswith GT (rstrip_by (Ascii.eqb LF) l) = false →
               sforall q (rstrip_by (Ascii.eqb LF) l) = true) lines →
  ∀ cur, (∀ h parts, cur = Some (h, parts) →
                     Forall (λ s, sforall q s = true) parts) →
         Forall (λ r : string * string, sforall q r.2 = true) (records_go cur lines).
Proof.
  induction 1 as [|line lines Hl _ IH]; intros cur Hcur; simpl.
  - destruct cur as [[h parts]|]; [|done]. constructor; [|done]. simpl.
    apply sforall_join. eauto.
  - destruct (rstrip_by (Ascii.eqb LF) line) as [|c l] eqn:Hline; [by apply IH|].
    destruct (startswith GT (String c l)) eqn:Hgt.
    + apply Forall_app. split.
      * destruct cur as [[h parts]|]; [|done]. constructor; [|done]. simpl.
        apply sforall_join. eauto.
      * apply IH. by intros h parts [= _ <-].
    + apply IH. intros h parts Heq. destruct cur as [[h' parts']|]; [|done].
      injection Heq as _ <-. apply Forall_app. split; [eauto|].
      constructor; [|done]. apply sforall_strip. by apply Hl.
Qed.

Lemma seq_lines_forall q (wrap : Z) (seq : string) :
  sforall q seq = true → Forall (λ c, sforall q c = true) (seq_lines wrap seq).
Proof.
  intros Hq. unfold seq_lines. destruct (wrapping wrap).
  - apply Forall_forall. intros c (i & -> & _)%list_elem_of_fmap.
    by apply sforall_slice.
  - by constructor.
Qed.

Lemma records_go_seq_lines (chunks : list string) :
  Forall (λ c, no_eol c = true ∧ no_marker c = true) chunks →
  ∀ h parts rest,
    ∃ parts', records_go (Some (h, parts)) (map (λ b, b +:+ NL) chunks ++ rest)
              = records_go (Some (h, parts')) rest.
Proof.
  induction 1 as [|c cs [Heol Hgt] _ IH]; intros h parts rest; simpl; [by eexists|].
  rewrite rstrip_line_end by done. destruct c as [|a c]; [apply IH|].
  rewrite no_marker_startswith by done. apply IH.
Qed.

Lemma records_go_marker_line cur (h : string) (rest : list string) :
  no_eol h = true →
  records_go cur ((String GT h +:+ NL) :: rest)
  = flush_record cur ++ records_go (Some (strip h, [])) rest.
Proof.
  intros Hh. cbn [records_go].
  rewrite (rstrip_line_end (String GT h)) by by apply no_eol_marker.
  cbn [startswith tail1]. by rewrite Ascii.eqb_refl.
Qed.

Lemma records_go_rendered (wrap : Z) (recs : list (string * string)) :
  Forall readable recs →
  ∀ cur,
    map fst (records_go cur
               (map (λ b, b +:+ NL) (List.concat (map (record_lines wrap) recs))))
    = map fst (flush_record cur) ++ map fst recs.
Proof.
  induction 1 as [|[h q] recs (Hh & Hstrip & Hq & Hgt) _ IH]; intros cur.
  - simpl. by rewrite app_nil_r.
  - cbn [map List.concat record_lines fst snd] in *.
    unfold record_lines at 1. cbn [fst snd].
    rewrite <- app_comm_cons, map_cons, map_app.
    rewrite records_go_marker_line, Hstrip, map_app by done. f_equal.
    destruct (records_go_seq_lines (seq_lines wrap q)) with
      (h := h) (parts := @nil string)
      (rest := map (λ b, b +:+ NL) (List.concat (map (record_lines wrap) recs)))
      as [parts' ->].
    { pose proof (seq_lines_forall _ wrap q Hq) as H1.
      pose proof (seq_lines_forall _ wrap q Hgt) as H2.
      rewrite Forall_forall in *. intros c Hc. split; [by apply H1|by apply H2]. }
    by rewrite IH.
Qed.

Lemma record_lines_clean (wrap : Z) (recs : list (string * string)) :
  Forall readable recs →
  Forall (λ b, no_eol b = true) (List.concat (map (record_lines wrap) recs)).
Proof.
  induction 1 as [|[h q] recs (Hh & _ & Hq & _) _ IH]; [done|].
  cbn [map List.concat]. apply Forall_app. split; [|done].
  unfold record_lines. constructor; [by apply no_eol_marker|].
  by apply seq_lines_forall.
Qed.

Lemma rendered_records (wrap : Z) (recs : list (string * string)) :
  Forall readable recs →
  map fst (fasta_records (render wrap recs)) = map fst recs.
Proof.
  intros Hrecs. unfold fasta_records.
  rewrite render_lines, readlines_join by by apply record_lines_clean.
  by rewrite records_go_rendered.
Qed.

Lemma rendered_headers (wrap : Z) (recs : list (string * string)) :
  Forall readable recs → (parse_fasta (render wrap recs)).1 = map fst recs.
Proof.
  intros Hrecs. rewrite parse_fasta_records. simpl. by apply rendered_records.
Qed.

Lemma parsed_records_clean (text : string) :
  Forall (λ r : string * string,
            no_eol r.1 = true ∧ strip r.1 = r.1 ∧ no_eol r.2 = true)
         (fasta_records text).
Proof.
  pose proof (readlines_go_clean text false EmptyString eq_refl) as Hlines.
  fold (readlines text) in Hlines.
  pose proof (records_go_headers _ _ Hlines None ltac:(done)) as Hh.
  pose proof (records_go_stripped (readlines text) None ltac:(done)) as Hs.
  assert (Hq : Forall (λ r : string * string, no_eol r.2 = true)
                      (records_go None (readlines text))).
  { apply records_go_seqs; [|done]. eapply Forall_impl; [exact Hlines|]. auto. }
  fold (fasta_records text) in Hh, Hs, Hq.
  rewrite Forall_forall in *. intros r Hr. split; [by apply Hh|].
  split; [|by apply Hq]. destruct (Hs r Hr) as [x ->]. apply strip_idemp.
Qed.

Lemma rendered_seqs_no_marker (wrap : Z) (recs : list (string * string)) :
  Forall readable recs →
  Forall (λ r : string * string, no_marker r.2 = true)
         (fasta_records (render wrap recs)).
Proof.
  intros Hrecs. unfold fasta_records.
  rewrite render_lines, readlines_join by by apply record_lines_clean.
  apply records_go_seqs; [|done].
  pose proof (record_lines_clean wrap recs Hrecs) as Hclean.
  assert (Hgt : Forall (λ b, startswith GT b = false → no_marker b = true)
                       (List.concat (map (record_lines wrap) recs))).
  { clear Hclean. induction Hrecs as [|[h q] recs (_ & _ & _ & Hq) _ IH]; [done|].
    cbn [map List.concat]. apply Forall_app. split; [|done].
    unfold record_lines. constructor.
    - intros Hx. by vm_compute in Hx.
    - eapply Forall_impl; [by apply seq_lines_forall|]. auto. }
  revert Hclean Hgt. generalize (List.concat (map (record_lines wrap) recs)).
  intros bodies. induction 1 as [|b bs Hb _ IH]; [done|].
  intros [Hgt Hrest]%Forall_cons. cbn [map]. constructor; [|by apply IH].
  by rewrite rstrip_line_end.
Qed.

Lemma written_readable (text : string) (recs : list (string * string)) :
  Forall (λ r : string * string, store ∅ (fasta_records text) !! r.1 = Some r.2) recs →
  Forall (λ r : string * string, no_marker r.2 = true) (fasta_records text)
  ∨ Forall (λ r : string * string, no_marker r.2 = true) recs →
  Forall readable recs.
Proof.
  intros Hlook Hgt. pose proof (parsed_records_clean text) as Hclean.
  apply Forall_forall. intros [h q] Hr.
  rewrite Forall_forall in Hlook, Hclean. specialize (Hlook _ Hr). simpl in Hlook.
  apply store_lookup_elem in Hlook as [Hl|Hin]; [by rewrite lookup_empty in Hl|].
  destruct (Hclean _ Hin) as (Hh & Hs & Hq). repeat split; try done.
  destruct Hgt as [Hgt|Hgt]; rewrite Forall_forall in Hgt.
  - by apply (Hgt _ Hin).
  - by apply (Hgt _ Hr).
Qed.

Lemma leftover_reordered (headers order_list : list string) :
  filter (λ h, h ∉ used (final headers order_list)) (output_order headers order_list)
  = filter (λ h, h ∉ used (final headers order_list)) headers.
Proof.
  destruct (final_consistent headers order_list) as (_ & Hused & _).
  unfold output_order. rewrite filter_app, filter_none, filter_all; [done| |].
  - apply Forall_forall. by intros h [? _]%list_elem_of_filter.
  - apply Forall_forall. intros h Hh Hout. by apply Hout, Hused.
Qed.

(** C8, as stated, fails: a sequence line that starts with blanks and
    then the marker is stored trimmed, so the first output holds the line
    ">b"; read again it is a record of its own, the order entry "b" now
    finds it, and the second run puts it first. *)
Lemma C8_marker_in_sequence_counterexample :
  ∃ rep1 rep2,
    run marker_in_sequence_fasta ["b"] 60 = Ok rep1
    ∧ run (output rep1) ["b"] 60 = Ok rep2
    ∧ written rep1 = [("a", ">b"); ("c", "")]
    ∧ (parse_fasta (output rep1)).1 = ["a"; "b"; "c"]
    ∧ map fst (written rep2) = ["b"; "a"; "c"]
    ∧ (parse_fasta (output rep2)).1 = ["b"; "a"; "c"]
    ∧ map fst (written rep2) ≠ map fst (written rep1)
    ∧ (parse_fasta (output rep2)).1 ≠ (parse_fasta (output rep1)).1.
Proof.
  eexists _, _. split; [vm_compute; reflexivity|].
  split; [vm_compute; reflexivity|]. by vm_compute.
Qed.

(** C8, amended. When a run completes and no sequence it wrote holds the
    record marker, a second run on its output, with the same order list
    and width, completes as well and writes the records under the same
    headers in the same order; the headers read from the first output
    are those the first run wrote, and the headers read from the second
    output are the same again; the figures of the summary agree. *)
Theorem C8_idempotent_record_order (text : string) (order_list : list string)
    (wrap : Z) (rep1 : report) :
  run text order_list wrap = Ok rep1 →
  Forall (λ r : string * string, no_marker r.2 = true) (written rep1) →
  ∃ rep2, run (output rep1) order_list wrap = Ok rep2
          ∧ map fst (written rep2) = map fst (written rep1)
          ∧ (parse_fasta (output rep1)).1 = map fst (written rep1)
          ∧ (parse_fasta (output rep2)).1 = (parse_fasta (output rep1)).1
          ∧ n_ordered rep2 = n_ordered rep1
          ∧ appended rep2 = appended rep1
          ∧ unmatched rep2 = unmatched rep1.
Proof.
  intros Hrun Hgt. destruct (run_Ok_inv _ _ _ _ Hrun) as [Hne Htok].
  destruct (parse_fasta text) as [headers seqs] eqn:Hparse. simpl in Hne, Htok.
  pose proof (parse_fasta_dom _ _ _ Hparse) as Hdom.
  destruct (reorder_ok headers seqs order_list wrap Hne Hdom Htok)
    as (rep & Hrep & Hfst & Hseq & Hout & Hn & Happ & Hun).
  assert (rep = rep1) as ->.
  { unfold run in Hrun. rewrite Hparse in Hrun. congruence. }
  clear Hrep. rewrite parse_fasta_records in Hparse. injection Hparse as Hh Hs.
  assert (Hread : Forall readable (written rep1)).
  { apply (written_readable text); [by rewrite Hs|by right]. }
  assert (Hhead1 : (parse_fasta (output rep1)).1 = map fst (written rep1)).
  { rewrite Hout. by apply rendered_headers. }
  destruct (parse_fasta (output rep1)) as [headers2 seqs2] eqn:Hparse2.
  simpl in Hhead1. subst headers2. rewrite Hfst in *.
  pose proof (parse_fasta_dom _ _ _ Hparse2) as Hdom2.
  assert (Hne2 : output_order headers order_list ≠ []).
  { destruct headers as [|h hs]; [done|]. intros Hnil.
    assert (Hin : h ∈ output_order (h :: hs) order_list)
      by (apply output_order_elem; left).
    rewrite Hnil in Hin. by apply elem_of_nil in Hin. }
  assert (Htok2 : Forall (λ h, is_Some (first_token h))
                         (output_order headers order_list)).
  { rewrite Forall_forall in *. intros h Hin%output_order_elem. by apply Htok. }
  destruct (reorder_ok _ seqs2 order_list wrap Hne2 Hdom2 Htok2)
    as (rep2 & Hrep2 & Hfst2 & Hseq2 & Hout2 & Hn2 & Happ2 & Hun2).
  destruct (output_order_idem headers order_list) as [Hfin Hidem].
  rewrite Hfin in Hn2, Happ2, Hun2. rewrite leftover_reordered in Happ2.
  rewrite Hidem in Hfst2.
  exists rep2. split; [unfold run; by rewrite Hparse2|]. split; [done|].
  split; [done|]. split; [|by rewrite Hn2, Happ2, Hun2].
  simpl. rewrite <- Hfst2, Hout2. apply rendered_headers.
  rewrite parse_fasta_records in Hparse2. injection Hparse2 as _ Hs2.
  apply (written_readable (output rep1)); [by rewrite Hs2|]. left.
  rewrite Hout. by apply rendered_seqs_no_marker.
Qed.

Lemma C8_idempotent_record_order_witness :
  ∃ rep2, run (output three_report) ["c2"; "c1"] 4 = Ok rep2
          ∧ map fst (written rep2) = map fst (written three_report)
          ∧ (parse_fasta (output three_report)).1 = map fst (written three_report)
          ∧ (parse_fasta (output rep2)).1 = (parse_fasta (output three_report)).1
          ∧ n_ordered rep2 = n_ordered three_report
          ∧ appended rep2 = appended three_report
          ∧ unmatched rep2 = unmatched three_report.
Proof.
  apply (C8_idempotent_record_order three_contigs ["c2"; "c1"] 4 three_report).
  - vm_compute. reflexivity.
  - apply (bool_decide_unpack _). vm_compute. exact I.
Defined.

(** *** The round trip *)

Lemma strip_no_space (s : string) : no_space s = true → strip s = s.
Proof.
  intros Hs. unfold strip. rewrite rstrip_by_id by exact Hs.
  destruct s as [|c r]; [done|]. simpl in *.
  apply andb_true_iff in Hs as [Hc _]. by apply negb_true_iff in Hc as ->.
Qed.

Lemma records_go_chunks (chunks : list string) :
  Forall (λ c, no_eol c = true ∧ no_marker c = true ∧ no_space c = true) chunks →
  ∀ h parts rest,
    ∃ parts', records_go (Some (h, parts)) (map (λ b, b +:+ NL) chunks ++ rest)
              = records_go (Some (h, parts')) rest
              ∧ join parts' = join parts +:+ join chunks.
Proof.
  induction 1 as [|c cs (Heol & Hgt & Hsp) _ IH]; intros h parts rest.
  - exists parts. split; [done|]. by rewrite append_nil_r.
  - cbn [map app records_go]. rewrite rstrip_line_end by done.
    destruct c as [|a c].
    + destruct (IH h parts rest) as (parts' & -> & Hj). exists parts'.
      split; [done|]. by rewrite join_cons, append_nil_l.
    + rewrite no_marker_startswith by done. rewrite strip_no_space by done.
      destruct (IH h (parts ++ [String a c]) rest) as (parts' & -> & Hj).
      exists parts'. split; [done|].
      rewrite Hj, join_app, (join_cons (String a c) cs), (join_cons _ []).
      by rewrite append_nil_r, append_assoc.
Qed.

Lemma records_go_written (wrap : Z) (recs : list (string * string)) :
  Forall readable recs →
  Forall (λ r : string * string, no_space r.2 = true) recs →
  ∀ cur,
    records_go cur
      (map (λ b, b +:+ NL) (List.concat (map (record_lines wrap) recs)))
    = flush_record cur ++ recs.
Proof.
  induction 1 as [|[h q] recs (Hh & Hstrip & Hq & Hgt) _ IH]; intros Hsp cur.
  - simpl. by rewrite app_nil_r.
  - apply Forall_cons in Hsp as [Hsq Hsp]. simpl in Hh, Hstrip, Hq, Hgt, Hsq.
    cbn [map List.concat]. unfold record_lines at 1. cbn [fst snd].
    rewrite <- app_comm_cons, map_cons, map_app.
    rewrite records_go_marker_line, Hstrip by done. f_equal.
    destruct (records_go_chunks (seq_lines wrap q)) with
      (h := h) (parts := @nil string)
      (rest := map (λ b, b +:+ NL) (List.concat (map (record_lines wrap) recs)))
      as (parts' & -> & Hj).
    { pose proof (seq_lines_forall _ wrap q Hq) as H1.
      pose proof (seq_lines_forall _ wrap q Hgt) as H2.
      pose proof (seq_lines_forall _ wrap q Hsq) as H3.
      rewrite Forall_forall in *. intros c Hc.
      split; [by apply H1|]. split; [by apply H2|by apply H3]. }
    rewrite (IH Hsp). simpl. rewrite Hj, seq_lines_join. done.
Qed.

Lemma rendered_records_back (wrap : Z) (recs : list (string * string)) :
  Forall readable recs →
  Forall (λ r : string * string, no_space r.2 = true) recs →
  fasta_records (render wrap recs) = recs.
Proof.
  intros Hrecs Hsp. unfold fasta_records.
  rewrite render_lines, readlines_join by by apply record_lines_clean.
  by rewrite records_go_written.
Qed.

(** C7, as stated, fails: of two records under one header the mapping
    keeps the later sequence, the second order entry finds the header
    consumed, and one record is written where the input has two; the
    output, read back, holds one header where the input holds two. *)
Lemma C7_duplicate_header_counterexample :
  fasta_records twice_a_fasta = [("a", "AC"); ("a", "GT")]
  ∧ (parse_fasta twice_a_fasta).1 = ["a"; "a"]
  ∧ records_written (run twice_a_fasta ["a"; "a"] 60) = [("a", "GT")]
  ∧ records_written (run twice_a_fasta (parse_fasta twice_a_fasta).1 60)
    ≠ fasta_records twice_a_fasta
  ∧ ∃ rep, run twice_a_fasta (parse_fasta twice_a_fasta).1 60 = Ok rep
           ∧ output rep = ">a" +:+ NL +:+ "GT" +:+ NL
           ∧ (parse_fasta (output rep)).1 = ["a"]
           ∧ parse_fasta (output rep) ≠ parse_fasta twice_a_fasta.
Proof.
  split; [by vm_compute|]. split; [by vm_compute|]. split; [by vm_compute|].
  split; [by vm_compute|]. eexists. split; [vm_compute; reflexivity|].
  split; [by vm_compute|]. split; [by vm_compute|].
  intros Heq. apply (f_equal fst) in Heq. by vm_compute in Heq.
Qed.

(** Distinct headers are not enough. A sequence that holds the marker is
    written as a line that reads back as a record of its own, and a
    sequence with a blank inside, wrapped behind the blank, reads back
    without it. *)
Lemma round_trip_needs_plain_sequences :
  (∃ rep, run marker_in_sequence_fasta (parse_fasta marker_in_sequence_fasta).1 60
          = Ok rep
          ∧ (parse_fasta marker_in_sequence_fasta).1 = ["a"; "c"]
          ∧ (parse_fasta (output rep)).1 = ["a"; "b"; "c"])
  ∧ (∃ rep, run spaced_sequence_fasta (parse_fasta spaced_sequence_fasta).1 2
            = Ok rep
            ∧ fasta_records spaced_sequence_fasta = [("a", "A C")]
            ∧ fasta_records (output rep) = [("a", "AC")]).
Proof.
  split; (eexists; split; [vm_compute; reflexivity|]); by vm_compute.
Qed.

(** C7, amended. For a FASTA with at least one record whose headers are
    pairwise distinct and none of them empty, and whose sequences hold
    neither the record marker nor whitespace, the run with the file's own
    headers as order list completes, and its output, read back by the
    parser, gives the header list and the mapping of the input: the same
    records, header and sequence, in the same order. The records written
    are the records of the input in file order; the output holds, record
    by record, the header line and the sequence lines at the given width,
    and the sequence lines of a record put together are its sequence; an
    input that is already laid out at that width is reproduced byte for
    byte; every entry is matched and no record is appended. *)
Theorem C7_round_trip (text : string) (wrap : Z)
    (headers : list string) (seqs : gmap string string) :
  parse_fasta text = (headers, seqs) →
  headers ≠ [] →
  NoDup headers →
  Forall (λ h, h ≠ EmptyString) headers →
  map_Forall (λ _ q, no_marker q = true ∧ no_space q = true) seqs →
  ∃ rep, run text headers wrap = Ok rep
         ∧ parse_fasta (output rep) = (headers, seqs)
         ∧ fasta_records (output rep) = fasta_records text
         ∧ map fst (written rep) = headers
         ∧ Forall (λ r : string * string, seqs !! r.1 = Some r.2) (written rep)
         ∧ headers = map fst (fasta_records text)
         ∧ written rep = fasta_records text
         ∧ output rep
           = join (map (λ b, b +:+ NL)
                       (List.concat (map (record_lines wrap) (fasta_records text))))
         ∧ (∀ seq, join (seq_lines wrap seq) = seq)
         ∧ (text = render wrap (fasta_records text) → output rep = text)
         ∧ n_ordered rep = List.length headers
         ∧ appended rep = 0
         ∧ unmatched rep = [].
Proof.
  intros Hparse Hrec Hnd Hne Hplain.
  destruct (run_ok text headers wrap headers seqs Hparse Hrec Hne)
    as (rep & Hrun & Hfst & Hseq & Hout & Hn & Happ & Hun).
  destruct (own_order headers Hnd) as (Hoo & Hord & Hnf & Hnil).
  rewrite Hoo in Hfst. rewrite Hord in Hn. rewrite Hnil in Happ.
  rewrite Hnf in Hun. pose proof Hparse as Hparse'.
  rewrite parse_fasta_records in Hparse'. injection Hparse' as Hh Hs.
  assert (Hw : written rep = fasta_records text).
  { apply (same_records seqs); [congruence|done|].
    apply Forall_forall. intros [h q] Hin. simpl. rewrite <- Hs.
    apply store_lookup_NoDup; [by rewrite Hh|done]. }
  assert (Hplain' : Forall (λ r : string * string,
                              no_marker r.2 = true ∧ no_space r.2 = true)
                           (written rep)).
  { eapply Forall_impl; [exact Hseq|]. intros [h q] Hq. by apply (Hplain h q). }
  assert (Hread : Forall readable (written rep)).
  { apply (written_readable text); [by rewrite Hs|]. right.
    eapply Forall_impl; [exact Hplain'|]. by intros r [? _]. }
  assert (Hback : fasta_records (output rep) = fasta_records text).
  { rewrite Hout, <- Hw. apply rendered_records_back; [done|].
    eapply Forall_impl; [exact Hplain'|]. by intros r [_ ?]. }
  exists rep. split; [done|].
  split; [by rewrite parse_fasta_records, Hback, Hh, Hs|].
  split; [done|]. split; [done|]. split; [done|]. split; [done|].
  split; [done|]. split; [by rewrite Hout, Hw, render_lines|].
  split; [apply seq_lines_join|].
  split; [intros Htext; by rewrite Hout, Hw|]. done.
Qed.

Lemma C7_round_trip_witness :
  ∃ rep, run three_contigs three_headers 4 = Ok rep
         ∧ parse_fasta (output rep) = (three_headers, three_seqs)
         ∧ fasta_records (output rep) = fasta_records three_contigs
         ∧ map fst (written rep) = three_headers
         ∧ Forall (λ r : string * string, three_seqs !! r.1 = Some r.2)
                  (written rep)
         ∧ three_headers = map fst (fasta_records three_contigs)
         ∧ written rep = fasta_records three_contigs
         ∧ output rep
           = join (map (λ b, b +:+ NL)
                       (List.concat (map (record_lines 4)
                                         (fasta_records three_contigs))))
         ∧ (∀ seq, join (seq_lines 4 seq) = seq)
         ∧ (three_contigs = render 4 (fasta_records three_contigs)
            → output rep = three_contigs)
         ∧ n_ordered rep = List.length three_headers
         ∧ appended rep = 0
         ∧ unmatched rep = [].
Proof.
  apply (C7_round_trip three_contigs 4 three_headers three_seqs).
  - vm_compute. reflexivity.
  - discriminate.
  - apply (bool_decide_unpack _). vm_compute. exact I.
  - apply (bool_decide_unpack _). vm_compute. exact I.
  - apply (bool_decide_unpack _). vm_compute. exact I.
Defined.

End ReorderProofs.

(** ** More on the N-run scanner *)

Module ScannerExtras.
Import Py PyFacts Scanner ScannerSpec ScannerProofs ExtraSpec Examples.
Import ReorderProofs.

Lemma split_go_all_space (s : string) :
  all_space s = true → split_go EmptyString s = [].
Proof.
  induction s as [|c s IH]; simpl; [done|].
  intros [Hc Hs]%andb_true_iff. rewrite Hc. by apply IH.
Qed.

Lemma no_space_snoc (tok : string) c :
  no_space tok = true → isspace c = false →
  no_space (tok +:+ String c EmptyString) = true
  ∧ tok +:+ String c EmptyString ≠ EmptyString.
Proof.
  intros Htok Hc. split.
  - unfold no_space in *. rewrite sforall_append, Htok. simpl. by rewrite Hc.
  - destruct tok; [rewrite append_nil_l|rewrite append_cons]; discriminate.
Qed.

Lemma split_go_tokens (s : string) :
  ∀ tok, no_space tok = true →
    Forall (λ t, t ≠ EmptyString ∧ no_space t = true) (split_go tok s).
Proof.
  induction s as [|c s IH]; intros tok Htok; simpl.
  - destruct tok; [done|]. by constructor.
  - destruct (isspace c) eqn:Hc.
    + destruct tok; [by apply IH|]. constructor; [done|by apply IH].
    + apply IH. by apply no_space_snoc.
Qed.

Lemma parse_lines_names upper (lines : list string) :
  ∀ name seq_lines,
    (∀ n, name = Some n → n ≠ EmptyString ∧ no_space n = true) →
    Forall (λ r : string * string, r.1 ≠ EmptyString ∧ no_space r.1 = true)
           (parse_lines upper name seq_lines lines).1.
Proof.
  assert (Hy : ∀ name sl,
    (∀ n, name = Some n → n ≠ EmptyString ∧ no_space n = true) →
    Forall (λ r : string * string, r.1 ≠ EmptyString ∧ no_space r.1 = true)
           (yield_record name sl)).
  { intros [n|] sl Hn; [|done]. simpl. destruct n; [done|].
    constructor; [|done]. by apply Hn. }
  induction lines as [|line lines IH]; intros name sl Hname; simpl; [by apply Hy|].
  destruct (rstrip line) as [|c l] eqn:Hl; [by apply IH|].
  destruct (startswith GT (String c l)); [|by apply IH].
  destruct (split (tail1 (String c l))) as [|t ts] eqn:Hs; simpl; [by apply Hy|].
  specialize (IH (Some t) []).
  destruct (parse_lines upper (Some t) [] lines) as [ys e']. simpl in *.
  apply Forall_app. split; [by apply Hy|]. apply IH. intros n [= <-].
  pose proof (split_go_tokens l EmptyString eq_refl) as Htok.
  fold (split l) in Htok. simpl in Hs. rewrite Hs in Htok.
  by apply Forall_cons in Htok as [? _].
Qed.

Lemma parse_lines_status upper (lines : list string) :
  ∀ name seq_lines,
    (parse_lines upper name seq_lines lines).2 = None
    ↔ Forall (λ l, bare_marker l = false) lines.
Proof.
  induction lines as [|line lines IH]; intros name sl; simpl; [done|].
  rewrite Forall_cons. unfold bare_marker at 1.
  destruct (rstrip line) as [|c l] eqn:Hl; [rewrite IH; tauto|].
  simpl. destruct (Ascii.eqb c GT) eqn:Hc; simpl; [|rewrite IH; tauto].
  destruct (split l) as [|t ts] eqn:Hs; simpl.
  - apply split_go_nil in Hs as [_ ->]. split; [done|]. by intros [? _].
  - assert (Hl' : all_space l = false).
    { destruct (all_space l) eqn:Ha; [|done].
      apply split_go_all_space in Ha. unfold split in Hs. congruence. }
    rewrite Hl'. specialize (IH (Some t) []).
    destruct (parse_lines upper (Some t) [] lines) as [ys e']. simpl in *.
    rewrite IH. tauto.
Qed.

Lemma main_status upper (text : string) :
  (main upper text).2 = (parse_fasta upper text).2.
Proof.
  unfold main. destruct (parse_fasta upper text) as [recs perr].
  destruct (scan_records recs) as [[rows beds] serr] eqn:Hscan.
  by apply scan_records_never_raise in Hscan as ->.
Qed.

(** X1. The scanner runs through without an exception exactly when no
    line of the input is a marker without identifier; there is no other
    way for the parser or the scan to fail. *)
Theorem scanner_completes_iff_no_bare_marker upper (text : string) :
  (main upper text).2 = None
  ↔ Forall (λ l, bare_marker l = false) (readlines text).
Proof. rewrite main_status. apply parse_lines_status. Qed.

Lemma scan_records_beds recs :
  ∀ rows beds e b, scan_records recs = (rows, beds, e) → b ∈ beds →
    ∃ name seq row bed,
      (name, seq) ∈ recs ∧ scan_record name seq = Ok (row, bed) ∧ b ∈ bed.
Proof.
  induction recs as [|[name seq] recs IH]; intros rows beds e b; simpl.
  - intros [= _ <- _] Hin. by apply elem_of_nil in Hin.
  - destruct (scan_record name seq) as [[r bed]| |] eqn:Hrec;
      try (intros [= _ <- _] Hin; by apply elem_of_nil in Hin).
    destruct (scan_records recs) as [[rows' beds'] e'].
    intros [= _ <- _] Hin. apply elem_of_app in Hin as [Hin|Hin].
    + exists name, seq, r, bed. split; [left|done].
    + destruct (IH _ _ _ b eq_refl Hin) as (n & q & r' & b' & Hmem & Hq & Hb).
      exists n, q, r', b'. split; [by right|done].
Qed.

Lemma scan_record_names name seq row bed :
  scan_record name seq = Ok (row, bed) →
  (∀ r, row = Some r → contig r = name) ∧ Forall (λ b, chrom b = name) bed.
Proof.
  destruct (Nat.eq_dec (count chN seq) 0) as [H0|Hn].
  - rewrite scan_record_skip by done. intros [= <- <-]. by split.
  - destruct (scan_record_row name seq) as (x & _ & ->); [lia|].
    intros [= <- <-]. split; [by intros r [= <-]|].
    apply Forall_forall. by intros b (m & -> & _)%list_elem_of_fmap.
Qed.

(** X2. The contig names written to the two reports are never empty and
    hold no whitespace (they are first tokens of marker lines), so a name
    cannot break the tab-separated columns or the lines of a report. *)
Theorem report_names_are_tokens upper (text : string) :
  Forall (λ row, contig row ≠ EmptyString ∧ no_space (contig row) = true)
         (main upper text).1.1
  ∧ Forall (λ b, chrom b ≠ EmptyString ∧ no_space (chrom b) = true)
           (main upper text).1.2.
Proof.
  pose proof (parse_lines_names upper (readlines text) None [] ltac:(done)) as Hn.
  fold (parse_fasta upper text) in Hn. unfold main.
  destruct (parse_fasta upper text) as [recs perr]. simpl in Hn.
  destruct (scan_records recs) as [[rows beds] serr] eqn:Hscan. simpl.
  rewrite Forall_forall in Hn. split; apply Forall_forall.
  - intros row Hrow.
    destruct (scan_records_rows _ _ _ _ row Hscan Hrow) as (n & q & b & Hin & Hrec).
    apply scan_record_names in Hrec as [Hc _]. rewrite (Hc row eq_refl).
    by apply (Hn (n, q)).
  - intros b Hb.
    destruct (scan_records_beds _ _ _ _ b Hscan Hb) as (n & q & r & bed & Hin & Hrec & Hbed).
    apply scan_record_names in Hrec as [_ Hc]. rewrite Forall_forall in Hc.
    rewrite (Hc b Hbed). by apply (Hn (n, q)).
Qed.

Lemma parse_lines_no_marker upper (lines : list string) :
  Forall (λ l, marker_line l = false) lines →
  ∀ seq_lines, parse_lines upper None seq_lines lines = ([], None).
Proof.
  induction 1 as [|line lines Hl _ IH]; intros sl; simpl; [done|].
  unfold marker_line in Hl. destruct (rstrip line) as [|c l]; [apply IH|].
  rewrite Hl. apply IH.
Qed.

(** X3. An input without any marker line gives no record: both reports
    stay without data rows and nothing is raised, whatever the lines
    hold. *)
Theorem scanner_without_markers_reports_nothing upper (text : string) :
  Forall (λ l, marker_line l = false) (readlines text) →
  parse_fasta upper text = ([], None) ∧ main upper text = ([], [], None).
Proof.
  intros Hno. assert (Hp : parse_fasta upper text = ([], None))
    by by apply parse_lines_no_marker.
  split; [done|]. unfold main. by rewrite Hp.
Qed.

Lemma scanner_without_markers_reports_nothing_witness :
  parse_fasta id ("ACGTNN" +:+ NL +:+ "NNNN" +:+ NL) = ([], None)
  ∧ main id ("ACGTNN" +:+ NL +:+ "NNNN" +:+ NL) = ([], [], None).
Proof.
  apply (scanner_without_markers_reports_nothing id
           ("ACGTNN" +:+ NL +:+ "NNNN" +:+ NL)).
  apply (bool_decide_unpack _). vm_compute. exact I.
Defined.

Lemma scan_records_shape (recs : list (string * string)) :
  ∃ rows beds,
    scan_records recs = (rows, beds, None)
    ∧ map contig rows = map fst (filter (λ r : string * string, count chN r.2 ≠ 0) recs)
    ∧ map chrom beds
      = List.concat (map (λ row, replicate (n_N_runs row) (contig row)) rows).
Proof.
  induction recs as [|[name seq] recs (rows & beds & Hs & Hrows & Hbeds)]; simpl.
  - by exists [], [].
  - rewrite filter_cons. simpl. destruct (decide (count chN seq ≠ 0)) as [Hn|H0].
    + destruct (scan_record_row name seq) as (x & _ & ->); [lia|]. rewrite Hs.
      eexists _, _. split; [done|]. simpl. rewrite Hrows. split; [done|].
      rewrite map_app, Hbeds. f_equal. rewrite List.map_map. simpl.
      generalize (finditer_Nplus seq). intros ms.
      induction ms as [|m ms IH]; simpl; [done|]. by rewrite IH.
    + rewrite scan_record_skip by lia. rewrite Hs.
      exists rows, beds. by split.
Qed.

(** X4. The two reports correspond: the tabular report has one row for
    each parsed record that holds an 'N', in file order, and the interval
    report has, row after row, as many lines as the row counts runs,
    under the row's contig name. *)
Theorem reports_correspond upper (text : string) :
  map contig (main upper text).1.1
  = map fst (filter (λ r : string * string, count chN r.2 ≠ 0)
                    (parse_fasta upper text).1)
  ∧ map chrom (main upper text).1.2
    = List.concat (map (λ row, replicate (n_N_runs row) (contig row))
                       (main upper text).1.1).
Proof.
  unfold main. destruct (parse_fasta upper text) as [recs perr]. simpl.
  destruct (scan_records_shape recs) as (rows & beds & -> & Hrows & Hbeds).
  by split.
Qed.

Lemma runs_are_maximal (s : string) (r : span) :
  r ∈ finditer_Nplus s →
  r.1 < r.2 ≤ String.length s
  ∧ (∀ p, r.1 ≤ p < r.2 → N_at s p)
  ∧ ¬ N_at s r.2
  ∧ (∀ p, S p = r.1 → ¬ N_at s p).
Proof.
  intros Hr. destruct (finditer_Nplus_inv s) as (Hb & Hsep & Hcov).
  rewrite Forall_forall in Hb. pose proof (Hb r Hr) as Hbr.
  pose proof (separated_lookup _ Hsep) as Hlt.
  apply list_elem_of_lookup_1 in Hr as Hi. destruct Hi as [i Hi].
  assert (Hother : ∀ p, N_at s p → (p < r.1 ∨ r.2 ≤ p) →
                        ∃ j r', finditer_Nplus s !! j = Some r'
                                ∧ j ≠ i ∧ r'.1 ≤ p < r'.2).
  { intros p Hp Hout. apply Hcov, Exists_exists in Hp as (r' & Hr' & Hc).
    apply list_elem_of_lookup_1 in Hr' as [j Hj]. exists j, r'.
    split; [done|]. split; [|done]. intros ->. unfold covers in Hc.
    rewrite Hi in Hj. injection Hj as <-. lia. }
  split; [lia|]. split; [|split].
  - intros p Hp. apply Hcov, Exists_exists. by exists r.
  - intros Hn. destruct (Hother _ Hn ltac:(lia)) as (j & r' & Hj & Hne & Hc).
    pose proof (Hb r' ltac:(by eapply list_elem_of_lookup_2)) as Hbr'.
    destruct (Nat.lt_trichotomy i j) as [Hij|[->|Hji]]; [|done|].
    + pose proof (Hlt i j r r' Hi Hj Hij). lia.
    + pose proof (Hlt j i r' r Hj Hi Hji). lia.
  - intros p Hp Hn. destruct (Hother _ Hn ltac:(lia)) as (j & r' & Hj & Hne & Hc).
    pose proof (Hb r' ltac:(by eapply list_elem_of_lookup_2)) as Hbr'.
    destruct (Nat.lt_trichotomy i j) as [Hij|[->|Hji]]; [|done|].
    + pose proof (Hlt i j r r' Hi Hj Hij). lia.
    + pose proof (Hlt j i r' r Hj Hi Hji). lia.
Qed.

(** X5. Every line of the interval report is a maximal block of 'N's of
    a parsed record of that name: it is not empty and lies within the
    sequence, every position from [start] up to [end] (excluded) holds
    'N', the positions just before and just behind do not, [N_len] is
    [end - start], and the name column carries the 1-based ends
    [start + 1] and [end]. *)
Theorem bed_lines_are_maximal_blocks upper (text : string) :
  Forall (λ b,
    ∃ seq, (chrom b, seq) ∈ (parse_fasta upper text).1
           ∧ bed_start b < bed_end b ≤ String.length seq
           ∧ (∀ p, bed_start b ≤ p < bed_end b → N_at seq p)
           ∧ ¬ N_at seq (bed_end b)
           ∧ (∀ p, S p = bed_start b → ¬ N_at seq p)
           ∧ N_len b = bed_end b - bed_start b
           ∧ bed_name b = (chrom b, bed_start b + 1, bed_end b))
    (main upper text).1.2.
Proof.
  unfold main. destruct (parse_fasta upper text) as [recs perr]. simpl.
  destruct (scan_records recs) as [[rows beds] serr] eqn:Hscan. simpl.
  apply Forall_forall. intros b Hb.
  destruct (scan_records_beds _ _ _ _ b Hscan Hb)
    as (name & seq & row & bed & Hin & Hrec & Hbed).
  destruct (Nat.eq_dec (count chN seq) 0) as [H0|Hn].
  { rewrite scan_record_skip in Hrec by done. injection Hrec as _ <-.
    by apply elem_of_nil in Hbed. }
  destruct (scan_record_row name seq) as (x & _ & Hrow); [lia|].
  rewrite Hrow in Hrec. injection Hrec as _ <-.
  apply list_elem_of_fmap in Hbed as (m & -> & Hm). simpl.
  destruct (runs_are_maximal seq m Hm) as (Hlen & Hall & Hend & Hbefore).
  exists seq. split; [done|]. split; [lia|]. by repeat (split; [done|]).
Qed.

Lemma length_le_total_length (rs : list span) :
  Forall (λ r : span, r.1 < r.2) rs → List.length rs ≤ total_length rs.
Proof. induction 1 as [|r rs Hr _ IH]; simpl; [done|]. lia. Qed.

Lemma separated_room (rs : list span) :
  ∀ lo hi, separated rs →
    Forall (λ r : span, lo ≤ r.1 ∧ r.1 < r.2 ∧ r.2 ≤ hi) rs →
    lo ≤ hi + 1 → 2 * List.length rs + lo ≤ hi + 1.
Proof.
  induction rs as [|r rs IH]; intros lo hi Hsep Hb Hlo; simpl; [lia|].
  destruct Hsep as [Hgap Hsep]. apply Forall_cons in Hb as [Hr Hb].
  specialize (IH (r.2 + 1) hi Hsep).
  assert (Hb' : Forall (λ r' : span, r.2 + 1 ≤ r'.1 ∧ r'.1 < r'.2 ∧ r'.2 ≤ hi) rs).
  { rewrite Forall_forall in *. intros r' Hr'.
    specialize (Hgap _ Hr'). specialize (Hb _ Hr'). lia. }
  specialize (IH Hb' ltac:(lia)). lia.
Qed.

(** X6. The figures of every row of the tabular report are consistent:
    [n_N_runs] is the number of runs listed and at least one; it does not
    exceed [total_Ns], which does not exceed [contig_len]; as runs are
    apart, [2 * n_N_runs - 1] positions at least are needed; and the
    printed fraction lies between 0.000000 and 1.000000. *)
Theorem row_figures_are_consistent upper (text : string) :
  Forall (λ row,
    n_N_runs row = List.length (n_run_positions row)
    ∧ 1 ≤ n_N_runs row ≤ total_Ns row
    ∧ total_Ns row ≤ contig_len row
    ∧ 2 * n_N_runs row ≤ contig_len row + 1
    ∧ (0 ≤ frac_N row ≤ 10 ^ 6)%Z)
    (main upper text).1.1.
Proof.
  unfold main. destruct (parse_fasta upper text) as [recs perr]. simpl.
  destruct (scan_records recs) as [[rows beds] serr] eqn:Hscan. simpl.
  apply Forall_forall. intros row Hrow.
  destruct (scan_records_rows _ _ _ _ row Hscan Hrow) as (name & seq & bed & _ & Hrec).
  destruct (Nat.eq_dec (count chN seq) 0) as [H0|Hn].
  { by rewrite scan_record_skip in Hrec. }
  destruct (scan_record_row name seq) as (x & Hx & Hrow'); [lia|].
  rewrite Hrow' in Hrec. injection Hrec as <- _. simpl. rewrite length_map.
  destruct (finditer_Nplus_inv seq) as (Hb & Hsep & _).
  pose proof (count_le_length chN seq) as Hle.
  pose proof (count_is_total_length seq) as Htot.
  assert (Hlen : List.length (finditer_Nplus seq) ≤ count chN seq).
  { rewrite Htot. apply length_le_total_length.
    eapply Forall_impl; [exact Hb|]. simpl. tauto. }
  assert (Hpos : 1 ≤ List.length (finditer_Nplus seq)).
  { destruct (finditer_Nplus seq); [simpl in Htot; lia|simpl; lia]. }
  pose proof (separated_room _ 0 (String.length seq) Hsep) as Hroom.
  pose proof (format_6f_bound (count chN seq) (String.length seq) x
                ltac:(lia) Hx) as Hfrac.
  split; [done|]. split; [lia|]. split; [done|]. split.
  - assert (Hb0 : Forall (λ r : span, 0 ≤ r.1 ∧ r.1 < r.2 ∧ r.2 ≤ String.length seq)
                         (finditer_Nplus seq)).
    { eapply Forall_impl; [exact Hb|]. simpl. intros r ?. lia. }
    specialize (Hroom Hb0 ltac:(lia)). lia.
  - change (10 ^ 6)%Z with 1000000%Z in *. nia.
Qed.

Lemma round_half_even_exact (q d : Z) :
  (0 < d)%Z → Float.round_half_even (q * d) d = q.
Proof.
  intros Hd. unfold Float.round_half_even.
  rewrite Z.div_mul, Z.mod_mul by lia.
  destruct (Z.ltb_spec (2 * 0) d); [done|lia].
Qed.

Lemma truediv_same (k : nat) :
  0 < k → Float.truediv k k = Ok (Float.Dyadic (2 ^ 52) 52).
Proof.
  intros Hk. unfold Float.truediv.
  destruct (Z.eqb_spec (Z.of_nat k) 0) as [H0|_]; [lia|].
  rewrite Z.sub_diag, !Z.add_0_r.
  destruct (Z.ltb_spec (Z.of_nat k * 2 ^ 52) (2 ^ 52 * Z.of_nat k)) as [Hlt|_]; [lia|].
  change (0 <=? 52)%Z with true. cbv iota.
  by rewrite (Z.mul_comm (Z.of_nat k)), round_half_even_exact by lia.
Qed.

Lemma Ns_facts (k : nat) :
  count chN (Ns k) = k ∧ String.length (Ns k) = k.
Proof. induction k as [|k [IH1 IH2]]; simpl; [done|]. by rewrite IH1, IH2. Qed.

(** X7. A sequence that consists of 'N's only is reported as one run
    from 1 to its length, with [total_Ns] equal to [contig_len] and the
    fraction printed as 1.000000, and with one interval line from 0 to
    its length. *)
Theorem all_N_sequence_is_one_run (name : string) (k : nat) :
  0 < k →
  scan_record name (Ns k)
  = Ok (Some (TsvRow name k k 1000000 1 [(1, k)]),
        [BedRow name 0 k (name, 1, k) k]).
Proof.
  intros Hk. destruct (Ns_facts k) as [Hc Hl].
  assert (Hruns : finditer_Nplus (Ns k) = [(0, k)]).
  { destruct k as [|k']; [lia|]. unfold finditer_Nplus.
    rewrite <- (append_nil_r (Ns (S k'))).
    by destruct (finditer_leftmost_longest k' 0 chN EmptyString eq_refl) as [_ ->]. }
  unfold scan_record. rewrite Hc, Hl, Hruns.
  destruct (Nat.eqb_spec k 0) as [H0|_]; [lia|].
  rewrite truediv_same by done. simpl. repeat f_equal. lia.
Qed.

Lemma all_N_sequence_is_one_run_witness :
  scan_record "c2" (Ns 4)
  = Ok (Some (TsvRow "c2" 4 4 1000000 1 [(1, 4)]),
        [BedRow "c2" 0 4 ("c2", 1, 4) 4]).
Proof. apply (all_N_sequence_is_one_run "c2" 4). lia. Defined.

End ScannerExtras.

(** ** More on the reorder tool *)

Module ReorderExtras.
Import Py PyFacts Reorder ReorderSpec ReorderProofs ExtraSpec Examples.

(** *** The reader of the order list *)

Lemma rstrip_by_absorb (p q : ascii → bool) (s : string) :
  (∀ c, q c = true → p c = true) →
  rstrip_by p (rstrip_by q s) = rstrip_by p s.
Proof.
  intros Hqp. induction s as [|c s IH]; [done|].
  cbn [rstrip_by]. destruct (rstrip_by q s) as [|a r] eqn:Hq.
  - simpl in IH. rewrite <- IH. destruct (q c) eqn:Hc.
    + simpl. by rewrite (Hqp c Hc).
    + simpl. done.
  - cbn [rstrip_by] in *. by rewrite IH.
Qed.

Lemma strip_line_end (b : string) : strip (b +:+ NL) = strip b.
Proof. unfold strip, NL. by rewrite rstrip_by_snoc. Qed.

Lemma rstrip_trimmed (h : string) : strip h = h → rstrip_by isspace h = h.
Proof.
  intros Hh. rewrite <- Hh at 1. unfold strip.
  rewrite rstrip_lstrip by apply rstrip_by_idemp. exact Hh.
Qed.

Lemma strip_marker (h : string) : strip h = h → strip (String GT h) = String GT h.
Proof.
  intros Hh. unfold strip. cbn [rstrip_by]. rewrite (rstrip_trimmed h Hh).
  by destruct h.
Qed.

Lemma read_order_lines_app (l1 l2 : list string) :
  ∀ acc, read_order_lines acc (l1 ++ l2)
         = read_order_lines (read_order_lines acc l1) l2.
Proof.
  induction l1 as [|ln l1 IH]; intros acc; [done|].
  cbn [app read_order_lines]. destruct (strip ln) as [|c r]; [apply IH|].
  destruct (startswith HASH (String c r)); apply IH.
Qed.

Lemma read_order_lines_acc (lines : list string) :
  ∀ acc, read_order_lines acc lines = acc ++ read_order_lines [] lines.
Proof.
  induction lines as [|ln lines IH]; intros acc; cbn [read_order_lines].
  - by rewrite app_nil_r.
  - destruct (strip ln) as [|c r]; [apply IH|].
    destruct (startswith HASH (String c r)); [apply IH|].
    rewrite IH, (IH ([] ++ _)). by rewrite <- app_assoc.
Qed.

Lemma read_order_plain (es : list string) :
  Forall plain_entry es → read_order_lines [] (map (λ b, b +:+ NL) es) = es.
Proof.
  induction 1 as [|e es (Hne & Hs & _ & Hh & Hg) _ IH]; [done|].
  cbn [map read_order_lines]. rewrite strip_line_end, Hs.
  destruct e as [|c r]; [done|]. rewrite Hh, Hg.
  by rewrite read_order_lines_acc, IH.
Qed.

Lemma read_order_markers (hs : list string) :
  Forall (λ h, strip h = h) hs →
  read_order_lines [] (map (λ b, b +:+ NL) (map (String GT) hs)) = hs.
Proof.
  induction 1 as [|h hs Hs _ IH]; [done|].
  cbn [map read_order_lines]. rewrite strip_line_end, (strip_marker h Hs).
  cbn [startswith tail1]. change (Ascii.eqb GT HASH) with false.
  change (Ascii.eqb GT GT) with true. cbv iota.
  by rewrite Hs, read_order_lines_acc, IH.
Qed.

(** X8. An order file that lists plain entries, one on each line, is
    read back as exactly those entries, in order. *)
Theorem order_list_round_trip (es : list string) :
  Forall plain_entry es → read_order_list (text_of_lines es) = es.
Proof.
  intros Hes. unfold read_order_list, text_of_lines. rewrite readlines_join.
  - by apply read_order_plain.
  - eapply Forall_impl; [exact Hes|]. by intros e (_ & _ & ? & _).
Qed.

Lemma order_list_round_trip_witness :
  read_order_list (text_of_lines ["c2"; "c1 first"; "c3"]) = ["c2"; "c1 first"; "c3"].
Proof.
  apply (order_list_round_trip ["c2"; "c1 first"; "c3"]).
  repeat constructor; try discriminate.
Defined.

Lemma parsed_headers_clean (text : string) :
  Forall (λ h, no_eol h = true ∧ strip h = h) (parse_fasta text).1.
Proof.
  rewrite parse_fasta_records. simpl.
  pose proof (parsed_records_clean text) as Hc.
  induction Hc as [|r rs (Hh & Hs & _) _ IH]; simpl; [done|]. by constructor.
Qed.

(** X9. The marker lines of a FASTA, taken as the order file, are read
    back as its list of headers: the leading '>' is dropped, and a header
    that starts with '#' or is empty is kept. *)
Theorem marker_lines_read_as_headers (text : string) :
  read_order_list (text_of_lines (map (String GT) (parse_fasta text).1))
  = (parse_fasta text).1.
Proof.
  pose proof (parsed_headers_clean text) as Hc.
  unfold read_order_list, text_of_lines. rewrite readlines_join.
  - apply read_order_markers. eapply Forall_impl; [exact Hc|]. by intros h [_ ?].
  - apply Forall_forall. intros b (h & -> & Hh)%list_elem_of_fmap.
    rewrite Forall_forall in Hc. apply no_eol_marker. by apply Hc.
Qed.

Lemma read_order_lines_clean (lines : list string) :
  Forall (λ l, no_eol (rstrip_by (Ascii.eqb LF) l) = true) lines →
  Forall (λ e, strip e = e ∧ no_eol e = true) (read_order_lines [] lines).
Proof.
  assert (Hstrip : ∀ l, no_eol (rstrip_by (Ascii.eqb LF) l) = true →
                        no_eol (strip l) = true).
  { intros l Hl. unfold strip.
    rewrite <- (rstrip_by_absorb isspace (Ascii.eqb LF) l).
    - by apply sforall_lstrip, sforall_rstrip.
    - intros c Hc. apply Ascii.eqb_eq in Hc as <-. done. }
  induction 1 as [|ln lines Hl _ IH]; [done|]. cbn [read_order_lines].
  specialize (Hstrip ln Hl). pose proof (strip_idemp ln) as Hid.
  destruct (strip ln) as [|c r] eqn:Hs; [done|].
  destruct (startswith HASH (String c r)); [done|].
  rewrite read_order_lines_acc. apply Forall_app. split; [|done].
  constructor; [|done]. destruct (startswith GT (String c r)).
  - split; [apply strip_idemp|]. by apply sforall_strip, (sforall_tail1 _ (String c r)).
  - by split.
Qed.

(** X10. Every entry the reader of the order list delivers is trimmed
    (no whitespace at either end, also after a leading '>' was dropped)
    and holds no line end, as the headers of the parsed FASTA are. *)
Theorem order_entries_are_trimmed (text : string) :
  Forall (λ e, strip e = e ∧ no_eol e = true) (read_order_list text).
Proof.
  apply read_order_lines_clean.
  apply (readlines_go_clean text false EmptyString eq_refl).
Qed.

Lemma read_order_skip (c : string) :
  skipped_line c → ∀ acc, read_order_lines acc [c +:+ NL] = acc.
Proof.
  intros Hc acc. cbn [read_order_lines]. rewrite strip_line_end.
  destruct Hc as [->|Hc]; [done|].
  destruct (strip c); [done|]. by rewrite Hc.
Qed.

(** X11. Blank lines and comment lines (the first character that is not
    whitespace is '#') of the order file count for nothing: the entries
    read are those of the file without such a line. *)
Theorem order_list_skips_blank_and_comment (before after : list string) (c : string) :
  skipped_line c →
  Forall (λ b, no_eol b = true) (before ++ c :: after) →
  read_order_list (text_of_lines (before ++ c :: after))
  = read_order_list (text_of_lines (before ++ after)).
Proof.
  intros Hc Hclean. unfold read_order_list, text_of_lines.
  assert (Hclean' : Forall (λ b, no_eol b = true) (before ++ after)).
  { apply Forall_app in Hclean as [? [_ ?]%Forall_cons]. by apply Forall_app. }
  rewrite !readlines_join by done. rewrite !map_app, !read_order_lines_app.
  cbn [map]. change ((c +:+ NL) :: map (λ b, b +:+ NL) after)
    with ([c +:+ NL] ++ map (λ b, b +:+ NL) after).
  by rewrite read_order_lines_app, read_order_skip.
Qed.

Lemma order_list_skips_blank_and_comment_witness :
  read_order_list (text_of_lines (["c2"] ++ "  # first the small ones" :: [">c1"]))
  = read_order_list (text_of_lines (["c2"] ++ [">c1"])).
Proof.
  apply (order_list_skips_blank_and_comment ["c2"] [">c1"]
           "  # first the small ones").
  - right. reflexivity.
  - apply (bool_decide_unpack _). vm_compute. exact I.
Defined.

(** *** The run and its summary *)

Lemma run_Ok_facts (text : string) (order_list : list string) (wrap : Z) rep :
  run text order_list wrap = Ok rep →
  (parse_fasta text).1 ≠ []
  ∧ Forall (λ h, is_Some (first_token h)) (parse_fasta text).1
  ∧ map fst (written rep) = output_order (parse_fasta text).1 order_list
  ∧ Forall (λ r : string * string, (parse_fasta text).2 !! r.1 = Some r.2)
           (written rep)
  ∧ output rep = render wrap (written rep)
  ∧ n_ordered rep
    = List.length (ordered_headers (final (parse_fasta text).1 order_list))
  ∧ appended rep
    = List.length (filter (λ h, h ∉ used (final (parse_fasta text).1 order_list))
                          (parse_fasta text).1)
  ∧ unmatched rep = not_found (final (parse_fasta text).1 order_list).
Proof.
  intros Hrun. destruct (run_Ok_inv _ _ _ _ Hrun) as [Hne Htok].
  destruct (parse_fasta text) as [headers seqs] eqn:Hparse. simpl in *.
  pose proof (parse_fasta_dom _ _ _ Hparse) as Hdom.
  destruct (reorder_ok headers seqs order_list wrap Hne Hdom Htok)
    as (rep' & Hrep & Hfacts).
  assert (rep' = rep) as ->.
  { unfold run in Hrun. rewrite Hparse in Hrun. congruence. }
  by repeat (split; [done|]).
Qed.

Lemma step_counts (headers : list string) (st : engine) (e : string) :
  List.length (ordered_headers (step headers st e))
  + List.length (not_found (step headers st e))
  = S (List.length (ordered_headers st) + List.length (not_found st))
  ∧ (∃ u, not_found (step headers st e) = not_found st ++ u ∧ u `sublist_of` [e]).
Proof.
  unfold step. destruct (resolve headers (used st) e); simpl.
  - rewrite length_app. simpl. split; [lia|]. exists []. rewrite app_nil_r.
    split; [done|]. apply sublist_nil_l.
  - rewrite length_app. simpl. split; [lia|]. by exists [e].
Qed.

Lemma foldl_step_counts (headers order_list : list string) :
  ∀ st,
    List.length (ordered_headers (foldl (step headers) st order_list))
    + List.length (not_found (foldl (step headers) st order_list))
    = List.length order_list
      + (List.length (ordered_headers st) + List.length (not_found st))
    ∧ (∃ u, not_found (foldl (step headers) st order_list) = not_found st ++ u
            ∧ u `sublist_of` order_list).
Proof.
  induction order_list as [|e es IH]; intros st; simpl.
  - split; [done|]. exists []. by rewrite app_nil_r.
  - destruct (IH (step headers st e)) as [Hn (u & Hu & Hsub)].
    destruct (step_counts headers st e) as [Hn1 (u1 & Hu1 & Hsub1)].
    split; [lia|]. exists (u1 ++ u). rewrite Hu, Hu1, <- app_assoc.
    split; [done|]. change (e :: es) with ([e] ++ es). by apply sublist_app.
Qed.

Lemma written_at_most_input (headers order_list : list string) :
  List.length (output_order headers order_list) ≤ List.length headers.
Proof.
  destruct (final_consistent headers order_list) as (Hnd & Hused & Hsub).
  unfold output_order. rewrite length_app.
  set (U := used (final headers order_list)) in *.
  pose proof (filter_app_complement (λ h, h ∉ U) headers) as Hperm.
  apply Permutation_length in Hperm. rewrite length_app in Hperm.
  assert (Hle : List.length (ordered_headers (final headers order_list))
                ≤ List.length (filter (λ h : string, ¬ (h ∉ U)) headers)).
  { apply submseteq_length, NoDup_submseteq; [done|].
    intros h Hh. apply list_elem_of_filter. split; [|by apply Hsub].
    intros Hout. by apply Hout, Hused. }
  lia.
Qed.

(** X12. The figures of the summary add up for every run that completes:
    each order entry is either resolved or reported as not found, the
    entries not found are listed in the order of the order list, the
    records written are the ordered ones and the appended ones, and the
    tool never writes more records than the input holds. *)
Theorem summary_figures_add_up (text : string) (order_list : list string)
    (wrap : Z) (rep : report) :
  run text order_list wrap = Ok rep →
  n_ordered rep + List.length (unmatched rep) = List.length order_list
  ∧ unmatched rep `sublist_of` order_list
  ∧ n_ordered rep + appended rep = List.length (written rep)
  ∧ List.length (written rep) ≤ List.length (parse_fasta text).1.
Proof.
  intros (_ & _ & Hfst & _ & _ & Hn & Happ & Hun)%run_Ok_facts.
  destruct (foldl_step_counts (parse_fasta text).1 order_list (Engine [] ∅ []))
    as [Hc (u & Hu & Hsub)].
  fold (final (parse_fasta text).1 order_list) in Hc, Hu. simpl in Hc, Hu.
  rewrite Hn, Happ, Hun, Hu. split; [rewrite <- Hu; lia|]. split; [done|].
  rewrite <- (length_map fst (written rep)), Hfst. split.
  - unfold output_order. by rewrite length_app.
  - apply written_at_most_input.
Qed.

Lemma summary_figures_add_up_witness :
  n_ordered three_report + List.length (unmatched three_report)
  = List.length ["c2"; "c1"]
  ∧ unmatched three_report `sublist_of` ["c2"; "c1"]
  ∧ n_ordered three_report + appended three_report
    = List.length (written three_report)
  ∧ List.length (written three_report) ≤ List.length (parse_fasta three_contigs).1.
Proof.
  apply (summary_figures_add_up three_contigs ["c2"; "c1"] 4 three_report).
  vm_compute. reflexivity.
Defined.

Lemma foldl_step_exact (headers : list string) :
  ∀ suf pre st,
    NoDup (pre ++ suf) →
    Forall (λ e, e ∈ headers) suf →
    ordered_headers st = pre →
    (∀ h, h ∈ used st ↔ h ∈ pre) →
    ordered_headers (foldl (step headers) st suf) = pre ++ suf
    ∧ not_found (foldl (step headers) st suf) = not_found st
    ∧ ∀ h, h ∈ used (foldl (step headers) st suf) ↔ h ∈ pre ++ suf.
Proof.
  induction suf as [|e suf IH]; intros pre st Hnd Hin Hord Hused; simpl.
  - rewrite app_nil_r. by subst.
  - apply Forall_cons in Hin as [He Hin].
    assert (Hres : resolve headers (used st) e = Some e).
    { unfold resolve. rewrite bool_decide_eq_true_2; [done|]. split; [done|].
      rewrite Hused. apply NoDup_app in Hnd as (_ & Hdis & _).
      intros Hp. apply (Hdis e Hp). left. }
    assert (Hstep : step headers st e
                    = Engine (ordered_headers st ++ [e]) ({[e]} ∪ used st)
                             (not_found st))
      by (unfold step; by rewrite Hres).
    rewrite Hstep.
    destruct (IH (pre ++ [e])
                 (Engine (ordered_headers st ++ [e]) ({[e]} ∪ used st)
                         (not_found st))) as (H1 & H2 & H3); simpl.
    + by rewrite <- app_assoc.
    + done.
    + by rewrite Hord.
    + intros h. rewrite elem_of_union, elem_of_singleton, elem_of_app,
        list_elem_of_singleton, Hused. tauto.
    + rewrite <- app_assoc in H1, H3. done.
Qed.

(** X13. When the order list names full headers of the FASTA, each once,
    the records are written in exactly that order, followed by the
    records not named, in file order; no entry is reported as not found.
    (With an empty order list the output keeps the file order.) *)
Theorem listed_headers_come_first (text : string) (order_list : list string)
    (wrap : Z) (headers : list string) (seqs : gmap string string) :
  parse_fasta text = (headers, seqs) →
  headers ≠ [] →
  Forall (λ h, h ≠ EmptyString) headers →
  NoDup order_list →
  Forall (λ e, e ∈ headers) order_list →
  ∃ rep, run text order_list wrap = Ok rep
         ∧ map fst (written rep)
           = order_list ++ filter (λ h, h ∉ order_list) headers
         ∧ n_ordered rep = List.length order_list
         ∧ unmatched rep = [].
Proof.
  intros Hparse Hne Hnonempty Hnd Hin.
  destruct (run_ok text order_list wrap headers seqs Hparse Hne Hnonempty)
    as (rep & Hrun & Hfst & _ & _ & Hn & _ & Hun).
  destruct (foldl_step_exact headers order_list [] (Engine [] ∅ []))
    as (Hord & Hnf & Hused); try done.
  { intros h. simpl. rewrite elem_of_nil. split; [|done]. apply not_elem_of_empty. }
  fold (final headers order_list) in Hord, Hnf, Hused. simpl in Hord, Hnf, Hused.
  exists rep. split; [done|]. rewrite Hn, Hun, Hfst, Hord, Hnf.
  split; [|done]. unfold output_order. rewrite Hord. f_equal.
  apply list_filter_iff. intros h. by rewrite Hused.
Qed.

Lemma listed_headers_come_first_witness :
  ∃ rep, run three_contigs ["c3"; "c1"] 4 = Ok rep
         ∧ map fst (written rep)
           = ["c3"; "c1"] ++ filter (λ h, h ∉ ["c3"; "c1"]) three_headers
         ∧ n_ordered rep = List.length ["c3"; "c1"]
         ∧ unmatched rep = [].
Proof.
  apply (listed_headers_come_first three_contigs ["c3"; "c1"] 4
           three_headers three_seqs).
  - vm_compute. reflexivity.
  - discriminate.
  - apply (bool_decide_unpack _). vm_compute. exact I.
  - apply (bool_decide_unpack _). vm_compute. exact I.
  - apply (bool_decide_unpack _). vm_compute. exact I.
Defined.

Lemma store_last (recs : list (string * string)) :
  ∀ m h, store m recs !! h
         = match last_sequence h recs with
           | Some q => Some q
           | None => m !! h
           end.
Proof.
  unfold last_sequence.
  induction recs as [|[h0 q0] recs IH]; intros m h; simpl; [done|].
  rewrite IH, filter_cons. simpl. destruct (decide (h0 = h)) as [->|Hne].
  - simpl. rewrite last_cons, lookup_insert_eq.
    by destruct (last (map snd (filter (λ r : string * string, r.1 = h) recs))).
  - by rewrite lookup_insert_ne.
Qed.

(** X14. Also when headers repeat, no header is lost: in a run that
    completes, the headers of the records written are, as a set, the
    headers of the input, and each record is written with the sequence of
    the last input record under its header. *)
Theorem no_header_lost_last_sequence_wins (text : string)
    (order_list : list string) (wrap : Z) (rep : report) :
  run text order_list wrap = Ok rep →
  (∀ h, h ∈ map fst (written rep) ↔ h ∈ (parse_fasta text).1)
  ∧ Forall (λ r : string * string,
              last_sequence r.1 (fasta_records text) = Some r.2) (written rep).
Proof.
  intros (_ & _ & Hfst & Hseq & _)%run_Ok_facts. split.
  - intros h. rewrite Hfst. apply output_order_elem.
  - rewrite parse_fasta_records in Hseq. simpl in Hseq.
    eapply Forall_impl; [exact Hseq|]. intros [h q]. simpl.
    rewrite store_last, lookup_empty.
    by destruct (last_sequence h (fasta_records text)).
Qed.

Lemma no_header_lost_last_sequence_wins_witness :
  ∃ rep, run twice_a_fasta ["a"] 60 = Ok rep
    ∧ (∀ h, h ∈ map fst (written rep) ↔ h ∈ (parse_fasta twice_a_fasta).1)
    ∧ Forall (λ r : string * string,
                last_sequence r.1 (fasta_records twice_a_fasta) = Some r.2)
             (written rep).
Proof.
  exists (Report (render 60 [("a", "GT")]) [("a", "GT")] 1 0 []).
  split; [vm_compute; reflexivity|].
  apply (no_header_lost_last_sequence_wins twice_a_fasta ["a"] 60).
  vm_compute. reflexivity.
Defined.

Lemma resolve_unknown (headers : list string) (U : gset string) (e : string) :
  e ∉ headers →
  Forall (λ h, first_token h ≠ Some e) headers →
  resolve headers U e = None.
Proof.
  intros Hout Htok. unfold resolve. rewrite bool_decide_eq_false_2 by tauto.
  rewrite filter_none; [done|]. eapply Forall_impl; [exact Htok|]. simpl. tauto.
Qed.

Lemma foldl_step_not_found (headers order_list : list string) :
  ∀ st nf,
    ordered_headers (foldl (step headers) (Engine (ordered_headers st) (used st) nf)
                           order_list)
    = ordered_headers (foldl (step headers) st order_list)
    ∧ used (foldl (step headers) (Engine (ordered_headers st) (used st) nf)
                  order_list)
      = used (foldl (step headers) st order_list)
    ∧ ∃ u, not_found (foldl (step headers) st order_list) = not_found st ++ u
           ∧ not_found (foldl (step headers)
                          (Engine (ordered_headers st) (used st) nf) order_list)
             = nf ++ u.
Proof.
  induction order_list as [|e es IH]; intros st nf; simpl.
  - split; [done|]. split; [done|]. exists []. by rewrite !app_nil_r.
  - assert (Hst : step headers st e
                  = match resolve headers (used st) e with
                    | Some h => Engine (ordered_headers st ++ [h]) ({[h]} ∪ used st)
                                       (not_found st)
                    | None => Engine (ordered_headers st) (used st)
                                     (not_found st ++ [e])
                    end) by reflexivity.
    assert (Hst' : step headers (Engine (ordered_headers st) (used st) nf) e
                   = match resolve headers (used st) e with
                     | Some h => Engine (ordered_headers st ++ [h]) ({[h]} ∪ used st) nf
                     | None => Engine (ordered_headers st) (used st) (nf ++ [e])
                     end) by reflexivity.
    rewrite Hst, Hst'. clear Hst Hst'.
    destruct (resolve headers (used st) e) as [h|].
    + destruct (IH (Engine (ordered_headers st ++ [h]) ({[h]} ∪ used st) (not_found st))
                   nf) as (H1 & H2 & u & H3 & H4). simpl in *.
      split; [done|]. split; [done|]. by exists u.
    + destruct (IH (Engine (ordered_headers st) (used st) (not_found st ++ [e]))
                   (nf ++ [e])) as (H1 & H2 & u & H3 & H4). simpl in *.
      split; [done|]. split; [done|]. exists (e :: u).
      rewrite H3, H4, <- !app_assoc. done.
Qed.

(** X15. An order entry that is neither a header nor the first token of
    any header changes nothing of the output: a run with the entry put
    anywhere into the order list completes as the run without it does,
    writes the same records in the same order, and differs only in
    reporting the entry as not found. *)
Theorem unknown_entry_is_only_reported (text : string) (before after : list string)
    (e : string) (wrap : Z) (rep : report) :
  run text (before ++ after) wrap = Ok rep →
  e ∉ (parse_fasta text).1 →
  Forall (λ h, first_token h ≠ Some e) (parse_fasta text).1 →
  ∃ rep', run text (before ++ e :: after) wrap = Ok rep'
          ∧ written rep' = written rep
          ∧ output rep' = output rep
          ∧ n_ordered rep' = n_ordered rep
          ∧ appended rep' = appended rep
          ∧ ∃ u1 u2, unmatched rep = u1 ++ u2 ∧ unmatched rep' = u1 ++ e :: u2.
Proof.
  intros Hrun Hout Htok.
  destruct (run_Ok_facts _ _ _ _ Hrun)
    as (Hne & Hhtok & Hfst & Hseq & Hrender & Hn & Happ & Hun).
  destruct (parse_fasta text) as [headers seqs] eqn:Hparse. simpl in *.
  pose proof (parse_fasta_dom _ _ _ Hparse) as Hdom.
  destruct (reorder_ok headers seqs (before ++ e :: after) wrap Hne Hdom Hhtok)
    as (rep' & Hrep' & Hfst' & Hseq' & Hrender' & Hn' & Happ' & Hun').
  set (st1 := foldl (step headers) (Engine [] ∅ []) before).
  assert (Hfin : final headers (before ++ after) = foldl (step headers) st1 after)
    by (unfold final; by rewrite foldl_app).
  assert (Hfin' : final headers (before ++ e :: after)
                  = foldl (step headers)
                      (Engine (ordered_headers st1) (used st1) (not_found st1 ++ [e]))
                      after).
  { unfold final. rewrite foldl_app. cbn [foldl]. fold st1.
    unfold step at 2. by rewrite resolve_unknown. }
  destruct (foldl_step_not_found headers after st1 (not_found st1 ++ [e]))
    as (Hord & Hused & u & Hnf & Hnf').
  rewrite <- Hfin, <- Hfin' in Hord, Hused. rewrite <- Hfin in Hnf.
  rewrite <- Hfin' in Hnf'.
  assert (Hoo : output_order headers (before ++ e :: after)
                = output_order headers (before ++ after)).
  { unfold output_order. by rewrite Hord, Hused. }
  assert (Hw : written rep' = written rep).
  { apply (same_records seqs); [|done|done]. by rewrite Hfst, Hfst', Hoo. }
  exists rep'. split; [unfold run; by rewrite Hparse|]. split; [done|].
  split; [by rewrite Hrender, Hrender', Hw|].
  rewrite Hn, Hn', Happ, Happ', Hun, Hun', Hord, Hused, Hnf, Hnf'.
  split; [done|]. split; [done|].
  exists (not_found st1), u. by rewrite <- app_assoc.
Qed.

Lemma unknown_entry_is_only_reported_witness :
  ∃ rep', run three_contigs (["c2"] ++ "c9" :: ["c1"]) 4 = Ok rep'
          ∧ written rep' = written three_report
          ∧ output rep' = output three_report
          ∧ n_ordered rep' = n_ordered three_report
          ∧ appended rep' = appended three_report
          ∧ ∃ u1 u2, unmatched three_report = u1 ++ u2
                     ∧ unmatched rep' = u1 ++ "c9" :: u2.
Proof.
  apply (unknown_entry_is_only_reported three_contigs ["c2"] ["c1"] "c9" 4
           three_report).
  - vm_compute. reflexivity.
  - apply (bool_decide_unpack _). vm_compute. exact I.
  - apply (bool_decide_unpack _). vm_compute. exact I.
Defined.

(** *** How a run ends *)

Lemma records_go_nil (lines : list string) :
  records_go None lines = [] ↔ Forall (λ l, header_line l = false) lines.
Proof.
  induction lines as [|line lines IH]; simpl; [done|].
  rewrite Forall_cons. unfold header_line at 1.
  destruct (rstrip_by (Ascii.eqb LF) line) as [|c l] eqn:Hl; [simpl; tauto|].
  destruct (startswith GT (String c l)); [|tauto].
  destruct (records_go_head lines (strip (tail1 (String c l))) []) as (q & rest & ->).
  simpl. split; [done|]. by intros [? _].
Qed.

Lemma no_headers_iff_no_marker (text : string) :
  (parse_fasta text).1 = [] ↔ Forall (λ l, header_line l = false) (readlines text).
Proof.
  rewrite parse_fasta_records. simpl. unfold fasta_records.
  rewrite <- records_go_nil. by destruct (records_go None (readlines text)).
Qed.

Lemma run_without_headers (text : string) (order_list : list string) (wrap : Z) :
  (parse_fasta text).1 = [] → run text order_list wrap = Exit 1.
Proof.
  unfold run. destruct (parse_fasta text) as [headers seqs]. simpl. by intros ->.
Qed.

Lemma run_with_empty_header (text : string) (order_list : list string) (wrap : Z) :
  EmptyString ∈ (parse_fasta text).1 → run text order_list wrap = Raise IndexError.
Proof.
  unfold run. destruct (parse_fasta text) as [headers seqs]. simpl. intros Hin.
  unfold reorder. destruct headers as [|h hs]; [by apply elem_of_nil in Hin|].
  rewrite build_index_raises; [done|]. apply Exists_exists. by exists EmptyString.
Qed.

Lemma run_with_headers (text : string) (order_list : list string) (wrap : Z) :
  (parse_fasta text).1 ≠ [] → EmptyString ∉ (parse_fasta text).1 →
  ∃ rep, run text order_list wrap = Ok rep.
Proof.
  intros Hne Hnot. destruct (parse_fasta text) as [headers seqs] eqn:Hparse.
  destruct (run_ok text order_list wrap headers seqs Hparse Hne) as (rep & Hrun & _).
  - apply Forall_forall. by intros h Hh ->.
  - by exists rep.
Qed.

(** X16. How a run of the reorder tool ends depends on the headers of the
    FASTA alone: without any record it exits with status 1; with records
    of which one has an empty header it stops with [IndexError]; in every
    other case it completes, whatever the order list and the width. It
    never fails on a lookup in the mapping of sequences. *)
Theorem run_outcomes (text : string) (order_list : list string) (wrap : Z) :
  ((parse_fasta text).1 = [] → run text order_list wrap = Exit 1)
  ∧ (EmptyString ∈ (parse_fasta text).1 →
       run text order_list wrap = Raise IndexError)
  ∧ ((parse_fasta text).1 ≠ [] → EmptyString ∉ (parse_fasta text).1 →
       ∃ rep, run text order_list wrap = Ok rep)
  ∧ run text order_list wrap ≠ Raise KeyError.
Proof.
  split; [apply run_without_headers|]. split; [apply run_with_empty_header|].
  split; [apply run_with_headers|].
  destruct (decide ((parse_fasta text).1 = [])) as [Hnil|Hne].
  { by rewrite run_without_headers. }
  destruct (decide (EmptyString ∈ (parse_fasta text).1)) as [Hin|Hout].
  { by rewrite run_with_empty_header. }
  by destruct (run_with_headers text order_list wrap Hne Hout) as [rep ->].
Qed.

(** X17. The reorder tool exits with status 1 ("no sequences found")
    exactly when the FASTA has no line that starts with '>'; no order list
    and no width changes that. *)
Theorem exits_iff_no_marker_line (text : string) (order_list : list string)
    (wrap : Z) :
  run text order_list wrap = Exit 1
  ↔ Forall (λ l, header_line l = false) (readlines text).
Proof.
  rewrite <- no_headers_iff_no_marker. split; [|apply run_without_headers].
  intros Hexit. destruct (decide ((parse_fasta text).1 = [])) as [Hnil|Hne]; [done|].
  destruct (decide (EmptyString ∈ (parse_fasta text).1)) as [Hin|Hout].
  { by rewrite run_with_empty_header in Hexit. }
  destruct (run_with_headers text order_list wrap Hne Hout) as [rep Hrep].
  by rewrite Hrep in Hexit.
Qed.

(** *** Writing and reading back *)

(** X18. Writing and parsing are inverse to each other: records whose
    headers are trimmed and without line end, and whose sequences hold
    neither whitespace nor '>', written one after the other at any width
    and parsed again, give the same records in the same order, and the
    parser's header list and mapping are those of these records. *)
Theorem write_then_parse (wrap : Z) (recs : list (string * string)) :
  Forall readable recs →
  Forall (λ r : string * string, no_space r.2 = true) recs →
  fasta_records (render wrap recs) = recs
  ∧ parse_fasta (render wrap recs) = (map fst recs, store ∅ recs).
Proof.
  intros Hrecs Hsp. pose proof (rendered_records_back wrap recs Hrecs Hsp) as Hback.
  split; [done|]. by rewrite parse_fasta_records, Hback.
Qed.

Lemma write_then_parse_witness :
  fasta_records (render 4 three_reordered) = three_reordered
  ∧ parse_fasta (render 4 three_reordered)
    = (map fst three_reordered, store ∅ three_reordered).
Proof.
  apply (write_then_parse 4 three_reordered).
  - repeat constructor.
  - repeat constructor.
Defined.

Lemma store_lookup_functional (m0 : gmap string string)
    (recs : list (string * string)) :
  Forall (λ r : string * string, m0 !! r.1 = Some r.2) recs →
  ∀ m h q, (h, q) ∈ recs → store m recs !! h = Some q.
Proof.
  induction 1 as [|[h0 q0] recs Hr Hrecs IH]; intros m h q Hin; simpl.
  - by apply elem_of_nil in Hin.
  - destruct (decide ((h, q) ∈ recs)) as [Hin'|Hout]; [by apply IH|].
    apply elem_of_cons in Hin as [[= -> ->]|Hin]; [|done].
    rewrite store_lookup_notin; [apply lookup_insert_eq|].
    intros ([h' q'] & Hh & Hmem)%list_elem_of_fmap. simpl in Hh. subst h'.
    rewrite Forall_forall in Hrecs. specialize (Hrecs _ Hmem). simpl in *.
    assert (q' = q0) as -> by congruence. done.
Qed.

(** X19. On sequences without whitespace and without '>', a second run
    on the output of a run that completed, with the same order list and
    width, reproduces it: it writes the same records in the same order
    and the text of its output is the same. *)
Theorem second_run_reproduces_output (text : string) (order_list : list string)
    (wrap : Z) (rep1 : report) :
  run text order_list wrap = Ok rep1 →
  Forall (λ r : string * string, no_marker r.2 = true ∧ no_space r.2 = true)
         (written rep1) →
  ∃ rep2, run (output rep1) order_list wrap = Ok rep2
          ∧ written rep2 = written rep1
          ∧ output rep2 = output rep1.
Proof.
  intros Hrun Hseqs.
  destruct (run_Ok_facts _ _ _ _ Hrun)
    as (Hne & Htok & Hfst & Hseq & Hrender & _).
  assert (Hread : Forall readable (written rep1)).
  { apply (written_readable text).
    - by rewrite parse_fasta_records in Hseq.
    - right. eapply Forall_impl; [exact Hseqs|]. by intros r [? _]. }
  assert (Hsp : Forall (λ r : string * string, no_space r.2 = true) (written rep1)).
  { eapply Forall_impl; [exact Hseqs|]. by intros r [_ ?]. }
  pose proof (rendered_records_back wrap _ Hread Hsp) as Hback.
  rewrite <- Hrender in Hback.
  assert (Hparse2 : parse_fasta (output rep1)
                    = (map fst (written rep1), store ∅ (written rep1)))
    by by rewrite parse_fasta_records, Hback.
  pose proof (parse_fasta_dom _ _ _ Hparse2) as Hdom2.
  set (headers := (parse_fasta text).1) in *.
  assert (Hne2 : map fst (written rep1) ≠ []).
  { rewrite Hfst. destruct headers as [|h hs] eqn:Hh; [done|]. intros Hnil.
    assert (Hin : h ∈ output_order (h :: hs) order_list)
      by (apply output_order_elem; left).
    rewrite Hnil in Hin. by apply elem_of_nil in Hin. }
  assert (Htok2 : Forall (λ h, is_Some (first_token h)) (map fst (written rep1))).
  { rewrite Hfst. rewrite Forall_forall in *.
    intros h Hin%output_order_elem. by apply Htok. }
  destruct (reorder_ok _ (store ∅ (written rep1)) order_list wrap Hne2 Hdom2 Htok2)
    as (rep2 & Hrep2 & Hfst2 & Hseq2 & Hrender2 & _).
  destruct (output_order_idem headers order_list) as [_ Hidem].
  rewrite Hfst, Hidem, <- Hfst in Hfst2.
  assert (Hw : written rep2 = written rep1).
  { apply (same_records (store ∅ (written rep1))); [done|done|].
    apply Forall_forall. intros [h q] Hin. simpl.
    by apply (store_lookup_functional _ _ Hseq). }
  exists rep2. split; [unfold run; by rewrite Hparse2|]. split; [done|].
  by rewrite Hrender, Hrender2, Hw.
Qed.

Lemma second_run_reproduces_output_witness :
  ∃ rep2, run (output three_report) ["c2"; "c1"] 4 = Ok rep2
          ∧ written rep2 = written three_report
          ∧ output rep2 = output three_report.
Proof.
  apply (second_run_reproduces_output three_contigs ["c2"; "c1"] 4 three_report).
  - vm_compute. reflexivity.
  - repeat constructor.
Defined.

(** *** Order files as they are made *)

(** X20. With the marker lines of the FASTA itself as order file, distinct
    and non-empty headers given, the tool reads the headers back from the
    order file, matches every one of them, appends nothing and writes the
    records of the input in file order. *)
Theorem own_marker_lines_as_order_file (text : string) (wrap : Z)
    (headers : list string) (seqs : gmap string string) :
  parse_fasta text = (headers, seqs) →
  headers ≠ [] →
  NoDup headers →
  Forall (λ h, h ≠ EmptyString) headers →
  ∃ rep, main text (text_of_lines (map (String GT) headers)) wrap = Ok rep
         ∧ written rep = fasta_records text
         ∧ n_ordered rep = List.length headers
         ∧ appended rep = 0
         ∧ unmatched rep = [].
Proof.
  intros Hparse Hrec Hnd Hne.
  assert (Horder : read_order_list (text_of_lines (map (String GT) headers))
                   = headers).
  { pose proof (parsed_headers_clean text) as Hc. rewrite Hparse in Hc.
    simpl in Hc. unfold read_order_list, text_of_lines. rewrite readlines_join.
    - apply read_order_markers. eapply Forall_impl; [exact Hc|]. by intros h [_ ?].
    - apply Forall_forall. intros b (h & -> & Hh)%list_elem_of_fmap.
      rewrite Forall_forall in Hc. apply no_eol_marker. by apply Hc. }
  unfold main. rewrite Horder.
  destruct (run_ok text headers wrap headers seqs Hparse Hrec Hne)
    as (rep & Hrun & Hfst & Hseq & _ & Hn & Happ & Hun).
  destruct (own_order headers Hnd) as (Hoo & Hord & Hnf & Hnil).
  rewrite Hoo in Hfst. rewrite Hord in Hn. rewrite Hnil in Happ.
  rewrite Hnf in Hun. rewrite parse_fasta_records in Hparse.
  injection Hparse as Hh Hs.
  exists rep. repeat (split; [done|]). split; [|done].
  apply (same_records seqs); [congruence|done|].
  apply Forall_forall. intros [h q] Hin. simpl. rewrite <- Hs.
  apply store_lookup_NoDup; [by rewrite Hh|done].
Qed.

Lemma own_marker_lines_as_order_file_witness :
  ∃ rep, main three_contigs (text_of_lines (map (String GT) three_headers)) 4 = Ok rep
         ∧ written rep = fasta_records three_contigs
         ∧ n_ordered rep = List.length three_headers
         ∧ appended rep = 0
         ∧ unmatched rep = [].
Proof.
  apply (own_marker_lines_as_order_file three_contigs 4 three_headers three_seqs).
  - vm_compute. reflexivity.
  - discriminate.
  - apply (bool_decide_unpack _). vm_compute. exact I.
  - apply (bool_decide_unpack _). vm_compute. exact I.
Defined.

Lemma split_go_no_space (s : string) :
  ∀ tok, no_space s = true → tok +:+ s ≠ EmptyString →
         split_go tok s = [tok +:+ s].
Proof.
  induction s as [|c s IH]; intros tok Hs Hne; simpl.
  - rewrite append_nil_r in *. by destruct tok.
  - simpl in Hs. apply andb_true_iff in Hs as [Hc Hs].
    apply negb_true_iff in Hc. rewrite Hc.
    rewrite IH; [by rewrite append_assoc| done |].
    rewrite append_assoc. exact Hne.
Qed.

Lemma first_token_of_token (h e : string) :
  first_token h = Some e → first_token e = Some e.
Proof.
  unfold first_token, split. intros He.
  pose proof (ScannerExtras.split_go_tokens h EmptyString eq_refl) as Htok.
  destruct (split_go EmptyString h) as [|t ts]; [done|].
  injection He as ->. apply Forall_cons in Htok as [[Hne Hsp] _].
  by rewrite (split_go_no_space e EmptyString Hsp).
Qed.

Lemma NoDup_fmap_inj {A B} (f : A → B) (l : list A) (x y : A) :
  NoDup (map f l) → x ∈ l → y ∈ l → f x = f y → x = y.
Proof.
  induction l as [|a l IH]; intros Hnd Hx Hy Hf; [by apply elem_of_nil in Hx|].
  simpl in Hnd. apply NoDup_cons in Hnd as [Ha Hnd].
  apply elem_of_cons in Hx as [->|Hx]; apply elem_of_cons in Hy as [->|Hy].
  - done.
  - exfalso. apply Ha. rewrite Hf. apply list_elem_of_fmap. by exists y.
  - exfalso. apply Ha. rewrite <- Hf. apply list_elem_of_fmap. by exists x.
  - by apply IH.
Qed.

Lemma resolve_by_name (headers : list string) (U : gset string) (h : string) :
  NoDup (map first_token headers) →
  h ∈ headers → is_Some (first_token h) → h ∉ U →
  resolve headers U (name_of h) = Some h.
Proof.
  intros Hnd Hin [e He] Hout. unfold name_of. rewrite He. simpl.
  assert (Hsame : ∀ h', h' ∈ headers → first_token h' = Some e → h' = h).
  { intros h' Hin' He'. apply (NoDup_fmap_inj first_token headers); congruence. }
  unfold resolve. case_bool_decide as Hexact.
  - destruct Hexact as [Hein _]. f_equal. apply Hsame; [done|].
    by apply (first_token_of_token h).
  - destruct (filter (λ h0, first_token h0 = Some e ∧ h0 ∉ U) headers)
      as [|h' hs] eqn:Hf.
    + assert (Hmem : h ∈ filter (λ h0, first_token h0 = Some e ∧ h0 ∉ U) headers)
        by by apply list_elem_of_filter.
      rewrite Hf in Hmem. by apply elem_of_nil in Hmem.
    + simpl. f_equal.
      assert (Hmem : h' ∈ filter (λ h0, first_token h0 = Some e ∧ h0 ∉ U) headers)
        by (rewrite Hf; left).
      apply list_elem_of_filter in Hmem as [[He' _] Hin']. by apply Hsame.
Qed.

Lemma foldl_step_names (headers : list string) :
  NoDup (map first_token headers) →
  ∀ suf pre st,
    NoDup (pre ++ suf) →
    Forall (λ h, h ∈ headers ∧ is_Some (first_token h)) suf →
    ordered_headers st = pre →
    (∀ h, h ∈ used st ↔ h ∈ pre) →
    ordered_headers (foldl (step headers) st (map name_of suf)) = pre ++ suf
    ∧ not_found (foldl (step headers) st (map name_of suf)) = not_found st
    ∧ ∀ h, h ∈ used (foldl (step headers) st (map name_of suf)) ↔ h ∈ pre ++ suf.
Proof.
  intros Htoks. induction suf as [|x suf IH]; intros pre st Hnd Hin Hord Hused; simpl.
  - rewrite app_nil_r. by subst.
  - apply Forall_cons in Hin as [[Hx Htok] Hin].
    assert (Hres : resolve headers (used st) (name_of x) = Some x).
    { apply resolve_by_name; try done. rewrite Hused.
      apply NoDup_app in Hnd as (_ & Hdis & _). intros Hp. apply (Hdis x Hp). left. }
    assert (Hstep : step headers st (name_of x)
                    = Engine (ordered_headers st ++ [x]) ({[x]} ∪ used st)
                             (not_found st))
      by (unfold step; by rewrite Hres).
    rewrite Hstep.
    destruct (IH (pre ++ [x])
                 (Engine (ordered_headers st ++ [x]) ({[x]} ∪ used st)
                         (not_found st))) as (H1 & H2 & H3); simpl.
    + by rewrite <- app_assoc.
    + done.
    + by rewrite Hord.
    + intros h. rewrite elem_of_union, elem_of_singleton, elem_of_app,
        list_elem_of_singleton, Hused. tauto.
    + rewrite <- app_assoc in H1, H3. done.
Qed.

(** X21. Names instead of full headers: when the first tokens of the
    headers are pairwise distinct, an order list that gives the names
    (first tokens) of some records, each once, makes the tool write these
    records in that order, followed by the others in file order; every
    entry is matched. *)
Theorem names_select_records (text : string) (chosen : list string) (wrap : Z)
    (headers : list string) (seqs : gmap string string) :
  parse_fasta text = (headers, seqs) →
  headers ≠ [] →
  Forall (λ h, h ≠ EmptyString) headers →
  NoDup (map first_token headers) →
  NoDup chosen →
  Forall (λ h, h ∈ headers) chosen →
  ∃ rep, run text (map name_of chosen) wrap = Ok rep
         ∧ map fst (written rep) = chosen ++ filter (λ h, h ∉ chosen) headers
         ∧ n_ordered rep = List.length chosen
         ∧ unmatched rep = [].
Proof.
  intros Hparse Hne Hnonempty Htoks Hnd Hin.
  pose proof (parsed_headers_tokens _ _ _ Hparse Hnonempty) as Htok.
  destruct (run_ok text (map name_of chosen) wrap headers seqs Hparse Hne Hnonempty)
    as (rep & Hrun & Hfst & _ & _ & Hn & _ & Hun).
  destruct (foldl_step_names headers Htoks chosen [] (Engine [] ∅ []))
    as (Hord & Hnf & Hused); try done.
  { rewrite Forall_forall in *. intros h Hh. split; [by apply Hin|].
    by apply Htok, Hin. }
  { intros h. simpl. rewrite elem_of_nil. split; [|done]. apply not_elem_of_empty. }
  fold (final headers (map name_of chosen)) in Hord, Hnf, Hused.
  simpl in Hord, Hnf, Hused.
  exists rep. split; [done|]. rewrite Hn, Hun, Hfst, Hord, Hnf.
  split; [|done]. unfold output_order. rewrite Hord. f_equal.
  apply list_filter_iff. intros h. by rewrite Hused.
Qed.

Lemma names_select_records_witness :
  ∃ rep, run three_contigs (map name_of ["c2 second"; "c1"]) 4 = Ok rep
         ∧ map fst (written rep)
           = ["c2 second"; "c1"] ++ filter (λ h, h ∉ ["c2 second"; "c1"]) three_headers
         ∧ n_ordered rep = List.length ["c2 second"; "c1"]
         ∧ unmatched rep = [].
Proof.
  apply (names_select_records three_contigs ["c2 second"; "c1"] 4
           three_headers three_seqs).
  - vm_compute. reflexivity.
  - discriminate.
  - apply (bool_decide_unpack _). vm_compute. exact I.
  - apply (bool_decide_unpack _). vm_compute. exact I.
  - apply (bool_decide_unpack _). vm_compute. exact I.
  - apply (bool_decide_unpack _). vm_compute. exact I.
Defined.

End ReorderExtras.

(** ** The text of the scanner's reports *)

Module ScannerTextProofs.
Import Py PyFacts Scanner ScannerSpec ScannerProofs ExtraSpec ScannerText.
Import ScannerExtras.

Lemma count_append c (s t : string) : count c (s +:+ t) = count c s + count c t.
Proof.
  induction s as [|a s IH]; [done|]. rewrite append_cons. simpl. rewrite IH. lia.
Qed.

Lemma no_space_append (s t : string) :
  no_space (s +:+ t) = no_space s && no_space t.
Proof. apply sforall_append. Qed.

Lemma no_space_plain (s : string) :
  no_space s = true → count TAB s = 0 ∧ no_eol s = true.
Proof.
  unfold no_space, no_eol. induction s as [|c s IH]; simpl; [done|].
  intros [Hc Hs]%andb_true_iff. destruct (IH Hs) as [-> ->].
  apply negb_true_iff in Hc.
  destruct (Ascii.eqb_spec c TAB) as [->|_]; [done|].
  destruct (Ascii.eqb_spec c LF) as [->|_]; [done|].
  destruct (Ascii.eqb_spec c CR) as [->|_]; done.
Qed.

Lemma pretty_N_char_no_space (d : N) : isspace (pretty_N_char d) = false.
Proof. unfold pretty_N_char. by repeat case_match. Qed.

Lemma pretty_N_go_no_space (x : N) :
  ∀ s, no_space s = true → no_space (pretty_N_go x s) = true.
Proof.
  induction (N.lt_wf_0 x) as [x _ IH]; intros s Hs.
  destruct (decide (x = 0)%N) as [->|Hx]; [by rewrite pretty_N_go_0|].
  rewrite pretty_N_go_step by lia. apply IH; [apply N.div_lt; lia|].
  unfold no_space in *. simpl. by rewrite pretty_N_char_no_space, Hs.
Qed.

Lemma pretty_N_no_space (x : N) : no_space (pretty x) = true.
Proof.
  unfold pretty, pretty_N. destruct (decide (x = 0)%N); [done|].
  by apply pretty_N_go_no_space.
Qed.

Lemma str_nat_no_space (n : nat) : no_space (str_nat n) = true.
Proof. apply pretty_N_no_space. Qed.

Lemma str_6f_no_space (u : Z) : no_space (str_6f u) = true.
Proof.
  unfold str_6f, decimal. rewrite !no_space_append, pretty_N_no_space.
  unfold no_space. simpl. by rewrite !pretty_N_char_no_space.
Qed.

Lemma join_with_no_space (sep : string) (parts : list string) :
  no_space sep = true → Forall (λ x, no_space x = true) parts →
  no_space (join_with sep parts) = true.
Proof.
  intros Hsep. induction 1 as [|x xs Hx Hxs IH]; [done|].
  cbn [join_with]. destruct xs as [|y ys]; [done|].
  by rewrite !no_space_append, Hx, Hsep, IH.
Qed.

Lemma tsv_body_columns (row : tsv_row) :
  no_space (contig row) = true →
  count TAB (tsv_body row) = 5 ∧ no_eol (tsv_body row) = true.
Proof.
  intros Hc.
  assert (Hruns : no_space (join_with ";" (map str_run (n_run_positions row))) = true).
  { apply join_with_no_space; [done|]. apply Forall_forall.
    intros x (r & -> & _)%list_elem_of_fmap. unfold str_run.
    by rewrite !no_space_append, !str_nat_no_space. }
  destruct (no_space_plain _ Hc) as [Hc1 Hc2].
  destruct (no_space_plain _ (str_nat_no_space (contig_len row))) as [Hl1 Hl2].
  destruct (no_space_plain _ (str_nat_no_space (total_Ns row))) as [Ht1 Ht2].
  destruct (no_space_plain _ (str_6f_no_space (frac_N row))) as [Hf1 Hf2].
  destruct (no_space_plain _ (str_nat_no_space (n_N_runs row))) as [Hn1 Hn2].
  destruct (no_space_plain _ Hruns) as [Hr1 Hr2].
  unfold tsv_body. split.
  - rewrite !count_append, Hc1, Hl1, Ht1, Hf1, Hn1, Hr1. reflexivity.
  - unfold no_eol in *. rewrite !sforall_append, Hc2, Hl2, Ht2, Hf2, Hn2, Hr2.
    reflexivity.
Qed.

Lemma bed_body_columns (b : bed_row) :
  no_space (chrom b) = true → no_space (bed_name b).1.1 = true →
  count TAB (bed_body b) = 4 ∧ no_eol (bed_body b) = true.
Proof.
  intros Hc Hn.
  assert (Hname : no_space (str_name (bed_name b)) = true).
  { unfold str_name. by rewrite !no_space_append, Hn, !str_nat_no_space. }
  destruct (no_space_plain _ Hc) as [Hc1 Hc2].
  destruct (no_space_plain _ (str_nat_no_space (bed_start b))) as [Hs1 Hs2].
  destruct (no_space_plain _ (str_nat_no_space (bed_end b))) as [He1 He2].
  destruct (no_space_plain _ Hname) as [Hn1 Hn2].
  destruct (no_space_plain _ (str_nat_no_space (N_len b))) as [Hl1 Hl2].
  unfold bed_body. split.
  - rewrite !count_append, Hc1, Hs1, He1, Hn1, Hl1. reflexivity.
  - unfold no_eol in *. rewrite !sforall_append, Hc2, Hs2, He2, Hn2, Hl2.
    reflexivity.
Qed.

Lemma scan_record_bed_names name seq row bed :
  scan_record name seq = Ok (row, bed) →
  Forall (λ b, chrom b = name ∧ (bed_name b).1.1 = name) bed.
Proof.
  destruct (Nat.eq_dec (count chN seq) 0) as [H0|Hn].
  - rewrite scan_record_skip by done. by intros [= _ <-].
  - destruct (scan_record_row name seq) as (x & _ & ->); [lia|].
    intros [= _ <-]. apply Forall_forall.
    by intros b (m & -> & _)%list_elem_of_fmap.
Qed.

Lemma main_names upper (text : string) :
  Forall (λ row, no_space (contig row) = true) (main upper text).1.1
  ∧ Forall (λ b, no_space (chrom b) = true ∧ no_space (bed_name b).1.1 = true)
           (main upper text).1.2.
Proof.
  pose proof (parse_lines_names upper (readlines text) None [] ltac:(done)) as Hn.
  fold (parse_fasta upper text) in Hn. unfold main.
  destruct (parse_fasta upper text) as [recs perr]. simpl in Hn.
  destruct (scan_records recs) as [[rows beds] serr] eqn:Hscan. simpl.
  rewrite Forall_forall in Hn. split; apply Forall_forall.
  - intros row Hrow.
    destruct (scan_records_rows _ _ _ _ row Hscan Hrow) as (n & q & b & Hin & Hrec).
    apply scan_record_names in Hrec as [Hc _]. rewrite (Hc row eq_refl).
    by apply (Hn (n, q)).
  - intros b Hb.
    destruct (scan_records_beds _ _ _ _ b Hscan Hb)
      as (n & q & r & bed & Hin & Hrec & Hbed).
    apply scan_record_bed_names in Hrec. rewrite Forall_forall in Hrec.
    destruct (Hrec b Hbed) as [-> ->]. split; by apply (Hn (n, q)).
Qed.

(** X22. In the text of the reports every row is one line: the tabular
    report reads back as its head line followed by one line for each row,
    each with exactly five tabs (six columns); the interval report as its
    head line followed by one line for each run, each with exactly four
    tabs (five columns). No name and no number breaks a line or a
    column. *)
Theorem report_rows_are_lines_with_fixed_columns upper (text : string) :
  readlines (reports upper text).1.1
  = map (λ b, b +:+ NL) (tsv_head :: map tsv_body (main upper text).1.1)
  ∧ Forall (λ b, count TAB b = 5) (tsv_head :: map tsv_body (main upper text).1.1)
  ∧ readlines (reports upper text).1.2
    = map (λ b, b +:+ NL) (bed_head :: map bed_body (main upper text).1.2)
  ∧ Forall (λ b, count TAB b = 4) (bed_head :: map bed_body (main upper text).1.2).
Proof.
  destruct (main_names upper text) as [Hrows Hbeds]. unfold reports.
  destruct (main upper text) as [[rows beds] e]. simpl in *.
  assert (Ht : Forall (λ b, count TAB b = 5 ∧ no_eol b = true)
                      (tsv_head :: map tsv_body rows)).
  { constructor; [by vm_compute|]. apply Forall_forall.
    intros b (row & -> & Hrow)%list_elem_of_fmap. apply tsv_body_columns.
    rewrite Forall_forall in Hrows. by apply Hrows. }
  assert (Hb : Forall (λ b, count TAB b = 4 ∧ no_eol b = true)
                      (bed_head :: map bed_body beds)).
  { constructor; [by vm_compute|]. apply Forall_forall.
    intros b (x & -> & Hx)%list_elem_of_fmap.
    rewrite Forall_forall in Hbeds. destruct (Hbeds x Hx). by apply bed_body_columns. }
  unfold tsv_text, bed_text. repeat split.
  - apply readlines_join. eapply Forall_impl; [exact Ht|]. by intros b [_ ?].
  - eapply Forall_impl; [exact Ht|]. by intros b [? _].
  - apply readlines_join. eapply Forall_impl; [exact Hb|]. by intros b [_ ?].
  - eapply Forall_impl; [exact Hb|]. by intros b [? _].
Qed.

End ScannerTextProofs.

(** ** The two tools on one file *)

Module BothTools.
Import Py PyFacts ReorderSpec ExtraSpec.

Lemma rstrip_marker (r : string) :
  rstrip_by isspace (String GT r) = String GT (rstrip_by isspace r).
Proof. cbn [rstrip_by]. by destruct (rstrip_by isspace r). Qed.

Lemma rstrip_of_line (l : string) :
  rstrip l = rstrip_by isspace (rstrip_by (Ascii.eqb LF) l).
Proof.
  unfold rstrip. symmetry. apply ReorderExtras.rstrip_by_absorb.
  intros c Hc. by apply Ascii.eqb_eq in Hc as <-.
Qed.

Lemma marker_lines_agree (l : string) : marker_line l = header_line l.
Proof.
  unfold marker_line, header_line. rewrite rstrip_of_line.
  destruct (rstrip_by (Ascii.eqb LF) l) as [|c r]; [done|].
  cbn [rstrip_by startswith]. destruct (rstrip_by isspace r).
  - destruct (isspace c) eqn:Hc; [|done]. simpl.
    destruct (Ascii.eqb_spec c GT) as [->|_]; [by vm_compute in Hc|done].
  - done.
Qed.

Lemma split_go_lstrip (s : string) :
  split_go EmptyString (lstrip_by isspace s) = split_go EmptyString s.
Proof.
  induction s as [|c s IH]; simpl; [done|].
  destruct (isspace c) eqn:Hc; [done|]. simpl. by rewrite Hc.
Qed.

Lemma names_agree (l : string) :
  header_line l = true →
  head (split (tail1 (rstrip l)))
  = first_token (strip (tail1 (rstrip_by (Ascii.eqb LF) l))).
Proof.
  unfold header_line. rewrite rstrip_of_line.
  destruct (rstrip_by (Ascii.eqb LF) l) as [|c r]; [done|].
  cbn [startswith]. intros ->%Ascii.eqb_eq.
  rewrite rstrip_marker. cbn [tail1]. unfold first_token, strip, split.
  by rewrite split_go_lstrip.
Qed.

Lemma records_go_header_list (lines : list string) :
  ∀ cur,
    map fst (records_go cur lines)
    = map fst (flush_record cur)
      ++ map (λ l, strip (tail1 (rstrip_by (Ascii.eqb LF) l)))
             (filter (λ l, header_line l = true) lines).
Proof.
  induction lines as [|line lines IH]; intros cur; cbn [records_go].
  - by rewrite app_nil_r.
  - destruct (header_line line) eqn:Hh.
    + rewrite filter_cons_True by done. unfold header_line in Hh.
      destruct (rstrip_by (Ascii.eqb LF) line) as [|c l] eqn:Hl; [done|].
      rewrite Hh, map_app, (IH (Some _)). cbn [map flush_record fst app].
      by rewrite Hl.
    + rewrite filter_cons_False by (by rewrite Hh). unfold header_line in Hh.
      destruct (rstrip_by (Ascii.eqb LF) line) as [|c l] eqn:Hl; [apply IH|].
      rewrite Hh, IH. by destruct cur as [[h ps]|].
Qed.

Lemma scanner_name_list upper (lines : list string) :
  Forall (λ l, bare_marker l = false) lines →
  ∀ name seq_lines,
    (∀ n, name = Some n → n ≠ EmptyString) →
    map fst (Scanner.parse_lines upper name seq_lines lines).1
    = map fst (Scanner.yield_record name seq_lines)
      ++ map (λ l, default EmptyString (head (split (tail1 (rstrip l)))))
             (filter (λ l, marker_line l = true) lines).
Proof.
  induction 1 as [|line lines Hbare _ IH]; intros name sl Hname;
    cbn [Scanner.parse_lines].
  - simpl. by rewrite app_nil_r.
  - unfold bare_marker in Hbare. destruct (marker_line line) eqn:Hm.
    + rewrite filter_cons_True by done. unfold marker_line in Hm. cbn [map].
      destruct (rstrip line) as [|c l] eqn:Hl; [done|].
      rewrite Hm. cbn [startswith tail1] in *. rewrite Hm in Hbare.
      simpl in Hbare.
      pose proof (ScannerExtras.split_go_tokens l EmptyString eq_refl) as Htok.
      fold (split l) in Htok.
      destruct (split l) as [|t ts] eqn:Hs.
      { pose proof (ReorderProofs.split_go_nil l EmptyString Hs) as [_ Hall].
        congruence. }
      apply Forall_cons in Htok as [[Hne _] _]. cbn [index0 head default].
      specialize (IH (Some t) []).
      destruct (Scanner.parse_lines upper (Some t) [] lines) as [ys e'].
      cbn [fst] in *. rewrite map_app, IH by (by intros n [= <-]).
      by destruct t.
    + rewrite filter_cons_False by (by rewrite Hm). unfold marker_line in Hm.
      destruct (rstrip line) as [|c l] eqn:Hl; [by apply IH|].
      rewrite Hm, IH by done. f_equal. by destruct name as [[|a n]|].
Qed.

(** X23. The two tools agree on the records of a file: when the scanner
    runs through (no marker line without identifier), the contig names
    it yields, in order, are the first tokens of the headers the reorder
    tool parses from the same text, in order. *)
Theorem scanner_names_are_first_tokens_of_headers upper (text : string) :
  (Scanner.main upper text).2 = None →
  map fst (Scanner.parse_fasta upper text).1
  = map name_of (Reorder.parse_fasta text).1.
Proof.
  intros Hok. rewrite ScannerExtras.main_status in Hok.
  apply ScannerExtras.parse_lines_status in Hok.
  rewrite ReorderProofs.parse_fasta_records. cbn [fst].
  unfold Scanner.parse_fasta, fasta_records.
  rewrite (scanner_name_list upper _ Hok None []) by done.
  rewrite records_go_header_list. cbn [map app Scanner.yield_record flush_record].
  rewrite List.map_map.
  rewrite (list_filter_iff (λ l, marker_line l = true) (λ l, header_line l = true))
    by (intros l; by rewrite marker_lines_agree).
  apply map_ext_in. intros l Hl%list_elem_of_In%list_elem_of_filter.
  destruct Hl as [Hl _]. unfold name_of. by rewrite <- names_agree.
Qed.

Lemma scanner_names_are_first_tokens_of_headers_witness :
  map fst (Scanner.parse_fasta id Examples.three_contigs).1
  = map name_of (Reorder.parse_fasta Examples.three_contigs).1.
Proof.
  apply (scanner_names_are_first_tokens_of_headers id Examples.three_contigs).
  vm_compute. reflexivity.
Defined.

End BothTools.
